(** * Shallow embedding of the shoppink-backend stock and option-catalog core

    Sources embedded here:
    - src/services/stockManagementService.js (StockManagementService)
    - src/routes/blacklist-phones.js (order routes: PUT /:id/state,
      PUT /:id/driver, DELETE /:id)
    - src/unnamed/part_005 (product-option routes: option-group update and
      DELETE /groups/:groupId)
    - src/prisma/seed.js (HierarchicalStockService: variant generation and
      the hierarchical total)

    Modelling conventions.
    - Database ids (Prisma cuid strings) are [nat]; an id is never falsy.
    - Integer stock columns are [Z]; DOUBLE PRECISION price columns are [Q]
      (floating point rounding is not modelled).
    - The database is a record of tables (lists, in row order).  Prisma
      calls outside a [$transaction] commit one by one, so a computation is
      a state-and-error function [DB -> DB * res A]: when it fails, the
      writes made before the failure stay in the returned database. *)

From Stdlib Require Import List Arith Bool Lia ZArith String QArith Qabs.
From Stdlib Require Import Permutation.
Import ListNotations.

Open Scope nat_scope.
Open Scope list_scope.

(** ** Data model *)

Inductive OrderState := PLACED | DELIVERING | RETURNED | COMPLETED.

Definition OrderState_eqb (a b : OrderState) : bool :=
  match a, b with
  | PLACED, PLACED | DELIVERING, DELIVERING
  | RETURNED, RETURNED | COMPLETED, COMPLETED => true
  | _, _ => false
  end.

(** A product option ([product_options]). *)
Record ProductOption := mkOption {
  opt_id : nat;
  opt_name : string;
  opt_priceValue : option Q;
  opt_isAvailable : bool;
  opt_stock : Z;
  opt_sortOrder : nat
}.

(** An option group ([product_option_groups]); its options are the rows of
    [product_options] whose [optionGroupId] is this group (ON DELETE
    CASCADE), kept in [sortOrder] order; [g_path] is the nullable [path]
    column. *)
Record OptionGroup := mkGroup {
  g_id : nat;
  g_productId : nat;
  g_name : string;
  g_level : nat;
  g_parentGroupId : option nat;
  g_isParent : bool;
  g_isActive : bool;
  g_path : option string;
  g_options : list ProductOption
}.

(** A variant ([product_variants]) with the option ids of its
    [product_variant_options] rows. *)
Record Variant := mkVariant {
  v_id : nat;
  v_productId : nat;
  v_name : string;
  v_stock : Z;
  v_priceAdjustment : Q;
  v_optionPath : string;
  v_optionHash : option (list nat);
  v_options : list nat
}.

Record Product := mkProduct {
  p_id : nat;
  p_quantity : Z;
  p_hasOptions : bool
}.

(** One entry of the selection payload: [{ selectedOptions: [{ id }, ...] }];
    [selectedOptions] may be absent and an entry's [id] may be absent. *)
Record SelGroup := mkSel { selectedOptions : option (list (option nat)) }.

(** The [optionDetails] JSON column of an order item: [null], a bare array
    of selection groups (legacy payload), or the object
    [{ variantId, selections }] written at order creation. *)
Inductive OptionDetails :=
| ODNull
| ODArray (gs : list SelGroup)
| ODObject (variantId : option nat) (selections : option (list SelGroup)).

Record OrderItem := mkItem {
  oi_productId : nat;
  oi_quantity : Z;
  oi_optionDetails : OptionDetails;
  oi_productVariantId : option nat   (* the [productVariantId] FK column *)
}.

Record Order := mkOrder {
  o_id : nat;
  o_state : OrderState;
  o_driverId : option nat;
  o_items : list OrderItem
}.

Record DB := mkDB {
  db_products : list Product;
  db_groups : list OptionGroup;
  db_variants : list Variant;
  db_orders : list Order;
  db_drivers : list nat
}.

(** ** A state-and-error monad for non-transactional Prisma code *)

(** [ErrOutOfRange]: a value that does not fit an [INTEGER] (int4) column. *)
Inductive Err := ErrNotFound | ErrInsufficientStock | ErrUnique | ErrOutOfRange.

Inductive res (A : Type) := Ok (a : A) | Fail (e : Err).
Arguments Ok {A} a.
Arguments Fail {A} e.

Definition M (A : Type) := DB -> DB * res A.

Definition ret {A} (a : A) : M A := fun s => (s, Ok a).
Definition throw {A} (e : Err) : M A := fun s => (s, Fail e).
Definition bind {A B} (m : M A) (k : A -> M B) : M B :=
  fun s => match m s with
           | (s', Ok a) => k a s'
           | (s', Fail e) => (s', Fail e)
           end.
Definition get : M DB := fun s => (s, Ok s).
Definition modify (f : DB -> DB) : M unit := fun s => (f s, Ok tt).

Notation "x <- m ;; k" := (bind m (fun x => k))
  (at level 61, m at next level, right associativity).
Notation "m ;;; k" := (bind m (fun _ => k))
  (at level 61, right associativity).

(** [for (const x of xs) await f(x);] *)
Fixpoint forEach {A} (f : A -> M unit) (xs : list A) : M unit :=
  match xs with
  | [] => ret tt
  | x :: xs' => f x ;;; forEach f xs'
  end.

(** ** Table access *)

Definition findVariant (id : nat) (s : DB) : option Variant :=
  find (fun v => Nat.eqb (v_id v) id) (db_variants s).
Definition findProduct (id : nat) (s : DB) : option Product :=
  find (fun p => Nat.eqb (p_id p) id) (db_products s).
Definition findOrder (id : nat) (s : DB) : option Order :=
  find (fun o => Nat.eqb (o_id o) id) (db_orders s).
Definition findGroup (id : nat) (s : DB) : option OptionGroup :=
  find (fun g => Nat.eqb (g_id g) id) (db_groups s).

Definition set_variants (s : DB) (vs : list Variant) : DB :=
  mkDB (db_products s) (db_groups s) vs (db_orders s) (db_drivers s).
Definition set_products (s : DB) (ps : list Product) : DB :=
  mkDB ps (db_groups s) (db_variants s) (db_orders s) (db_drivers s).
Definition set_orders (s : DB) (os : list Order) : DB :=
  mkDB (db_products s) (db_groups s) (db_variants s) os (db_drivers s).
Definition set_groups (s : DB) (gs : list OptionGroup) : DB :=
  mkDB (db_products s) gs (db_variants s) (db_orders s) (db_drivers s).

Definition with_stock (v : Variant) (n : Z) : Variant :=
  mkVariant (v_id v) (v_productId v) (v_name v) n (v_priceAdjustment v)
    (v_optionPath v) (v_optionHash v) (v_options v).
Definition with_quantity (p : Product) (n : Z) : Product :=
  mkProduct (p_id p) n (p_hasOptions p).

(** [productVariant.update({ data: { stock: { increment: d } } })] *)
Definition addVariantStock (id : nat) (d : Z) (s : DB) : DB :=
  set_variants s (map (fun v => if Nat.eqb (v_id v) id
                                then with_stock v (v_stock v + d) else v)
                      (db_variants s)).
(** [product.update({ data: { quantity: { increment: d } } })] *)
Definition addProductQuantity (id : nat) (d : Z) (s : DB) : DB :=
  set_products s (map (fun p => if Nat.eqb (p_id p) id
                                then with_quantity p (p_quantity p + d) else p)
                      (db_products s)).

(** ** StockManagementService (src/services/stockManagementService.js) *)

Module StockManagementService.

(** [deductVariantStock(variantId, quantity)] *)
Definition deductVariantStock (variantId : nat) (quantity : Z) : M unit :=
  s <- get;;
  match findVariant variantId s with
  | None => throw ErrNotFound
  | Some variant =>
      if (v_stock variant <? quantity)%Z then throw ErrInsufficientStock
      else modify (addVariantStock variantId (- quantity))
  end.

(** [restoreVariantStock(variantId, quantity)] *)
Definition restoreVariantStock (variantId : nat) (quantity : Z) : M unit :=
  s <- get;;
  match findVariant variantId s with
  | None => throw ErrNotFound
  | Some _ => modify (addVariantStock variantId quantity)
  end.

(** [deductProductStock(productId, quantity)] *)
Definition deductProductStock (productId : nat) (quantity : Z) : M unit :=
  s <- get;;
  match findProduct productId s with
  | None => throw ErrNotFound
  | Some product =>
      if (p_quantity product <? quantity)%Z then throw ErrInsufficientStock
      else modify (addProductQuantity productId (- quantity))
  end.

(** [restoreProductStock(productId, quantity)]: a Prisma [update] of a
    missing row throws. *)
Definition restoreProductStock (productId : nat) (quantity : Z) : M unit :=
  s <- get;;
  match findProduct productId s with
  | None => throw ErrNotFound
  | Some _ => modify (addProductQuantity productId quantity)
  end.

(** [new Set(xs)]: distinct elements, in first-occurrence order. *)
Definition toSet (xs : list nat) : list nat := nodup Nat.eq_dec xs.

(** [set.has(x)] *)
Definition has (set : list nat) (x : nat) : bool := existsb (Nat.eqb x) set.

(** The option-id set of a variant: [new Set(v.variantOptions.map(vo => vo.optionId))]. *)
Definition voSet (v : Variant) : list nat := toSet (v_options v).

(** The exact-match test of the first loop: equal sizes and every desired
    id in [voSet] (the inner loop's [break] is [forallb]). *)
Definition isExact (desired : list nat) (v : Variant) : bool :=
  Nat.eqb (List.length (voSet v)) (List.length desired) && forallb (has (voSet v)) desired.

(** The first loop: [for (const v of variants) ... if (exact) return v.id] *)
Fixpoint exactLoop (desired : list nat) (variants : list Variant) : option nat :=
  match variants with
  | [] => None
  | v :: vs => if isExact desired v then Some (v_id v) else exactLoop desired vs
  end.

(** The subset test of the second loop. *)
Definition isSubset (desired : list nat) (v : Variant) : bool :=
  forallb (has desired) (voSet v).

(** The second loop, threading [best] and [bestSize]. *)
Fixpoint subsetLoop (desired : list nat) (variants : list Variant)
    (best : option nat) (bestSize : Z) : option nat * Z :=
  match variants with
  | [] => (best, bestSize)
  | v :: vs =>
      if isSubset desired v && (bestSize <? Z.of_nat (List.length (voSet v)))%Z
      then subsetLoop desired vs (Some (v_id v)) (Z.of_nat (List.length (voSet v)))
      else subsetLoop desired vs best bestSize
  end.

(** The matching algorithm of [resolveVariantId] on the product's variants
    (as returned by [productVariant.findMany({ where: { productId } })]). *)
Definition resolveFrom (variants : list Variant) (optionIds : list nat) : option nat :=
  match optionIds with
  | [] => None
  | _ =>
    match variants with
    | [] => None
    | _ =>
      let desired := toSet optionIds in
      match exactLoop desired variants with
      | Some id => Some id
      | None => fst (subsetLoop desired variants None (-1)%Z)
      end
    end
  end.

Definition variantsOf (productId : nat) (s : DB) : list Variant :=
  filter (fun v => Nat.eqb (v_productId v) productId) (db_variants s).

(** [resolveVariantId(productId, optionIds)] *)
Definition resolveVariantId (productId : nat) (optionIds : list nat) : M (option nat) :=
  match optionIds with
  | [] => ret None
  | _ => s <- get;; ret (resolveFrom (variantsOf productId s) optionIds)
  end.

(** [optionDetails?.variantId]: arrays carry no [variantId]. *)
Definition storedVariantId (od : OptionDetails) : option nat :=
  match od with
  | ODObject v _ => v
  | _ => None
  end.

(** [Array.isArray(optionDetails) ? optionDetails : optionDetails.selections],
    reached only when [optionDetails] is truthy. *)
Definition selectionsOf (od : OptionDetails) : option (list SelGroup) :=
  match od with
  | ODNull => None
  | ODArray gs => Some gs
  | ODObject _ sel => sel
  end.

(** [selections.flatMap(g => (g.selectedOptions || []).map(o => o.id)).filter(Boolean)] *)
Definition selectedOptionIds (selections : list SelGroup) : list nat :=
  flat_map (fun g => match selectedOptions g with
                     | None => []
                     | Some os => flat_map (fun o => match o with
                                                     | Some id => [id]
                                                     | None => []
                                                     end) os
                     end) selections.

(** The variant-id resolution shared by [deductStockForItem],
    [restoreStockForItem] and [validateStockForOrder]. *)
Definition itemVariantId (item : OrderItem) : M (option nat) :=
  match storedVariantId (oi_optionDetails item) with
  | Some id => ret (Some id)
  | None =>
      match selectionsOf (oi_optionDetails item) with
      | Some selections =>
          match selections with
          | [] => ret None
          | _ => resolveVariantId (oi_productId item) (selectedOptionIds selections)
          end
      | None => ret None
      end
  end.

(** [deductStockForItem(orderItem)] *)
Definition deductStockForItem (item : OrderItem) : M unit :=
  variantId <- itemVariantId item;;
  match variantId with
  | Some id => deductVariantStock id (oi_quantity item)
  | None => deductProductStock (oi_productId item) (oi_quantity item)
  end.

(** [restoreStockForItem(orderItem)] *)
Definition restoreStockForItem (item : OrderItem) : M unit :=
  variantId <- itemVariantId item;;
  match variantId with
  | Some id => restoreVariantStock id (oi_quantity item)
  | None => restoreProductStock (oi_productId item) (oi_quantity item)
  end.

(** [deductStockForOrder(orderId)] *)
Definition deductStockForOrder (orderId : nat) : M unit :=
  s <- get;;
  match findOrder orderId s with
  | None => throw ErrNotFound
  | Some order => forEach deductStockForItem (o_items order)
  end.

(** [restoreStockForOrder(orderId)] *)
Definition restoreStockForOrder (orderId : nat) : M unit :=
  s <- get;;
  match findOrder orderId s with
  | None => throw ErrNotFound
  | Some order => forEach restoreStockForItem (o_items order)
  end.

(** One entry of [validateStockForOrder]'s results: [isValid]. *)
Definition validateItem (item : OrderItem) : M bool :=
  variantId <- itemVariantId item;;
  s <- get;;
  match variantId with
  | Some id =>
      let available := match findVariant id s with
                       | Some v => v_stock v | None => 0%Z end in
      ret (available >=? oi_quantity item)%Z
  | None =>
      let available := match findProduct (oi_productId item) s with
                       | Some p => p_quantity p | None => 0%Z end in
      ret (available >=? oi_quantity item)%Z
  end.

Fixpoint validateItems (items : list OrderItem) : M bool :=
  match items with
  | [] => ret true
  | i :: is => b <- validateItem i;; rest <- validateItems is;; ret (b && rest)
  end.

(** [validateStockForOrder(orderId)].isValid *)
Definition validateStockForOrder (orderId : nat) : M bool :=
  s <- get;;
  match findOrder orderId s with
  | None => throw ErrNotFound
  | Some order => validateItems (o_items order)
  end.

End StockManagementService.

(** ** Order routes (src/routes/blacklist-phones.js) *)

Module OrderRoutes.
Import StockManagementService.

Inductive Status := S200 | S400 | S404 | S500.

(** An Express handler: an error thrown inside [try] is answered with 500;
    the writes already committed stay. *)
Definition runHandler (m : M Status) (s : DB) : DB * Status :=
  match m s with
  | (s', Ok st) => (s', st)
  | (s', Fail _) => (s', S500)
  end.

(** [prisma.order.update({ where: { id }, data: { state } })] *)
Definition setOrderState (id : nat) (st : OrderState) (s : DB) : DB :=
  set_orders s (map (fun o => if Nat.eqb (o_id o) id
                              then mkOrder (o_id o) st (o_driverId o) (o_items o)
                              else o) (db_orders s)).

(** [prisma.order.update({ where: { id }, data: { driverId, assignedAt, state } })] *)
Definition setOrderDriver (id : nat) (driverId : option nat) (st : OrderState)
    (s : DB) : DB :=
  set_orders s (map (fun o => if Nat.eqb (o_id o) id
                              then mkOrder (o_id o) st driverId (o_items o)
                              else o) (db_orders s)).

(** The edge test written after the order update in both handlers:
    [if (state === "DELIVERING" && existingOrder.state !== "DELIVERING") deduct
     else if (state === "RETURNED" && existingOrder.state !== "RETURNED") restore]. *)
Definition stockOnEdge (current next : OrderState) (id : nat) : M unit :=
  if OrderState_eqb next DELIVERING && negb (OrderState_eqb current DELIVERING)
  then deductStockForOrder id
  else if OrderState_eqb next RETURNED && negb (OrderState_eqb current RETURNED)
  then restoreStockForOrder id
  else ret tt.

(** [PUT /api/orders/:id/state] *)
Definition putOrderState (id : nat) (state : OrderState) : DB -> DB * Status :=
  runHandler (
    s <- get;;
    match findOrder id s with
    | None => ret S404
    | Some existingOrder =>
        modify (setOrderState id state);;;
        stockOnEdge (o_state existingOrder) state id;;;
        ret S200
    end).

(** [PUT /api/orders/:id/driver] ([assignedAt] is not modelled). *)
Definition putOrderDriver (id : nat) (driverId : option nat) : DB -> DB * Status :=
  runHandler (
    s <- get;;
    match findOrder id s with
    | None => ret S404
    | Some existingOrder =>
        let currentState := o_state existingOrder in
        let newState := match driverId with
                        | Some _ => DELIVERING
                        | None => PLACED
                        end in
        let update :=
          modify (setOrderDriver id driverId newState);;;
          stockOnEdge currentState newState id;;;
          ret S200 in
        let validated :=
          if OrderState_eqb newState DELIVERING
             && negb (OrderState_eqb currentState DELIVERING)
          then (isValid <- validateStockForOrder id;;
                if isValid then update else ret S400)
          else update in
        match driverId with
        | Some d => if has (db_drivers s) d then validated else ret S400
        | None => validated
        end
    end).

(** The delete inside [prisma.$transaction]: order items, then the order. *)
Definition removeOrder (id : nat) (s : DB) : DB :=
  set_orders s (filter (fun o => negb (Nat.eqb (o_id o) id)) (db_orders s)).

(** [DELETE /api/orders/:id] *)
Definition deleteOrder (id : nat) : DB -> DB * Status :=
  runHandler (
    s <- get;;
    match findOrder id s with
    | None => ret S404
    | Some existingOrder =>
        (if OrderState_eqb (o_state existingOrder) DELIVERING
         then restoreStockForOrder id else ret tt);;;
        modify (removeOrder id);;;
        ret S200
    end).

End OrderRoutes.

(** ** Stock buckets and their intended mutation *)

Module StockEffect.
Import StockManagementService.

(** The stock columns of the database. *)
Definition stocks (s : DB) : list (nat * Z) * list (nat * Z) :=
  (map (fun v => (v_id v, v_stock v)) (db_variants s),
   map (fun p => (p_id p, p_quantity p)) (db_products s)).

(** The variant an item's stock lives in, read from the database (the value
    [itemVariantId] computes); [None] is the flat [Product.quantity] bucket. *)
Definition itemBucket (s : DB) (item : OrderItem) : option nat :=
  match storedVariantId (oi_optionDetails item) with
  | Some id => Some id
  | None =>
      match selectionsOf (oi_optionDetails item) with
      | Some ((_ :: _) as selections) =>
          resolveFrom (variantsOf (oi_productId item) s) (selectedOptionIds selections)
      | _ => None
      end
  end.

(** Add [sign * quantity] to the item's bucket. *)
Definition applyItem (sign : Z) (s : DB) (item : OrderItem) : DB :=
  match itemBucket s item with
  | Some id => addVariantStock id (sign * oi_quantity item) s
  | None => addProductQuantity (oi_productId item) (sign * oi_quantity item) s
  end.

Definition applyItems (sign : Z) (items : list OrderItem) (s : DB) : DB :=
  fold_left (applyItem sign) items s.

End StockEffect.

(** ** Product-option routes (src/unnamed/part_005) *)

Module ProductOptionRoutes.
Import StockManagementService.
Import OrderRoutes.

Definition option_nat_eqb (a b : option nat) : bool :=
  match a, b with
  | Some x, Some y => Nat.eqb x y
  | None, None => true
  | _, _ => false
  end.

(** *** PUT /api/product-options/groups/:groupId *)

(** [level: parseInt(level) || (isParentBool ? 1 : 2)]; [None] is [NaN]. *)
Definition levelNum (level : option nat) (isParent : bool) : nat :=
  match level with
  | None | Some 0 => if isParent then 1 else 2
  | Some n => n
  end.

(** [productOptionGroup.update] of the tree fields
    ([parentGroupId: parentGroupId || null], [isParent], [level]). *)
Definition updateGroupTree (groupId : nat) (parentGroupId : option nat)
    (isParent : bool) (level : nat) (s : DB) : DB :=
  set_groups s (map (fun g => if Nat.eqb (g_id g) groupId
                              then mkGroup (g_id g) (g_productId g) (g_name g) level
                                     parentGroupId isParent (g_isActive g) (g_path g) (g_options g)
                              else g) (db_groups s)).

(** The update handler (name, description, selectionType, image and
    sortOrder are written too and are not modelled). *)
Definition putGroup (groupId : nat) (parentGroupId : option nat)
    (isParent : bool) (level : option nat) : DB -> DB * Status :=
  runHandler (
    s <- get;;
    match findGroup groupId s with
    | None => ret S404
    | Some existingGroup =>
        let doUpdate :=
          modify (updateGroupTree groupId parentGroupId isParent
                    (levelNum level isParent));;;
          ret S200 in
        match parentGroupId with
        | Some p =>
            if negb (option_nat_eqb (Some p) (g_parentGroupId existingGroup)) then
              match findGroup p s with
              | None => ret S400
              | Some parentGroup =>
                  if negb (g_isParent parentGroup) then ret S400
                  (* Prevent circular references *)
                  else if Nat.eqb p groupId then ret S400
                  else doUpdate
              end
            else doUpdate
        | None => doUpdate
        end
    end).

(** *** DELETE /api/product-options/groups/:groupId *)

(** One pass of [for (const g of allGroups)] in the [while (changed)] loop;
    [toDelete.add] appends. *)
Fixpoint closurePass (allGroups : list OptionGroup) (toDelete : list nat)
    (changed : bool) : list nat * bool :=
  match allGroups with
  | [] => (toDelete, changed)
  | g :: gs =>
      match g_parentGroupId g with
      | Some p =>
          if has toDelete p && negb (has toDelete (g_id g))
          then closurePass gs (toDelete ++ [g_id g]) true
          else closurePass gs toDelete changed
      | None => closurePass gs toDelete changed
      end
  end.

(** [while (changed) { ... }]: a pass that changes something adds a new id
    of [allGroups], so [length allGroups + 1] passes reach the pass that
    changes nothing. *)
Fixpoint closureLoop (fuel : nat) (allGroups : list OptionGroup)
    (toDelete : list nat) : list nat :=
  match fuel with
  | 0 => toDelete
  | S f =>
      let (td, changed) := closurePass allGroups toDelete false in
      if changed then closureLoop f allGroups td else td
  end.

(** Stable [sort((a, b) => (b.level || 0) - (a.level || 0))]. *)
Fixpoint insertByLevelDesc (g : OptionGroup) (l : list OptionGroup) : list OptionGroup :=
  match l with
  | [] => [g]
  | h :: t => if Nat.leb (g_level g) (g_level h) then h :: insertByLevelDesc g t
              else g :: l
  end.
Definition sortByLevelDesc (l : list OptionGroup) : list OptionGroup :=
  fold_left (fun acc g => insertByLevelDesc g acc) l [].

(** [tx.productOptionGroup.delete({ where: { id } })]: the group's options go
    with it (ON DELETE CASCADE), and with them their [product_variant_options]
    rows; children get [parentGroupId = NULL] (ON DELETE SET NULL). *)
Definition deleteGroupRow (id : nat) (s : DB) : DB :=
  let dropped := match findGroup id s with
                 | Some g => map opt_id (g_options g) | None => [] end in
  mkDB (db_products s)
    (map (fun g => if option_nat_eqb (g_parentGroupId g) (Some id)
                   then mkGroup (g_id g) (g_productId g) (g_name g) (g_level g)
                          None (g_isParent g) (g_isActive g) (g_path g) (g_options g)
                   else g)
       (filter (fun g => negb (Nat.eqb (g_id g) id)) (db_groups s)))
    (map (fun v => mkVariant (v_id v) (v_productId v) (v_name v) (v_stock v)
                     (v_priceAdjustment v) (v_optionPath v) (v_optionHash v)
                     (filter (fun o => negb (has dropped o)) (v_options v)))
       (db_variants s))
    (db_orders s) (db_drivers s).

(** [tx.productVariant.deleteMany({ where: { id: { in: variantIds } } })] *)
Definition deleteVariants (ids : list nat) (s : DB) : DB :=
  set_variants s (filter (fun v => negb (has ids (v_id v))) (db_variants s)).

(** [product.update({ data: { hasOptions: false } })] *)
Definition clearHasOptions (productId : nat) (s : DB) : DB :=
  set_products s (map (fun p => if Nat.eqb (p_id p) productId
                                then mkProduct (p_id p) (p_quantity p) false else p)
                      (db_products s)).

(** [orderItem.findFirst({ where: { productVariantId: { in: variantIds } } })] *)
Definition referencedByOrders (variantIds : list nat) (s : DB) : bool :=
  existsb (fun o => existsb (fun it => match oi_productVariantId it with
                                       | Some v => has variantIds v
                                       | None => false
                                       end) (o_items o)) (db_orders s).

(** The handler. *)
Definition deleteGroup (groupId : nat) : DB -> DB * Status :=
  runHandler (
    s <- get;;
    match findGroup groupId s with
    | None => ret S404
    | Some optionGroup =>
        let productId := g_productId optionGroup in
        let allGroups := filter (fun g => Nat.eqb (g_productId g) productId)
                           (db_groups s) in
        let toDelete := closureLoop (List.length allGroups + 1) allGroups [groupId] in
        let groupsToDelete := filter (fun g => has toDelete (g_id g)) allGroups in
        let groupIds := map g_id groupsToDelete in
        let optionIds :=
          map opt_id (flat_map g_options
                        (filter (fun g => has groupIds (g_id g)) (db_groups s))) in
        let variantIds :=
          match optionIds with
          | [] => []
          | _ => map v_id (filter (fun v => Nat.eqb (v_productId v) productId
                                            && existsb (has optionIds) (v_options v))
                                  (db_variants s))
          end in
        if (match variantIds with [] => false | _ => true end)
           && referencedByOrders variantIds s
        then ret S400
        else
          (* $transaction: variants, then groups deepest level first *)
          modify (fun s0 =>
            fold_left (fun acc g => deleteGroupRow (g_id g) acc)
              (sortByLevelDesc groupsToDelete)
              (match variantIds with [] => s0 | _ => deleteVariants variantIds s0 end));;;
          s1 <- get;;
          (if Nat.eqb (List.length (filter (fun g => Nat.eqb (g_productId g) productId)
                                       (db_groups s1))) 0
           then modify (clearHasOptions productId) else ret tt);;;
          ret S200
    end).

End ProductOptionRoutes.

(** ** HierarchicalStockService (src/prisma/seed.js) *)

Module HierarchicalStockService.
Import StockManagementService.
Import ProductOptionRoutes.

(** *** Hierarchical stock tree *)

(** A tree node [{ id, type, level, stock, children }]. *)
#[warnings="-register-all"]
Inductive Node := mkNode (id : nat) (isGroup : bool) (level : nat) (stock : Z)
                         (children : list Node).

Definition n_level (n : Node) : nat := let 'mkNode _ _ l _ _ := n in l.
Definition n_stock (n : Node) : Z := let 'mkNode _ _ _ st _ := n in st.
Definition n_children (n : Node) : list Node := let 'mkNode _ _ _ _ cs := n in cs.

(** [nodes.reduce((total, n) => total + n.stock, 0)] *)
Definition sumStock (nodes : list Node) : Z :=
  fold_left (fun total n => (total + n_stock n)%Z) nodes 0%Z.

(** [calculateHierarchicalTotalStock(tree)] *)
Definition calculateHierarchicalTotalStock (tree : list Node) : Z :=
  match tree with
  | [] => 0%Z
  | _ =>
      let rootGroups := filter (fun n => Nat.eqb (n_level n) 1) tree in
      match rootGroups with
      | _ :: _ => sumStock rootGroups
      | [] => sumStock tree
      end
  end.

(** [group.level || 1] *)
Definition levelOr1 (g : OptionGroup) : nat :=
  match g_level g with 0 => 1 | l => l end.

(** [buildNode] of [buildTreeFromOptionGroups]; the JS recursion follows
    [parentGroupId] links, so [fuel] = number of groups bounds its depth on
    an acyclic tree. *)
Fixpoint buildNode (fuel : nat) (optionGroups : list OptionGroup)
    (group : OptionGroup) : Node :=
  match fuel with
  | 0 => mkNode (g_id group) true (levelOr1 group) 0%Z []
  | S f =>
      let childGroups := filter (fun g => option_nat_eqb (g_parentGroupId g)
                                            (Some (g_id group))) optionGroups in
      let childGroupNodes := map (buildNode f optionGroups) childGroups in
      let optionNodes :=
        map (fun opt => mkNode (opt_id opt) false (levelOr1 group + 1)
                          (opt_stock opt) []) (g_options group) in
      let children := childGroupNodes ++ optionNodes in
      mkNode (g_id group) true (levelOr1 group) (sumStock children) children
  end.

(** [buildTreeFromOptionGroups(optionGroups)] *)
Definition buildTreeFromOptionGroups (optionGroups : list OptionGroup) : list Node :=
  let rootGroups := filter (fun g => Nat.eqb (levelOr1 g) 1
                                     || match g_parentGroupId g with
                                        | None => true | Some _ => false end)
                      optionGroups in
  map (buildNode (List.length optionGroups) optionGroups) rootGroups.

(** *** Variant generation *)

Record Combination := mkCombination {
  c_name : string;
  c_optionIds : list nat;
  c_optionPath : string;
  c_optionHash : list nat;
  c_priceAdjustment : Q
}.

Fixpoint join (sep : string) (l : list string) : string :=
  match l with
  | [] => EmptyString
  | [x] => x
  | x :: xs => String.append x (String.append sep (join sep xs))
  end.

Fixpoint insertNat (x : nat) (l : list nat) : list nat :=
  match l with
  | [] => [x]
  | h :: t => if Nat.leb x h then x :: l else h :: insertNat x t
  end.
Definition sortIds (l : list nat) : list nat := fold_right insertNat [] l.

(** [createOptionHash(optionIds)]: the md5 digest of the sorted, joined ids
    is represented by the sorted id list itself.  This treats md5 as free of
    collisions, which the code does not check; a property that needs
    distinct hashes states it as a hypothesis. *)
Definition createOptionHash (optionIds : list nat) : list nat := sortIds optionIds.

(** [createCombinationObject(path)] ([sortOrder] is not modelled). *)
Definition createCombinationObject (path : list (OptionGroup * ProductOption)) : Combination :=
  let options := map snd path in
  mkCombination
    (join " " (map opt_name options))
    (map opt_id options)
    (join "/" (map (fun it => String.append (g_name (fst it))
                               (String.append ":" (opt_name (snd it)))) path))
    (createOptionHash (sortIds (map opt_id options)))
    (fold_left (fun sum opt => Qplus sum (match opt_priceValue opt with
                                           | Some p => p | None => 0%Q end))
       options 0%Q).

(** [groupsByLevel[level] || []] *)
Definition groupsAtLevel (groups : list OptionGroup) (level : nat) : list OptionGroup :=
  filter (fun g => Nat.eqb (g_level g) level) groups.

(** [generateCombinationsRecursive]: [fuel = maxLevel - currentLevel + 1],
    so [fuel = 0] is the [currentLevel > maxLevel] case. *)
Fixpoint generateCombinationsRecursive (groups : list OptionGroup) (fuel : nat)
    (currentLevel : nat) (currentPath : list (OptionGroup * ProductOption))
    (parentGroupId : option nat) : list Combination :=
  match fuel with
  | 0 => match currentPath with
         | [] => []
         | _ => [createCombinationObject currentPath]
         end
  | S f =>
      let currentLevelGroups :=
        filter (fun g => if Nat.eqb currentLevel 1
                         then option_nat_eqb (g_parentGroupId g) None
                         else option_nat_eqb (g_parentGroupId g) parentGroupId)
          (groupsAtLevel groups currentLevel) in
      flat_map (fun group =>
        flat_map (fun option =>
          let newPath := currentPath ++ [(group, option)] in
          let hasChildGroups :=
            existsb (fun cg => option_nat_eqb (g_parentGroupId cg) (Some (g_id group)))
              (groupsAtLevel groups (currentLevel + 1)) in
          if hasChildGroups
          then generateCombinationsRecursive groups f (currentLevel + 1) newPath
                 (Some (g_id group))
          else [createCombinationObject newPath])
          (g_options group))
        currentLevelGroups
  end.

(** [Math.max(...levels)] *)
Definition maxLevel (groups : list OptionGroup) : nat :=
  fold_left (fun m g => Nat.max m (g_level g)) groups 0.

(** [generateAllOptionCombinations(optionGroups)] *)
Definition generateAllOptionCombinations (groups : list OptionGroup) : list Combination :=
  match groups with
  | [] => []
  | _ => generateCombinationsRecursive groups (maxLevel groups) 1 [] None
  end.

(** The product's [optionGroups] include: active groups with their available
    options (the table rows are taken in the query's [level, sortOrder] order). *)
Definition productOptionGroups (productId : nat) (s : DB) : list OptionGroup :=
  map (fun g => mkGroup (g_id g) (g_productId g) (g_name g) (g_level g)
                  (g_parentGroupId g) (g_isParent g) (g_isActive g) (g_path g)
                  (filter opt_isAvailable (g_options g)))
    (filter (fun g => Nat.eqb (g_productId g) productId && g_isActive g) (db_groups s)).

Inductive Action := Created | Updated | Skipped.

Fixpoint hash_eqb (a b : list nat) : bool :=
  match a, b with
  | [], [] => true
  | x :: a', y :: b' => Nat.eqb x y && hash_eqb a' b'
  | _, _ => false
  end.

(** The key [productId_optionHash] of [productVariant.findUnique]. *)
Definition byHash (productId : nat) (optionHash : list nat) (v : Variant) : bool :=
  Nat.eqb (v_productId v) productId
  && match v_optionHash v with
     | Some h => hash_eqb h optionHash
     | None => false
     end.

(** [Math.abs(a - b) > 0.01] *)
Definition priceDrifted (a b : Q) : bool := negb (Qle_bool (Qabs (a - b)) (1 # 100)).

(** The unique index [(productId, name)] of [product_variants]. *)
Definition nameTaken (productId : nat) (name : string) (except : option nat)
    (s : DB) : bool :=
  existsb (fun v => Nat.eqb (v_productId v) productId && String.eqb (v_name v) name
                    && negb (option_nat_eqb (Some (v_id v)) except)) (db_variants s).

Definition freshVariantId (s : DB) : nat :=
  S (fold_left (fun m v => Nat.max m (v_id v)) (db_variants s) 0).

(** [const needsUpdate = ...] *)
Definition needsUpdate (existing : Variant) (c : Combination) : bool :=
  negb (String.eqb (v_name existing) (c_name c))
  || negb (String.eqb (v_optionPath existing) (c_optionPath c))
  || priceDrifted (v_priceAdjustment existing) (c_priceAdjustment c).

(** [productVariant.update({ where: { id }, data: { name, optionPath,
    priceAdjustment, sortOrder } })] applied to one row. *)
Definition updateVariantRow (id : nat) (c : Combination) (v : Variant) : Variant :=
  if Nat.eqb (v_id v) id
  then mkVariant (v_id v) (v_productId v) (c_name c) (v_stock v)
         (c_priceAdjustment c) (c_optionPath c) (v_optionHash v) (v_options v)
  else v.

(** The row written by [tx.productVariant.create] ([stock: 0]) with the
    option ids of its [productVariantOption] rows. *)
Definition newVariantRow (id productId : nat) (c : Combination) : Variant :=
  mkVariant id productId (c_name c) 0%Z (c_priceAdjustment c)
    (c_optionPath c) (Some (c_optionHash c)) (c_optionIds c).

(** [createOrUpdateVariant(product, combination)] *)
Definition createOrUpdateVariant (productId : nat) (c : Combination) : M (Action * nat) :=
  s <- get;;
  match find (byHash productId (c_optionHash c)) (db_variants s) with
  | Some existing =>
      if needsUpdate existing c then
        if nameTaken productId (c_name c) (Some (v_id existing)) s then throw ErrUnique
        else modify (fun s0 => set_variants s0
                        (map (updateVariantRow (v_id existing) c) (db_variants s0)));;;
             ret (Updated, v_id existing)
      else ret (Skipped, v_id existing)
  | None =>
      (* the $transaction creating the variant and its option rows *)
      if nameTaken productId (c_name c) None s then throw ErrUnique
      else
        let id := freshVariantId s in
        modify (fun s0 => set_variants s0 (db_variants s0 ++ [newVariantRow id productId c]));;;
        ret (Created, id)
  end.

Record GenResults := mkResults {
  created : list nat; updated : list nat; skipped : list nat; errors : list string
}.

Inductive GenOutcome :=
| NoCombinations                 (* "No valid option combinations found" *)
| Results (r : GenResults)
| NeverReturns                   (* [updateOptionGroupPaths] does not return *).

Definition pushResult (r : GenResults) (a : Action) (id : nat) : GenResults :=
  match a with
  | Created => mkResults (created r ++ [id]) (updated r) (skipped r) (errors r)
  | Updated => mkResults (created r) (updated r ++ [id]) (skipped r) (errors r)
  | Skipped => mkResults (created r) (updated r) (skipped r ++ [id]) (errors r)
  end.

(** The [for (const combination of allCombinations) try { ... } catch] loop. *)
Fixpoint processCombinations (productId : nat) (cs : list Combination)
    (r : GenResults) : M GenResults :=
  match cs with
  | [] => ret r
  | c :: cs' =>
      fun s =>
        match createOrUpdateVariant productId c s with
        | (s', Ok (a, id)) => processCombinations productId cs' (pushResult r a id) s'
        | (s', Fail _) =>
            processCombinations productId cs'
              (mkResults (created r) (updated r) (skipped r) (errors r ++ [c_name c])) s'
        end
  end.

(** The [while (currentGroup.parentGroupId)] loop of [buildGroupPath]: at most
    [fuel] iterations; [None] when the loop has not exited within them. *)
Fixpoint groupPathLoop (fuel : nat) (allGroups : list OptionGroup)
    (currentGroup : OptionGroup) (path : list string) : option (list string) :=
  match fuel with
  | 0 => None
  | S f =>
      match g_parentGroupId currentGroup with
      | None => Some path
      | Some parentId =>
          match find (fun g => Nat.eqb (g_id g) parentId) allGroups with
          | Some parentGroup =>
              groupPathLoop f allGroups parentGroup (g_name parentGroup :: path)
          | None => Some path   (* break *)
          end
      end
  end.

(** [buildGroupPath(group, allGroups)], run with a bound of [fuel] loop
    iterations. *)
Definition buildGroupPath (fuel : nat) (group : OptionGroup)
    (allGroups : list OptionGroup) : option string :=
  option_map (join "/") (groupPathLoop fuel allGroups group [g_name group]).

(** One more iteration than there are groups: within this bound the
    [while] loop of [buildGroupPath] exits, or it never exits (the walk has
    then met a group twice; see [groupPathLoop_decided]). *)
Definition walkBound (allGroups : list OptionGroup) : nat := S (List.length allGroups).

(** [orderBy: { level: "asc" }]: the rows in level order, rows of one level
    in table order (a stable insertion sort). *)
Fixpoint insertByLevel (g : OptionGroup) (l : list OptionGroup) : list OptionGroup :=
  match l with
  | [] => [g]
  | h :: t => if Nat.leb (g_level g) (g_level h) then g :: l else h :: insertByLevel g t
  end.
Definition sortByLevel (l : list OptionGroup) : list OptionGroup :=
  fold_right insertByLevel [] l.

Definition with_path (g : OptionGroup) (path : string) : OptionGroup :=
  mkGroup (g_id g) (g_productId g) (g_name g) (g_level g) (g_parentGroupId g)
    (g_isParent g) (g_isActive g) (Some path) (g_options g).

(** [productOptionGroup.update({ where: { id }, data: { path } })] *)
Definition setGroupPath (groupId : nat) (path : string) (s : DB) : DB :=
  set_groups s (map (fun g => if Nat.eqb (g_id g) groupId then with_path g path else g)
                  (db_groups s)).

(** [group.path !== path] ([path] is a nullable column). *)
Definition pathDiffers (current : option string) (path : string) : bool :=
  match current with
  | Some p => negb (String.eqb p path)
  | None => true
  end.

(** The [for (const group of optionGroups)] loop of [updateOptionGroupPaths]
    over the rows it read; [false] when the [while] loop of [buildGroupPath]
    never exits for a group, so that the call never returns. *)
Fixpoint writeGroupPaths (allGroups groups : list OptionGroup) : M bool :=
  match groups with
  | [] => ret true
  | group :: rest =>
      match buildGroupPath (walkBound allGroups) group allGroups with
      | None => ret false
      | Some path =>
          (if pathDiffers (g_path group) path
           then modify (setGroupPath (g_id group) path) else ret tt);;;
          writeGroupPaths allGroups rest
      end
  end.

(** [updateOptionGroupPaths(productId)]: every group of the product (active
    or not) in level order; the [catch] swallows database errors, which are
    not modelled. *)
Definition updateOptionGroupPaths (productId : nat) : M bool :=
  s <- get;;
  let optionGroups :=
    sortByLevel (filter (fun g => Nat.eqb (g_productId g) productId) (db_groups s)) in
  writeGroupPaths optionGroups optionGroups.

(** [generateVariantsForProduct(productId)] *)
Definition generateVariantsForProduct (productId : nat) : M GenOutcome :=
  s <- get;;
  match findProduct productId s with
  | None => throw ErrNotFound
  | Some _ =>
      match generateAllOptionCombinations (productOptionGroups productId s) with
      | [] => ret NoCombinations
      | allCombinations =>
          r <- processCombinations productId allCombinations (mkResults [] [] [] []);;
          finished <- updateOptionGroupPaths productId;;
          ret (if finished then Results r else NeverReturns)
      end
  end.

End HierarchicalStockService.

(** ** Vocabulary of the properties *)

Module SpecTerms.
Import StockManagementService.
Import HierarchicalStockService.

(** Set equality and inclusion of option-id lists, and the size of the set
    a list denotes. *)
Definition setEq (a b : list nat) : Prop := forall x, In x a <-> In x b.
Definition subsetOf (a b : list nat) : Prop := forall x, In x a -> In x b.
Definition size (a : list nat) : nat := List.length (toSet a).

(** The option ids an item's stored selection names ([] when it has none). *)
Definition itemSelection (item : OrderItem) : list nat :=
  match selectionsOf (oi_optionDetails item) with
  | Some gs => selectedOptionIds gs
  | None => []
  end.

(** The columns of a variant that generation never rewrites. *)
Definition vkey (v : Variant) : nat * nat * Z * option (list nat) * list nat :=
  (v_id v, v_productId v, v_stock v, v_optionHash v, v_options v).

(** A combination is settled in a database when the variant found by its
    hash already carries its name, path and (within 0.01) its price. *)
Definition settled (productId : nat) (c : Combination) (s : DB) : Prop :=
  exists v, find (byHash productId (c_optionHash c)) (db_variants s) = Some v /\
            v_name v = c_name c /\ v_optionPath v = c_optionPath c /\
            priceDrifted (v_priceAdjustment v) (c_priceAdjustment c) = false.

(** An option-group row without its [path] column. *)
Definition erasePath (g : OptionGroup) : OptionGroup :=
  mkGroup (g_id g) (g_productId g) (g_name g) (g_level g) (g_parentGroupId g)
    (g_isParent g) (g_isActive g) None (g_options g).

(** The row the [while] loop of [buildGroupPath] moves to from [g]: its
    parent, when it has one and the parent is found. *)
Definition parentRow (allGroups : list OptionGroup) (g : OptionGroup) : option OptionGroup :=
  match g_parentGroupId g with
  | Some parentId => find (fun h => Nat.eqb (g_id h) parentId) allGroups
  | None => None
  end.

(** The row that loop reaches after [n] iterations; [None] when it has
    exited before. *)
Fixpoint walkFrom (allGroups : list OptionGroup) (n : nat) (g : OptionGroup)
    : option OptionGroup :=
  match n with
  | 0 => Some g
  | S k => match parentRow allGroups g with
           | Some p => walkFrom allGroups k p
           | None => None
           end
  end.

End SpecTerms.

(** ** Sample databases *)

Module Samples.
Import StockManagementService.
Import HierarchicalStockService.

Definition opt (id : nat) (name : string) (stock : Z) : ProductOption :=
  mkOption id name None true stock 0.

(** Variants V1 = {1,2} and V2 = {1} of product 1. *)
Definition V1 : Variant := mkVariant 10 1 "S Red"%string 5 0 EmptyString None [1; 2].
Definition V2 : Variant := mkVariant 20 1 "S"%string 5 0 EmptyString None [1].
Definition dbC1 : DB := mkDB [mkProduct 1 0 true] [] [V1; V2] [] [].

(** A PLACED order of two units of product 1, which has five. *)
Definition itemC2 : OrderItem := mkItem 1 2 ODNull None.
Definition orderC2 : Order := mkOrder 1 PLACED None [itemC2].
Definition dbC2 : DB := mkDB [mkProduct 1 5 false] [] [] [orderC2] [7].

(** A PLACED order whose second item asks more than its product holds. *)
Definition orderC3 : Order :=
  mkOrder 1 PLACED None [mkItem 1 1 ODNull None; mkItem 2 5 ODNull None].
Definition dbC3 : DB := mkDB [mkProduct 1 5 false; mkProduct 2 1 false] [] [] [orderC3] [].

(** An item whose stored [variantId] 7 no longer exists, of a product with
    no variants. *)
Definition itemC4 : OrderItem :=
  mkItem 100 2 (ODObject (Some 7) (Some [mkSel (Some [Some 1])])) None.
Definition dbC4 : DB := mkDB [mkProduct 100 10 true] [] [] [] [].

(** An item with no stored [variantId], selecting option 1; the product's
    only variant is built from option 2. *)
Definition itemC4b : OrderItem :=
  mkItem 100 2 (ODObject None (Some [mkSel (Some [Some 1])])) None.
Definition dbC4b : DB :=
  mkDB [mkProduct 100 10 true] []
    [mkVariant 5 100 "Blue"%string 3 0 EmptyString None [2]] [] [].

(** A parent group (option 11) with a child group (option 21), the variant 7
    built from both, and a DELIVERING order whose item was written by the
    order-creation route ([optionDetails = { variantId, selections }]). *)
Definition gSize : OptionGroup :=
  mkGroup 1 100 "Size"%string 1 None true true None [opt 11 "S"%string 0].
Definition gColor : OptionGroup :=
  mkGroup 2 100 "Color"%string 2 (Some 1) false true None [opt 21 "Red"%string 0].
Definition itemC6 : OrderItem :=
  mkItem 100 1 (ODObject (Some 7) (Some [mkSel (Some [Some 11]); mkSel (Some [Some 21])]))
    None.
Definition dbC6 : DB :=
  mkDB [mkProduct 100 0 true] [gSize; gColor]
    [mkVariant 7 100 "S Red"%string 4 0 EmptyString None [11; 21]]
    [mkOrder 1 DELIVERING (Some 3) [itemC6]] [3].

(** Parent groups A (root) and B (child of A). *)
Definition gA : OptionGroup := mkGroup 1 100 "A"%string 1 None true true None [].
Definition gB : OptionGroup := mkGroup 2 100 "B"%string 2 (Some 1) true true None [].
Definition dbC7 : DB := mkDB [mkProduct 100 0 true] [gA; gB] [] [] [].

(** Two root groups each offering an option named "Red". *)
Definition dbC8 : DB :=
  mkDB [mkProduct 100 0 true]
    [mkGroup 1 100 "Color"%string 1 None false true None [opt 11 "Red"%string 0];
     mkGroup 2 100 "Trim"%string 1 None false true None [opt 12 "Red"%string 0]]
    [] [] [].

(** One root group with two options, one of them already a variant. *)
Definition dbC8b : DB :=
  mkDB [mkProduct 100 0 true]
    [mkGroup 1 100 "Color"%string 1 None false true None
       [opt 11 "Red"%string 0; opt 12 "Blue"%string 0]]
    [mkVariant 4 100 "Red"%string 9 0 "Color:Red"%string (Some [11]) [11]] [] [].

(** A level-1 group whose two level-2 children hold 20 + 5 and 25. *)
Definition groupsC9 : list OptionGroup :=
  [mkGroup 1 100 "Size"%string 1 None true true None [];
   mkGroup 2 100 "Red"%string 2 (Some 1) false true None
     [opt 21 "S"%string 20; opt 22 "M"%string 5];
   mkGroup 3 100 "Blue"%string 2 (Some 1) false true None [opt 31 "S"%string 25]].

End Samples.

(** ** Further methods of HierarchicalStockService (src/prisma/seed.js) *)

Module StockQueries.
Import StockManagementService.
Import OrderRoutes.
Import HierarchicalStockService.

(** [calculateTotalStock(variants)] *)
Definition calculateTotalStock (variants : list Variant) : Z :=
  fold_left (fun total v => (total + v_stock v)%Z) variants 0%Z.

(** [pathSorted.every(optionId => variantOptionIds.includes(optionId))]; the
    [.sort()] calls change neither membership nor length. *)
Definition containsPath (optionPath : list nat) (v : Variant) : bool :=
  forallb (fun optionId => has (v_options v) optionId) optionPath.

(** [getStockForPath(variants, optionPath)] *)
Definition getStockForPath (variants : list Variant) (optionPath : list nat) : Z :=
  fold_left (fun total v => (total + v_stock v)%Z)
    (filter (containsPath optionPath) variants) 0%Z.

(** The filter of [getStockAndVariantForPath]:
    [variantOptionIds.length === pathSorted.length && pathSorted.every(...)]. *)
Definition exactPath (optionPath : list nat) (v : Variant) : bool :=
  Nat.eqb (List.length (v_options v)) (List.length optionPath)
  && containsPath optionPath v.

(** [getStockAndVariantForPath(variants, optionPath)]: [{ stock, variantId }]. *)
Definition getStockAndVariantForPath (variants : list Variant) (optionPath : list nat)
    : Z * option nat :=
  match filter (exactPath optionPath) variants with
  | [] => (0%Z, None)
  | [v] => (v_stock v, Some (v_id v))
  | matchingVariants =>
      (fold_left (fun total v => (total + v_stock v)%Z) matchingVariants 0%Z, None)
  end.

(** The [{ id, name, stock }] entries of the summary lists. *)
Definition brief (v : Variant) : nat * string * Z := (v_id v, v_name v, v_stock v).

Record StockSummary := mkSummary {
  totalVariants : nat;
  totalStock : Z;
  lowStockCount : nat;
  outOfStockCount : nat;
  lowStockVariants : list (nat * string * Z);
  outOfStockVariants : list (nat * string * Z)
}.

(** [getStockSummary(productId)] *)
Definition getStockSummary (productId : nat) : M StockSummary :=
  s <- get;;
  let variants := variantsOf productId s in
  let totalStock := fold_left (fun sum v => (sum + v_stock v)%Z) variants 0%Z in
  let lowStockVariants := filter (fun v => (v_stock v <=? 10)%Z) variants in
  let outOfStockVariants := filter (fun v => (v_stock v =? 0)%Z) variants in
  ret (mkSummary (List.length variants) totalStock
         (List.length lowStockVariants) (List.length outOfStockVariants)
         (map brief lowStockVariants) (map brief outOfStockVariants)).

(** [path.reduce((sum, item, index) =>
       sum + (item.option.sortOrder || 0) * Math.pow(100, path.length - index - 1), 0)] *)
Fixpoint sortOrderSum (len index : nat) (path : list (OptionGroup * ProductOption))
    (sum : nat) : nat :=
  match path with
  | [] => sum
  | item :: rest =>
      sortOrderSum len (S index) rest
        (sum + opt_sortOrder (snd item) * 100 ^ (len - index - 1))
  end.

(** [calculateSortOrder(path)] *)
Definition calculateSortOrder (path : list (OptionGroup * ProductOption)) : nat :=
  sortOrderSum (List.length path) 0 path 0.

(** [productVariant.update({ where: { id }, data: { stock } })] *)
Definition setVariantStock (variantId : nat) (stock : Z) (s : DB) : DB :=
  set_variants s (map (fun v => if Nat.eqb (v_id v) variantId
                                then with_stock v stock else v) (db_variants s)).

(** The largest value of an [INTEGER] (int4) column such as [stock]. *)
Definition int4Max : Z := 2147483647.

(** [updateVariantStock(variantId, newStock)]: updating a missing row
    throws, and so does a stock that does not fit the int4 [stock] column;
    [newStock] is the integer [parseInt] reads. *)
Definition updateVariantStock (variantId : nat) (newStock : Z) : M Variant :=
  s <- get;;
  match findVariant variantId s with
  | None => throw ErrNotFound
  | Some variant =>
      if (int4Max <? newStock)%Z then throw ErrOutOfRange
      else
        modify (setVariantStock variantId newStock);;;
        ret (with_stock variant newStock)
  end.

(** [PUT /api/products/variants/:variantId/stock] (src/unnamed/part_005):
    [stock] is [None] when the body's [stock] is not an integer. *)
Definition putVariantStock (variantId : nat) (stock : option Z) : DB -> DB * Status :=
  runHandler (
    match stock with
    | Some n =>
        (* body("stock").isInt({ min: 0 }) *)
        if (0 <=? n)%Z then
          _ <- updateVariantStock variantId n;;
          ret S200
        else ret S400
    | None => ret S400
    end).

End StockQueries.

(** ** Product-option creation and option deletion (src/unnamed/part_005) *)

Module CatalogRoutes.
Import StockManagementService.
Import OrderRoutes.
Import ProductOptionRoutes.

(** The answers of the creation routes: [201] or one of the other statuses. *)
Inductive Reply := R201 | R (st : Status).

(** An Express handler answering [201] on success. *)
Definition runCreate (m : M Reply) (s : DB) : DB * Reply :=
  match m s with
  | (s', Ok r) => (s', r)
  | (s', Fail _) => (s', R S500)
  end.

(** The id Prisma generates for a new option group (a fresh cuid). *)
Definition freshGroupId (s : DB) : nat :=
  S (fold_left (fun m g => Nat.max m (g_id g)) (db_groups s) 0).

(** [product.update({ data: { hasOptions: true } })] *)
Definition setHasOptions (productId : nat) (s : DB) : DB :=
  set_products s (map (fun p => if Nat.eqb (p_id p) productId
                                then mkProduct (p_id p) (p_quantity p) true else p)
                      (db_products s)).

(** The row written by [productOptionGroup.create] ([isActive] defaults to
    true; the new group has no options yet). *)
Definition newGroupRow (id productId : nat) (name : string) (parentGroupId : option nat)
    (isParent : bool) (level : nat) : OptionGroup :=
  mkGroup id productId name level parentGroupId isParent true None [].

(** [body("level").optional().isInt({ min: 1, max: 5 })] sees the [level]
    field absent, as an integer, or as anything else. *)
Inductive LevelField := LevelAbsent | LevelInt (n : Z) | LevelOther.

(** The body fields the create handler reads.  [gb_name] and
    [gb_description] are the strings received, before the [trim()]
    sanitizer; [gb_otherFieldsValid] says whether the present ones among
    [imageUrl] ([isURL]), [isRequired] and [isParent] ([isBoolean]),
    [sortOrder] ([isInt], min 0) and [parentGroupId] ([isString]) pass their
    checks; [gb_parentGroupId] and [gb_isParent] are the values the handler
    uses ([parentGroupId || null], [isParent === "true" || isParent === true]). *)
Record GroupBody := mkGroupBody {
  gb_name : string;
  gb_description : option string;
  gb_selectionType : string;
  gb_parentGroupId : option nat;
  gb_isParent : bool;
  gb_level : LevelField;
  gb_otherFieldsValid : bool
}.

(** The characters the [trim()] sanitizer removes, on ASCII strings: tab,
    line feed, vertical tab, form feed, carriage return and space. *)
Definition isSpace (c : Ascii.ascii) : bool :=
  let n := Ascii.nat_of_ascii c in Nat.eqb n 32 || (Nat.leb 9 n && Nat.leb n 13).

Fixpoint dropSpaces (l : list Ascii.ascii) : list Ascii.ascii :=
  match l with
  | [] => []
  | c :: r => if isSpace c then dropSpaces r else l
  end.

(** express-validator's [trim()] *)
Definition trim (s : string) : string :=
  string_of_list_ascii (rev (dropSpaces (rev (dropSpaces (list_ascii_of_string s))))).

(** [optionGroupValidation]: [validationResult(req).isEmpty()]. *)
Definition groupBodyValid (b : GroupBody) : bool :=
  let n := String.length (trim (gb_name b)) in
  Nat.leb 1 n && Nat.leb n 100
  && match gb_description b with
     | Some d => Nat.leb (String.length (trim d)) 500
     | None => true
     end
  && (String.eqb (gb_selectionType b) "SINGLE"%string
      || String.eqb (gb_selectionType b) "MULTIPLE"%string)
  && match gb_level b with
     | LevelAbsent => true
     | LevelInt n => (1 <=? n)%Z && (n <=? 5)%Z
     | LevelOther => false
     end
  && gb_otherFieldsValid b.

(** [parseInt(level)] of a level that passed validation; [None] is [NaN]. *)
Definition levelValue (l : LevelField) : option nat :=
  match l with
  | LevelInt n => Some (Z.to_nat n)
  | _ => None
  end.

(** [POST /api/product-options/:productId/groups]: the caller holds the
    create-products permission and sends no image file (the upload and its
    500 are not modelled); description, selectionType, isRequired and
    sortOrder are written too and are not modelled. *)
Definition createGroup (productId : nat) (body : GroupBody) : DB -> DB * Reply :=
  runCreate (
    if negb (groupBodyValid body) then ret (R S400)
    else (
    s <- get;;
    match findProduct productId s with
    | None => ret (R S404)
    | Some _ =>
        let parentGroupId := gb_parentGroupId body in
        let isParent := gb_isParent body in
        let levelN := levelNum (levelValue (gb_level body)) isParent in
        let create :=
          modify (fun s0 => set_groups s0
                    (db_groups s0 ++ [newGroupRow (freshGroupId s0) productId
                                        (trim (gb_name body)) parentGroupId isParent levelN]));;;
          modify (setHasOptions productId);;;
          ret R201 in
        match parentGroupId with
        | Some p =>
            match findGroup p s with
            | None => ret (R S400)
            | Some parentGroup =>
                if negb (g_isParent parentGroup) then ret (R S400) else create
            end
        | None => create
        end
    end)).

(** [productOption.findUnique({ where: { id }, include: { optionGroup: true } })]:
    the group holding the option. *)
Definition findOptionGroup (optionId : nat) (s : DB) : option OptionGroup :=
  find (fun g => has (map opt_id (g_options g)) optionId) (db_groups s).

(** [tx.productOption.delete({ where: { id } })]: its
    [product_variant_options] rows go with it (ON DELETE CASCADE). *)
Definition deleteOptionRow (optionId : nat) (s : DB) : DB :=
  mkDB (db_products s)
    (map (fun g => mkGroup (g_id g) (g_productId g) (g_name g) (g_level g)
                     (g_parentGroupId g) (g_isParent g) (g_isActive g) (g_path g)
                     (filter (fun o => negb (Nat.eqb (opt_id o) optionId)) (g_options g)))
       (db_groups s))
    (map (fun v => mkVariant (v_id v) (v_productId v) (v_name v) (v_stock v)
                     (v_priceAdjustment v) (v_optionPath v) (v_optionHash v)
                     (filter (fun o => negb (Nat.eqb o optionId)) (v_options v)))
       (db_variants s))
    (db_orders s) (db_drivers s).

(** [DELETE /api/product-options/options/:optionId] *)
Definition deleteOption (optionId : nat) : DB -> DB * Status :=
  runHandler (
    s <- get;;
    match findOptionGroup optionId s with
    | None => ret S404
    | Some optionGroup =>
        let productId := g_productId optionGroup in
        let variantIds :=
          map v_id (filter (fun v => Nat.eqb (v_productId v) productId
                                     && has (v_options v) optionId)
                      (db_variants s)) in
        if (match variantIds with [] => false | _ => true end)
           && referencedByOrders variantIds s
        then ret S400
        else
          (* $transaction: variants first, then the option *)
          modify (fun s0 => deleteOptionRow optionId
                    (match variantIds with [] => s0 | _ => deleteVariants variantIds s0 end));;;
          ret S200
    end).

End CatalogRoutes.

(** ** Order creation and order edit (src/routes/blacklist-phones.js) *)

Module OrderWriteRoutes.
Import StockManagementService.
Import OrderRoutes.
Import CatalogRoutes.

(** One entry of the [products] payload after conversion: [productId], the
    parsed [quantity], and [optionDetails] (an absent or [null] payload is
    the empty array: both are falsy or empty wherever the routes test it).
    The price and weight fields and their checks are not modelled. *)
Record OrderLine := mkLine {
  l_productId : nat;
  l_quantity : Z;
  l_optionDetails : list SelGroup
}.

Definition nonEmpty {A} (l : list A) : bool :=
  match l with [] => false | _ => true end.

(** [quantity] check of the validation loop. *)
Definition quantitiesOk (products : list OrderLine) : bool :=
  forallb (fun l => negb (l_quantity l <? 1)%Z) products.

(** [if (driverId) { ... if (!driver) return 400 }] *)
Definition driverOk (driverId : option nat) (s : DB) : bool :=
  match driverId with
  | Some d => has (db_drivers s) d
  | None => true
  end.

(** [productMap.get(product.productId)] exists for every line.  The
    [findMany] reads only rows with [isActive: true]; [Product] has no
    [isActive] column here, so the model covers databases whose products
    are all active. *)
Definition productsExist (products : list OrderLine) (s : DB) : bool :=
  forallb (fun l => match findProduct (l_productId l) s with
                    | Some _ => true | None => false end) products.

(** [variantsByProduct.get(productId) || []]: the product's variants, fetched
    only for products with [hasOptions] and a line with a non-empty
    [optionDetails].  The [findMany] reads only rows with [isActive: true];
    [Variant] has no [isActive] column here, so the model covers databases
    whose variants are all active. *)
Definition variantsByProduct (products : list OrderLine) (s : DB) (productId : nat)
    : list Variant :=
  if existsb (fun l => Nat.eqb (l_productId l) productId
                       && match findProduct (l_productId l) s with
                          | Some p => p_hasOptions p | None => false end
                       && nonEmpty (l_optionDetails l)) products
  then variantsOf productId s else [].

(** The exact-match loop of the creation stock check (returns the variant). *)
Fixpoint exactMatch (desired : list nat) (variants : list Variant) : option Variant :=
  match variants with
  | [] => None
  | v :: vs => if isExact desired v then Some v else exactMatch desired vs
  end.

(** Its largest-subset fallback. *)
Fixpoint subsetMatch (desired : list nat) (variants : list Variant)
    (matchedVariant : option Variant) (bestSize : Z) : option Variant :=
  match variants with
  | [] => matchedVariant
  | v :: vs =>
      if isSubset desired v && (bestSize <? Z.of_nat (List.length (voSet v)))%Z
      then subsetMatch desired vs (Some v) (Z.of_nat (List.length (voSet v)))
      else subsetMatch desired vs matchedVariant bestSize
  end.

(** [matchedVariant] of the creation stock check; unlike [resolveVariantId]
    it has no guard for an empty selection. *)
Definition matchVariant (variants : list Variant) (selectedOptionIds : list nat)
    : option Variant :=
  let desired := toSet selectedOptionIds in
  match exactMatch desired variants with
  | Some v => Some v
  | None => subsetMatch desired variants None (-1)%Z
  end.

(** The stock check of one line of [POST /api/orders] ([true] = passes). *)
Definition lineStockOk (byProduct : nat -> list Variant) (line : OrderLine)
    (product : Product) : bool :=
  if p_hasOptions product && nonEmpty (l_optionDetails line) then
    match byProduct (l_productId line) with
    | [] => true   (* no variants: the check is skipped *)
    | variants =>
        match matchVariant variants (selectedOptionIds (l_optionDetails line)) with
        | Some matchedVariant => negb (v_stock matchedVariant <? l_quantity line)%Z
        | None => true
        end
    end
  else negb (p_quantity product <? l_quantity line)%Z.

Definition stockOk (products : list OrderLine) (s : DB) : bool :=
  forallb (fun l => match findProduct (l_productId l) s with
                    | Some p => lineStockOk (variantsByProduct products s) l p
                    | None => true
                    end) products.

(** The order item built for a line: the inline [resolveVariantId] of the
    creation transaction is the algorithm of [resolveFrom], run on the
    prefetched [variantsByProduct]. *)
Definition createdItem (byProduct : nat -> list Variant) (line : OrderLine) : OrderItem :=
  mkItem (l_productId line) (l_quantity line)
    (match l_optionDetails line with
     | [] => ODNull
     | details =>
         ODObject (resolveFrom (byProduct (l_productId line))
                     (selectedOptionIds details)) (Some details)
     end)
    None.

(** [tx.order.create] with a given id: an existing id is a unique-constraint
    violation (P2002) and the transaction writes nothing. *)
Definition insertOrder (o : Order) : M unit :=
  s <- get;;
  match findOrder (o_id o) s with
  | Some _ => throw ErrUnique
  | None => modify (fun s0 => set_orders s0 (db_orders s0 ++ [o]))
  end.

(** [createOrderWithRetry(maxRetries = 3)]: [gen attempt] is the id
    [generateCustomOrderId] draws at that attempt. *)
Fixpoint createOrderWithRetry (gen : nat -> nat) (attempt remaining : nat)
    (mk : nat -> Order) : M unit :=
  match remaining with
  | 0 => throw ErrUnique   (* "Failed to create order after maximum retries" *)
  | S r =>
      fun s =>
        match insertOrder (mk (gen attempt)) s with
        | (s', Ok u) => (s', Ok u)
        | (s', Fail e) =>
            if Nat.ltb attempt 3 then createOrderWithRetry gen (S attempt) r mk s'
            else (s', Fail e)
        end
  end.

(** [POST /api/orders] *)
Definition createOrder (gen : nat -> nat) (state : OrderState) (driverId : option nat)
    (products : list OrderLine) : DB -> DB * Reply :=
  runCreate (
    s <- get;;
    if negb (quantitiesOk products) then ret (R S400)
    else if negb (driverOk driverId s) then ret (R S400)
    else if negb (productsExist products s) then ret (R S400)
    else if negb (stockOk products s) then ret (R S400)
    else
      let items := map (createdItem (variantsByProduct products s)) products in
      (* Stock is NOT deducted here *)
      createOrderWithRetry gen 1 3 (fun id => mkOrder id state driverId items);;;
      ret R201).

(** The inline [resolveVariantId] of the edit transaction: exact matches
    only, comparing the raw [variantOptions.length] with [desired.size]. *)
Definition editResolve (variants : list Variant) (optionIds : list nat) : option nat :=
  match optionIds with
  | [] => None
  | _ =>
      let desired := toSet optionIds in
      match find (fun v => Nat.eqb (List.length (v_options v)) (List.length desired)
                           && forallb (has (voSet v)) desired) variants with
      | Some v => Some (v_id v)
      | None => None
      end
  end.

(** The order item the edit transaction creates for a line. *)
Definition editedItem (s : DB) (line : OrderLine) : OrderItem :=
  mkItem (l_productId line) (l_quantity line)
    (match l_optionDetails line with
     | [] => ODNull
     | details =>
         ODObject (editResolve (variantsOf (l_productId line) s)
                     (selectedOptionIds details)) (Some details)
     end)
    None.

(** The edit transaction: the order's items are replaced and its [state] and
    [driverId] written. *)
Definition replaceOrder (id : nat) (st : OrderState) (driverId : option nat)
    (products : list OrderLine) (s : DB) : DB :=
  set_orders s (map (fun o => if Nat.eqb (o_id o) id
                              then mkOrder (o_id o) st driverId
                                     (map (editedItem s) products)
                              else o) (db_orders s)).

(** [PUT /api/orders/:id]: [state] is [None] when the body has none
    ([state = "PLACED"]). *)
Definition editOrder (id : nat) (state : option OrderState) (driverId : option nat)
    (products : list OrderLine) : DB -> DB * Status :=
  runHandler (
    s <- get;;
    let newState := match state with Some st => st | None => PLACED end in
    if negb (quantitiesOk products) then ret S400
    else
      match findOrder id s with
      | None => ret S404
      | Some existingOrder =>
          if negb (driverOk driverId s) then ret S400
          else if negb (productsExist products s) then ret S400
          else
            modify (replaceOrder id newState driverId products);;;
            stockOnEdge (o_state existingOrder) newState id;;;
            ret S200
      end).

End OrderWriteRoutes.

(** ** Terms used to state properties of the stock queries *)

Module QueryTerms.
Import StockManagementService.
Import HierarchicalStockService.

(** The sum of the variants' stocks. *)
Definition sumStocks (l : list Variant) : Z :=
  fold_left (fun total v => (total + v_stock v)%Z) l 0%Z.

(** The options' sort orders along a path. *)
Definition sortDigits (path : list (OptionGroup * ProductOption)) : list nat :=
  map (fun item => opt_sortOrder (snd item)) path.

(** The number whose base-100 digits are [ds], most significant first. *)
Fixpoint base100 (ds : list nat) : nat :=
  match ds with
  | [] => 0
  | d :: r => d * 100 ^ List.length r + base100 r
  end.

(** Strict lexicographic order. *)
Fixpoint lexLt (a b : list nat) : Prop :=
  match a, b with
  | x :: a', y :: b' => x < y \/ (x = y /\ lexLt a' b')
  | _, _ => False
  end.

End QueryTerms.

(** ** Sample databases for the further routes *)

Module ExtraSamples.
Import StockManagementService.
Import OrderRoutes.
Import OrderWriteRoutes.

(** Two options of sort orders 3 then 7, and 3 then 9. *)
Definition pathLow : list (OptionGroup * ProductOption) :=
  [(Samples.gA, mkOption 1 "a"%string None true 0 3);
   (Samples.gB, mkOption 2 "b"%string None true 0 7)].
Definition pathHigh : list (OptionGroup * ProductOption) :=
  [(Samples.gA, mkOption 1 "a"%string None true 0 3);
   (Samples.gB, mkOption 3 "c"%string None true 0 9)].

(** Parent groups A and B, each the other's parent. *)
Definition gCycA : OptionGroup := mkGroup 1 100 "A"%string 1 (Some 2) true true None [].
Definition gCycB : OptionGroup := mkGroup 2 100 "B"%string 2 (Some 1) true true None [].
Definition groupsCycle : list OptionGroup := [gCycA; gCycB].


(** Valid bodies of the option-group create route: a group named
    "  Trim " under group 2, and a group "Size" under group 1. *)
Definition bodyTrim : CatalogRoutes.GroupBody :=
  CatalogRoutes.mkGroupBody "  Trim "%string None "SINGLE"%string (Some 2) false
    CatalogRoutes.LevelAbsent true.

(** The C6 database with the order item referencing variant 7 through its
    [productVariantId] column instead. *)
Definition dbRef : DB :=
  mkDB [mkProduct 100 0 true] [Samples.gSize; Samples.gColor]
    [mkVariant 7 100 "S Red"%string 4 0 EmptyString None [11; 21]]
    [mkOrder 1 DELIVERING None [mkItem 100 1 ODNull (Some 7)]] [].

(** A flat product 1 with five units, a product 100 with options whose only
    variant is built from option 2, and a DELIVERING order of two units of
    product 1. *)
Definition P1 : Product := mkProduct 1 5 false.
Definition P100 : Product := mkProduct 100 0 true.
Definition dbOrd : DB :=
  mkDB [P1; P100] []
    [mkVariant 7 100 "Blue"%string 3 0 EmptyString None [2]]
    [mkOrder 1 DELIVERING None [mkItem 1 2 ODNull None]] [].
Definition orderOrd : Order := mkOrder 1 DELIVERING None [mkItem 1 2 ODNull None].

(** The order-id generator: ids 2, 3, 4 for the three attempts. *)
Definition genOrd (attempt : nat) : nat := S attempt.

End ExtraSamples.

(** * Properties *)

(** ** Variant resolution *)

Module ResolveFacts.
Import StockManagementService.
Import SpecTerms.

Lemma has_In (l : list nat) (x : nat) : has l x = true <-> In x l.
Proof.
  unfold has. rewrite existsb_exists. split.
  - intros [y [Hy Heq]]. apply Nat.eqb_eq in Heq. subst. exact Hy.
  - intros H. exists x. split; [exact H | apply Nat.eqb_refl].
Qed.

Lemma In_toSet (l : list nat) (x : nat) : In x (toSet l) <-> In x l.
Proof. apply nodup_In. Qed.

Lemma isExact_iff (optionIds : list nat) (v : Variant) :
  isExact (toSet optionIds) v = true <-> setEq (v_options v) optionIds.
Proof.
  unfold isExact, voSet, setEq. rewrite andb_true_iff, Nat.eqb_eq, forallb_forall.
  split.
  - intros [Hlen Hall] x.
    assert (Hinc : incl (toSet optionIds) (toSet (v_options v))).
    { intros y Hy. apply has_In. apply Hall. exact Hy. }
    assert (Hback : incl (toSet (v_options v)) (toSet optionIds)).
    { apply NoDup_length_incl; [apply NoDup_nodup | lia | exact Hinc]. }
    split; intro Hx.
    + apply In_toSet, Hback, In_toSet, Hx.
    + apply In_toSet, Hinc, In_toSet, Hx.
  - intros Heq. split.
    + apply Nat.le_antisymm; apply NoDup_incl_length.
      * apply NoDup_nodup.
      * intros y Hy. rewrite In_toSet in Hy |- *. apply Heq. exact Hy.
      * apply NoDup_nodup.
      * intros y Hy. rewrite In_toSet in Hy |- *. apply Heq. exact Hy.
    + intros y Hy. apply has_In. apply In_toSet. apply Heq. apply In_toSet. exact Hy.
Qed.

Lemma isSubset_iff (optionIds : list nat) (v : Variant) :
  isSubset (toSet optionIds) v = true <-> subsetOf (v_options v) optionIds.
Proof.
  unfold isSubset, voSet, subsetOf. rewrite forallb_forall. split.
  - intros H x Hx. apply In_toSet. apply has_In. apply H. apply In_toSet. exact Hx.
  - intros H x Hx. apply has_In. apply In_toSet. apply H. apply In_toSet. exact Hx.
Qed.

Lemma exactLoop_some desired vs id :
  exactLoop desired vs = Some id ->
  exists v, In v vs /\ v_id v = id /\ isExact desired v = true.
Proof.
  induction vs as [|v vs IH]; simpl; [discriminate|].
  destruct (isExact desired v) eqn:E.
  - intros H. injection H as <-. exists v. auto.
  - intros H. destruct (IH H) as [w [Hw Hrest]]. exists w. auto.
Qed.

Lemma exactLoop_none desired vs :
  exactLoop desired vs = None -> forall v, In v vs -> isExact desired v = false.
Proof.
  induction vs as [|v vs IH]; simpl; [tauto|].
  destruct (isExact desired v) eqn:E; [discriminate|].
  intros H w [<- | Hw]; auto.
Qed.

(** The invariant of the second loop. *)
Lemma subsetLoop_spec desired vs best bestSize :
  let '(r, rs) := subsetLoop desired vs best bestSize in
  (bestSize <= rs)%Z /\
  (forall w, In w vs -> isSubset desired w = true ->
             (Z.of_nat (List.length (voSet w)) <= rs)%Z) /\
  ((r = best /\ rs = bestSize) \/
   exists v, In v vs /\ r = Some (v_id v) /\ isSubset desired v = true /\
             rs = Z.of_nat (List.length (voSet v))).
Proof.
  revert best bestSize. induction vs as [|v vs IH]; intros best bestSize; simpl.
  - split; [lia|]. split; [tauto|]. left; auto.
  - destruct (isSubset desired v && (bestSize <? Z.of_nat (List.length (voSet v))))%Z eqn:E.
    + apply andb_true_iff in E as [Hsub Hlt]. apply Z.ltb_lt in Hlt.
      specialize (IH (Some (v_id v)) (Z.of_nat (List.length (voSet v)))).
      destruct (subsetLoop desired vs (Some (v_id v)) (Z.of_nat (List.length (voSet v))))
        as [r rs].
      destruct IH as [Hle [Hall Hcase]]. split; [lia|]. split.
      * intros w [<- | Hw] Hw'; [lia | auto].
      * right. destruct Hcase as [[-> ->] | [u [Hu Hrest]]].
        -- exists v. auto.
        -- exists u. auto.
    + specialize (IH best bestSize).
      destruct (subsetLoop desired vs best bestSize) as [r rs].
      destruct IH as [Hle [Hall Hcase]]. split; [lia|]. split.
      * intros w [<- | Hw] Hw'; [|auto].
        rewrite Hw' in E. simpl in E. apply Z.ltb_ge in E. lia.
      * destruct Hcase as [H | [u [Hu Hrest]]]; [left; exact H|].
        right. exists u. auto.
Qed.

End ResolveFacts.

Module ResolveClaims.
Import StockManagementService.
Import SpecTerms.
Import ResolveFacts.

Lemma resolveFrom_spec (variants : list Variant) (optionIds : list nat) :
  optionIds <> [] ->
  ((exists v, In v variants /\ setEq (v_options v) optionIds) ->
   exists v, In v variants /\ resolveFrom variants optionIds = Some (v_id v) /\
             setEq (v_options v) optionIds) /\
  ((~ exists v, In v variants /\ setEq (v_options v) optionIds) ->
   (exists v, In v variants /\ subsetOf (v_options v) optionIds) ->
   exists v, In v variants /\ resolveFrom variants optionIds = Some (v_id v) /\
             subsetOf (v_options v) optionIds /\
             forall w, In w variants -> subsetOf (v_options w) optionIds ->
                       size (v_options w) <= size (v_options v)) /\
  ((~ exists v, In v variants /\ subsetOf (v_options v) optionIds) ->
   resolveFrom variants optionIds = None).
Proof.
  intros Hne.
  assert (Hres : resolveFrom variants optionIds =
                 match variants with
                 | [] => None
                 | _ => match exactLoop (toSet optionIds) variants with
                        | Some id => Some id
                        | None => fst (subsetLoop (toSet optionIds) variants None (-1)%Z)
                        end
                 end).
  { unfold resolveFrom. destruct optionIds; [contradiction|reflexivity]. }
  rewrite Hres. clear Hres.
  (* the exact loop finds a set-equal variant whenever there is one *)
  assert (Hexact : (exists v, In v variants /\ setEq (v_options v) optionIds) ->
                   exists v, In v variants /\
                     exactLoop (toSet optionIds) variants = Some (v_id v) /\
                     setEq (v_options v) optionIds).
  { intros [v [Hv Hset]].
    destruct (exactLoop (toSet optionIds) variants) as [id|] eqn:E.
    - destruct (exactLoop_some _ _ _ E) as [w [Hw [Hid Hex]]].
      exists w. split; [exact Hw|]. split; [congruence|]. apply isExact_iff. exact Hex.
    - apply isExact_iff in Hset. rewrite (exactLoop_none _ _ E v Hv) in Hset.
      discriminate. }
  assert (Hnoexact : (~ exists v, In v variants /\ setEq (v_options v) optionIds) ->
                     exactLoop (toSet optionIds) variants = None).
  { intros Hn. destruct (exactLoop (toSet optionIds) variants) as [id|] eqn:E; [|reflexivity].
    exfalso. apply Hn. destruct (exactLoop_some _ _ _ E) as [w [Hw [_ Hex]]].
    exists w. split; [exact Hw|]. apply isExact_iff. exact Hex. }
  pose proof (subsetLoop_spec (toSet optionIds) variants None (-1)%Z) as Hsub.
  destruct (subsetLoop (toSet optionIds) variants None (-1)%Z) as [r rs] eqn:Esub.
  destruct Hsub as [Hle [Hall Hcase]].
  split; [|split].
  - intros Hex. destruct (Hexact Hex) as [v [Hv [Hloop Hset]]].
    exists v. split; [exact Hv|]. split; [|exact Hset].
    destruct variants; [contradiction|]. rewrite Hloop. reflexivity.
  - intros Hn [w [Hw Hwsub]]. rewrite (Hnoexact Hn).
    assert (Hwle := Hall w Hw (proj2 (isSubset_iff _ _) Hwsub)).
    destruct Hcase as [[-> ->] | [v [Hv [Hr [Hvsub Hrs]]]]]; [lia|].
    exists v. split; [exact Hv|].
    split; [destruct variants; [contradiction|]; simpl; exact Hr|].
    split; [apply isSubset_iff; exact Hvsub|].
    intros u Hu Husub. unfold size.
    assert (H := Hall u Hu (proj2 (isSubset_iff _ _) Husub)). unfold voSet in *. lia.
  - intros Hn. destruct variants as [|v0 vs]; [reflexivity|].
    assert (Hnx : ~ exists v, In v (v0 :: vs) /\ setEq (v_options v) optionIds).
    { intros [v [Hv Hset]]. apply Hn. exists v. split; [exact Hv|].
      intros x Hx. apply Hset. exact Hx. }
    rewrite (Hnoexact Hnx). simpl.
    destruct Hcase as [[-> _] | [v [Hv [_ [Hvsub _]]]]]; [reflexivity|].
    exfalso. apply Hn. exists v. split; [exact Hv|]. apply isSubset_iff. exact Hvsub.
Qed.

(** Claim C1: for a non-empty selection [optionIds], [resolveVariantId]
    returns (the id of) a variant whose option-id set equals the selection
    whenever one exists; otherwise, if some variant's option-id set is a
    subset of the selection, a subset variant with the most options; if
    none is a subset, [null].  In particular with V1 = {A,B} and V2 = {A},
    resolving {A,B} returns V1 whatever the order of the two rows. *)
Theorem resolveVariantId_exact_then_largest_subset
    (productId : nat) (optionIds : list nat) (s : DB) (Hne : optionIds <> []) :
  let variants := variantsOf productId s in
  exists r, resolveVariantId productId optionIds s = (s, Ok r) /\
  ((exists v, In v variants /\ setEq (v_options v) optionIds) ->
   exists v, In v variants /\ r = Some (v_id v) /\ setEq (v_options v) optionIds) /\
  ((~ exists v, In v variants /\ setEq (v_options v) optionIds) ->
   (exists v, In v variants /\ subsetOf (v_options v) optionIds) ->
   exists v, In v variants /\ r = Some (v_id v) /\ subsetOf (v_options v) optionIds /\
             forall w, In w variants -> subsetOf (v_options w) optionIds ->
                       size (v_options w) <= size (v_options v)) /\
  ((~ exists v, In v variants /\ subsetOf (v_options v) optionIds) -> r = None) /\
  (forall (A B : nat) (V1 V2 : Variant),
     A <> B -> v_id V1 <> v_id V2 ->
     v_options V1 = [A; B] -> v_options V2 = [A] ->
     (variants = [V1; V2] \/ variants = [V2; V1]) ->
     optionIds = [A; B] -> r = Some (v_id V1)).
Proof.
  intros variants. exists (resolveFrom variants optionIds).
  split.
  { unfold resolveVariantId. destruct optionIds; [contradiction|reflexivity]. }
  destruct (resolveFrom_spec variants optionIds Hne) as [H1 [H2 H3]].
  split; [exact H1|]. split; [exact H2|]. split; [exact H3|].
  intros A B V1 V2 HAB Hid Ho1 Ho2 Hvs Hsel.
  assert (Hset : setEq (v_options V1) optionIds).
  { rewrite Ho1, Hsel. intros x. tauto. }
  destruct H1 as [v [Hv [Hr Hveq]]].
  { exists V1. split; [destruct Hvs as [-> | ->]; simpl; auto | exact Hset]. }
  rewrite Hr. f_equal.
  destruct Hvs as [Hvs | Hvs]; unfold variants in *; rewrite Hvs in Hv;
    simpl in Hv; destruct Hv as [<- | [<- | []]]; try reflexivity;
    exfalso; apply HAB; rewrite Ho2, Hsel in Hveq;
    destruct (proj2 (Hveq B) (or_intror (or_introl eq_refl))) as [-> | []]; reflexivity.
Qed.

End ResolveClaims.

(** ** Stock buckets *)

Module BucketFacts.
Import StockManagementService.

Lemma find_addVariantStock s id d v :
  findVariant id s = Some v ->
  findVariant id (addVariantStock id d s) = Some (with_stock v (v_stock v + d)).
Proof.
  unfold findVariant, addVariantStock, set_variants. simpl.
  induction (db_variants s) as [|w ws IH]; simpl; [discriminate|].
  destruct (Nat.eqb (v_id w) id) eqn:E.
  - intros H. injection H as <-. simpl. rewrite E. reflexivity.
  - intros H. rewrite E. apply IH, H.
Qed.

Lemma find_addProductQuantity s id d p :
  findProduct id s = Some p ->
  findProduct id (addProductQuantity id d s) = Some (with_quantity p (p_quantity p + d)).
Proof.
  unfold findProduct, addProductQuantity, set_products. simpl.
  induction (db_products s) as [|w ws IH]; simpl; [discriminate|].
  destruct (Nat.eqb (p_id w) id) eqn:E.
  - intros H. injection H as <-. simpl. rewrite E. reflexivity.
  - intros H. rewrite E. apply IH, H.
Qed.

(** Claim C5: deducting [q] from an existing bucket fails with the
    insufficient-stock error, leaving the database as it was, exactly when
    the bucket holds less than [q]; otherwise it succeeds and the bucket
    holds exactly [q] less, which is not negative.  Stated for
    [Variant.stock] ([deductVariantStock]) and [Product.quantity]
    ([deductProductStock]). *)
Theorem deduct_bucket_guard :
  (forall s variantId q v,
     findVariant variantId s = Some v ->
     ((v_stock v < q)%Z ->
        deductVariantStock variantId q s = (s, Fail ErrInsufficientStock)) /\
     ((q <= v_stock v)%Z ->
        deductVariantStock variantId q s = (addVariantStock variantId (- q) s, Ok tt) /\
        findVariant variantId (addVariantStock variantId (- q) s)
          = Some (with_stock v (v_stock v - q)) /\
        (0 <= v_stock v - q)%Z)) /\
  (forall s productId q p,
     findProduct productId s = Some p ->
     ((p_quantity p < q)%Z ->
        deductProductStock productId q s = (s, Fail ErrInsufficientStock)) /\
     ((q <= p_quantity p)%Z ->
        deductProductStock productId q s = (addProductQuantity productId (- q) s, Ok tt) /\
        findProduct productId (addProductQuantity productId (- q) s)
          = Some (with_quantity p (p_quantity p - q)) /\
        (0 <= p_quantity p - q)%Z)).
Proof.
  split.
  - intros s id q v Hf. unfold deductVariantStock, bind, get. rewrite Hf. split.
    + intros Hlt. apply Z.ltb_lt in Hlt. rewrite Hlt. reflexivity.
    + intros Hge. assert (E : (v_stock v <? q)%Z = false) by (apply Z.ltb_ge; lia).
      rewrite E. split; [reflexivity|]. split; [|lia].
      rewrite (find_addVariantStock _ _ _ _ Hf). reflexivity.
  - intros s id q p Hf. unfold deductProductStock, bind, get. rewrite Hf. split.
    + intros Hlt. apply Z.ltb_lt in Hlt. rewrite Hlt. reflexivity.
    + intros Hge. assert (E : (p_quantity p <? q)%Z = false) by (apply Z.ltb_ge; lia).
      rewrite E. split; [reflexivity|]. split; [|lia].
      rewrite (find_addProductQuantity _ _ _ _ Hf). reflexivity.
Qed.

End BucketFacts.

Module FallbackClaims.
Import StockManagementService.
Import SpecTerms.
Import ResolveFacts.

Lemma deductProductStock_variants productId q s :
  db_variants (fst (deductProductStock productId q s)) = db_variants s.
Proof.
  unfold deductProductStock, bind, get. simpl.
  destruct (findProduct productId s) as [p|]; [|reflexivity].
  destruct (p_quantity p <? q)%Z; reflexivity.
Qed.

Lemma restoreProductStock_variants productId q s :
  db_variants (fst (restoreProductStock productId q s)) = db_variants s.
Proof.
  unfold restoreProductStock, bind, get. simpl.
  destruct (findProduct productId s); reflexivity.
Qed.

Lemma itemVariantId_fallback s item :
  storedVariantId (oi_optionDetails item) = None ->
  (forall v, In v (variantsOf (oi_productId item) s) ->
             ~ subsetOf (v_options v) (itemSelection item)) ->
  itemVariantId item s = (s, Ok None).
Proof.
  intros Hst Hnone. unfold itemVariantId. rewrite Hst.
  unfold itemSelection in Hnone.
  destruct (selectionsOf (oi_optionDetails item)) as [gs|]; [|reflexivity].
  destruct gs as [|g gs']; [reflexivity|].
  unfold resolveVariantId.
  destruct (selectedOptionIds (g :: gs')) as [|x xs] eqn:Eids; [reflexivity|].
  unfold bind, get, ret.
  destruct (ResolveClaims.resolveFrom_spec (variantsOf (oi_productId item) s) (x :: xs)
              ltac:(discriminate)) as [_ [_ H3]].
  rewrite H3; [reflexivity|].
  intros [v [Hv Hsub]]. exact (Hnone v Hv Hsub).
Qed.

(** Claim C4, as the code does it.  An item that stores no [variantId] and
    whose selection admits no variant of its product (no variant's
    option-id set is included in the selection, in particular when the
    product has no variants) resolves to [null], and deduction and
    restoration act on [Product.quantity] by the item's quantity, leaving
    every variant row as it was.  An item that stores a [variantId] always
    has its stock moved on that variant, whatever resolution would give;
    when that variant no longer exists, deduction and restoration fail with
    not-found and write nothing, so [Product.quantity] is not touched. *)
Theorem fallback_to_product_quantity (s : DB) (item : OrderItem) :
  (storedVariantId (oi_optionDetails item) = None ->
   (forall v, In v (variantsOf (oi_productId item) s) ->
              ~ subsetOf (v_options v) (itemSelection item)) ->
   resolveVariantId (oi_productId item) (itemSelection item) s = (s, Ok None) /\
   deductStockForItem item s = deductProductStock (oi_productId item) (oi_quantity item) s /\
   restoreStockForItem item s = restoreProductStock (oi_productId item) (oi_quantity item) s /\
   db_variants (fst (deductStockForItem item s)) = db_variants s /\
   db_variants (fst (restoreStockForItem item s)) = db_variants s) /\
  (forall variantId, storedVariantId (oi_optionDetails item) = Some variantId ->
   deductStockForItem item s = deductVariantStock variantId (oi_quantity item) s /\
   restoreStockForItem item s = restoreVariantStock variantId (oi_quantity item) s /\
   (findVariant variantId s = None ->
    deductStockForItem item s = (s, Fail ErrNotFound) /\
    restoreStockForItem item s = (s, Fail ErrNotFound))).
Proof.
  split.
  - intros Hstored Hnone.
    pose proof (itemVariantId_fallback s item Hstored Hnone) as Hid.
    assert (Hd : deductStockForItem item s =
                 deductProductStock (oi_productId item) (oi_quantity item) s).
    { unfold deductStockForItem, bind. rewrite Hid. reflexivity. }
    assert (Hr : restoreStockForItem item s =
                 restoreProductStock (oi_productId item) (oi_quantity item) s).
    { unfold restoreStockForItem, bind. rewrite Hid. reflexivity. }
    split; [|split; [exact Hd|split; [exact Hr|split]]].
    + unfold resolveVariantId.
      destruct (itemSelection item) as [|x xs] eqn:Esel; [reflexivity|].
      unfold bind, get, ret.
      destruct (ResolveClaims.resolveFrom_spec (variantsOf (oi_productId item) s) (x :: xs)
                  ltac:(discriminate)) as [_ [_ H3]].
      rewrite H3; [reflexivity|].
      intros [v [Hv Hsub]]. exact (Hnone v Hv Hsub).
    + rewrite Hd. apply deductProductStock_variants.
    + rewrite Hr. apply restoreProductStock_variants.
  - intros variantId Hstored.
    assert (Hd : deductStockForItem item s = deductVariantStock variantId (oi_quantity item) s)
      by (unfold deductStockForItem, itemVariantId, bind, ret; rewrite Hstored; reflexivity).
    assert (Hr : restoreStockForItem item s = restoreVariantStock variantId (oi_quantity item) s)
      by (unfold restoreStockForItem, itemVariantId, bind, ret; rewrite Hstored; reflexivity).
    split; [exact Hd|]. split; [exact Hr|].
    intros Hf. rewrite Hd, Hr.
    unfold deductVariantStock, restoreVariantStock, bind, get, throw. rewrite Hf.
    split; reflexivity.
Qed.

(** Claim C4, counterexample: an order item written by the order routes
    stores [optionDetails.variantId], which is used before any resolution.
    Here the product has no variants at all and resolving the selection
    gives [null], yet deduction and restoration target the stored variant 7
    (which no longer exists) and fail, without touching [Product.quantity]. *)
Lemma stored_variantId_bypasses_fallback :
  variantsOf 100 Samples.dbC4 = [] /\
  resolveVariantId 100 (itemSelection Samples.itemC4) Samples.dbC4 = (Samples.dbC4, Ok None) /\
  deductStockForItem Samples.itemC4 Samples.dbC4 = (Samples.dbC4, Fail ErrNotFound) /\
  restoreStockForItem Samples.itemC4 Samples.dbC4 = (Samples.dbC4, Fail ErrNotFound).
Proof.
  split; [reflexivity|]. split; [reflexivity|]. split; reflexivity.
Qed.

(** A witness of [fallback_to_product_quantity]: the item [itemC4b] selects
    option 1 and the product's only variant is built from option 2; the item
    [itemC4] stores the variant 7, which [dbC4] does not have. *)
Lemma fallback_to_product_quantity_witness :
  storedVariantId (oi_optionDetails Samples.itemC4b) = None /\
  deductStockForItem Samples.itemC4b Samples.dbC4b = deductProductStock 100 2 Samples.dbC4b /\
  storedVariantId (oi_optionDetails Samples.itemC4) = Some 7 /\
  restoreStockForItem Samples.itemC4 Samples.dbC4 = (Samples.dbC4, Fail ErrNotFound).
Proof.
  assert (Hs : storedVariantId (oi_optionDetails Samples.itemC4b) = None) by reflexivity.
  assert (Hs7 : storedVariantId (oi_optionDetails Samples.itemC4) = Some 7) by reflexivity.
  assert (Hf7 : findVariant 7 Samples.dbC4 = None) by reflexivity.
  split; [exact Hs|]. split.
  - refine (proj1 (proj2 (proj1 (fallback_to_product_quantity Samples.dbC4b Samples.itemC4b)
                            Hs _))).
    simpl. intros v [<- | []] Hsub.
    specialize (Hsub 2 (or_introl eq_refl)). simpl in Hsub. lia.
  - split; [exact Hs7|].
    exact (proj2 (proj2 (proj2 (proj2 (fallback_to_product_quantity Samples.dbC4 Samples.itemC4)
                                  7 Hs7)) Hf7)).
Defined.

End FallbackClaims.

(** ** Order-level stock effects *)

Module EffectFacts.
Import StockManagementService.
Import StockEffect.
Import OrderRoutes.

Lemma bind_ok {A B} (m : M A) (k : A -> M B) s s1 a :
  m s = (s1, Ok a) -> bind m k s = k a s1.
Proof. unfold bind. intros ->. reflexivity. Qed.

Lemma bind_fail {A B} (m : M A) (k : A -> M B) s s1 e :
  m s = (s1, Fail e) -> bind m k s = (s1, Fail e).
Proof. unfold bind. intros ->. reflexivity. Qed.

Lemma bind_inv {A B} (m : M A) (k : A -> M B) s :
  (exists s1 a, m s = (s1, Ok a) /\ bind m k s = k a s1) \/
  (exists s1 e, m s = (s1, Fail e) /\ bind m k s = (s1, Fail e)).
Proof.
  unfold bind. destruct (m s) as [s1 [a|e]].
  - left. exists s1, a. auto.
  - right. exists s1, e. auto.
Qed.

Lemma resolveVariantId_pure productId ids s :
  resolveVariantId productId ids s = (s, Ok (resolveFrom (variantsOf productId s) ids)).
Proof. unfold resolveVariantId. destruct ids; reflexivity. Qed.

Lemma itemVariantId_pure item s : itemVariantId item s = (s, Ok (itemBucket s item)).
Proof.
  unfold itemVariantId, itemBucket.
  destruct (storedVariantId (oi_optionDetails item)); [reflexivity|].
  destruct (selectionsOf (oi_optionDetails item)) as [[|g gs]|]; try reflexivity.
  apply resolveVariantId_pure.
Qed.

(** Per-item deduction: success is [applyItem (-1)], failure writes nothing. *)
Lemma deductStockForItem_cases item s :
  deductStockForItem item s = (applyItem (-1) s item, Ok tt) \/
  exists e, deductStockForItem item s = (s, Fail e).
Proof.
  unfold deductStockForItem, applyItem.
  rewrite (bind_ok _ _ _ _ _ (itemVariantId_pure item s)).
  replace (-1 * oi_quantity item)%Z with (- oi_quantity item)%Z by lia.
  destruct (itemBucket s item) as [id|].
  - unfold deductVariantStock, bind, get.
    destruct (findVariant id s) as [v|]; [|right; eexists; reflexivity].
    destruct (v_stock v <? oi_quantity item)%Z; [right; eexists; reflexivity | left; reflexivity].
  - unfold deductProductStock, bind, get.
    destruct (findProduct (oi_productId item) s) as [p|]; [|right; eexists; reflexivity].
    destruct (p_quantity p <? oi_quantity item)%Z; [right; eexists; reflexivity | left; reflexivity].
Qed.

Lemma restoreStockForItem_cases item s :
  restoreStockForItem item s = (applyItem 1 s item, Ok tt) \/
  exists e, restoreStockForItem item s = (s, Fail e).
Proof.
  unfold restoreStockForItem, applyItem.
  rewrite (bind_ok _ _ _ _ _ (itemVariantId_pure item s)).
  replace (1 * oi_quantity item)%Z with (oi_quantity item) by lia.
  destruct (itemBucket s item) as [id|].
  - unfold restoreVariantStock, bind, get.
    destruct (findVariant id s) as [v|]; [left; reflexivity | right; eexists; reflexivity].
  - unfold restoreProductStock, bind, get.
    destruct (findProduct (oi_productId item) s) as [p|]; [left; reflexivity | right; eexists; reflexivity].
Qed.

(** The loop over items: on success every item was applied in order; on
    failure a strict prefix of the items was applied. *)
Lemma forEach_effect (f : OrderItem -> M unit) (g : DB -> OrderItem -> DB)
    (Hf : forall x s, f x s = (g s x, Ok tt) \/ exists e, f x s = (s, Fail e)) :
  forall xs s,
    forEach f xs s = (fold_left g xs s, Ok tt) \/
    exists n e, n < List.length xs /\
                forEach f xs s = (fold_left g (firstn n xs) s, Fail e).
Proof.
  induction xs as [|x xs IH]; intros s; simpl.
  - left. reflexivity.
  - destruct (Hf x s) as [Hok | [e He]].
    + rewrite (bind_ok _ _ _ _ _ Hok).
      destruct (IH (g s x)) as [H | [n [e [Hn H]]]].
      * left. exact H.
      * right. exists (S n), e. split; [lia|]. exact H.
    + rewrite (bind_fail _ _ _ _ _ He). right. exists 0, e. split; [lia|]. reflexivity.
Qed.

Lemma deductStockForOrder_effect id s o :
  findOrder id s = Some o ->
  deductStockForOrder id s = (applyItems (-1) (o_items o) s, Ok tt) \/
  exists n e, n < List.length (o_items o) /\
    deductStockForOrder id s = (applyItems (-1) (firstn n (o_items o)) s, Fail e).
Proof.
  intros Hf.
  assert (E : deductStockForOrder id s = forEach deductStockForItem (o_items o) s)
    by (unfold deductStockForOrder, bind, get; rewrite Hf; reflexivity).
  rewrite E. apply (forEach_effect _ _ deductStockForItem_cases).
Qed.

Lemma restoreStockForOrder_effect id s o :
  findOrder id s = Some o ->
  restoreStockForOrder id s = (applyItems 1 (o_items o) s, Ok tt) \/
  exists n e, n < List.length (o_items o) /\
    restoreStockForOrder id s = (applyItems 1 (firstn n (o_items o)) s, Fail e).
Proof.
  intros Hf.
  assert (E : restoreStockForOrder id s = forEach restoreStockForItem (o_items o) s)
    by (unfold restoreStockForOrder, bind, get; rewrite Hf; reflexivity).
  rewrite E. apply (forEach_effect _ _ restoreStockForItem_cases).
Qed.

Lemma applyItems_orders sign items s :
  db_orders (applyItems sign items s) = db_orders s.
Proof.
  unfold applyItems. revert s. induction items as [|it items IH]; intros s; simpl;
    [reflexivity|].
  rewrite IH. unfold applyItem. destruct (itemBucket s it); reflexivity.
Qed.

Lemma findOrder_setOrderState id st s o :
  findOrder id s = Some o ->
  findOrder id (setOrderState id st s) = Some (mkOrder (o_id o) st (o_driverId o) (o_items o)).
Proof.
  unfold findOrder, setOrderState, set_orders. simpl.
  induction (db_orders s) as [|w ws IH]; simpl; [discriminate|].
  destruct (Nat.eqb (o_id w) id) eqn:E.
  - intros H. injection H as <-. simpl. rewrite E. reflexivity.
  - intros H. rewrite E. apply IH, H.
Qed.

Lemma findOrder_setOrderDriver id d st s o :
  findOrder id s = Some o ->
  findOrder id (setOrderDriver id d st s) = Some (mkOrder (o_id o) st d (o_items o)).
Proof.
  unfold findOrder, setOrderDriver, set_orders. simpl.
  induction (db_orders s) as [|w ws IH]; simpl; [discriminate|].
  destruct (Nat.eqb (o_id w) id) eqn:E.
  - intros H. injection H as <-. simpl. rewrite E. reflexivity.
  - intros H. rewrite E. apply IH, H.
Qed.

Lemma validateItems_pure items s : exists b, validateItems items s = (s, Ok b).
Proof.
  revert s. induction items as [|it items IH]; intros s; simpl.
  - exists true. reflexivity.
  - unfold validateItem. unfold bind at 1.
    rewrite (bind_ok _ _ _ _ _ (itemVariantId_pure it s)).
    unfold bind at 1, get.
    destruct (itemBucket s it) as [vid|];
      (destruct (IH s) as [b Hb]; unfold bind, ret; rewrite Hb; eexists; reflexivity).
Qed.

Lemma validateStockForOrder_pure id s o :
  findOrder id s = Some o -> exists b, validateStockForOrder id s = (s, Ok b).
Proof.
  intros Hf.
  assert (E : validateStockForOrder id s = validateItems (o_items o) s)
    by (unfold validateStockForOrder, bind, get; rewrite Hf; reflexivity).
  rewrite E. apply validateItems_pure.
Qed.

End EffectFacts.

Module TransitionClaims.
Import StockManagementService.
Import StockEffect.
Import OrderRoutes.
Import EffectFacts.

Lemma stockOnEdge_cases current next id :
  (next = DELIVERING /\ current <> DELIVERING ->
     stockOnEdge current next id = deductStockForOrder id) /\
  (next = RETURNED /\ current <> RETURNED ->
     stockOnEdge current next id = restoreStockForOrder id) /\
  (~ (next = DELIVERING /\ current <> DELIVERING) ->
   ~ (next = RETURNED /\ current <> RETURNED) ->
     stockOnEdge current next id = ret tt).
Proof.
  unfold stockOnEdge.
  destruct current, next; simpl; repeat split; intros; try reflexivity;
    try (exfalso; intuition congruence).
Qed.

Lemma putOrderState_unfold id st s o :
  findOrder id s = Some o ->
  putOrderState id st s =
    (fst (stockOnEdge (o_state o) st id (setOrderState id st s)),
     match snd (stockOnEdge (o_state o) st id (setOrderState id st s)) with
     | Ok _ => S200 | Fail _ => S500 end).
Proof.
  intros Hf. unfold putOrderState, runHandler, bind, get, modify, ret. rewrite Hf.
  destruct (stockOnEdge (o_state o) st id (setOrderState id st s)) as [s' [[]|e]];
    reflexivity.
Qed.

Lemma findOrder_applyItems sign items id s :
  findOrder id (applyItems sign items s) = findOrder id s.
Proof. unfold findOrder. rewrite applyItems_orders. reflexivity. Qed.

(** The order found after a state write has the new state and the same items. *)
Lemma edge_effect_ok current next id s o s' :
  findOrder id s = Some o ->
  stockOnEdge current next id s = (s', Ok tt) ->
  (next = DELIVERING /\ current <> DELIVERING -> s' = applyItems (-1) (o_items o) s) /\
  (next = RETURNED /\ current <> RETURNED -> s' = applyItems 1 (o_items o) s) /\
  (~ (next = DELIVERING /\ current <> DELIVERING) ->
   ~ (next = RETURNED /\ current <> RETURNED) -> s' = s).
Proof.
  intros Hf Hrun. destruct (stockOnEdge_cases current next id) as [H1 [H2 H3]].
  split; [|split].
  - intros He. rewrite (H1 He) in Hrun.
    destruct (deductStockForOrder_effect id s o Hf) as [Hok | [n [e [_ Hfail]]]];
      rewrite Hrun in *; [congruence | discriminate].
  - intros He. rewrite (H2 He) in Hrun.
    destruct (restoreStockForOrder_effect id s o Hf) as [Hok | [n [e [_ Hfail]]]];
      rewrite Hrun in *; [congruence | discriminate].
  - intros Hn1 Hn2. rewrite (H3 Hn1 Hn2) in Hrun. unfold ret in Hrun. congruence.
Qed.

Lemma stocks_setOrderState id st s : stocks (setOrderState id st s) = stocks s.
Proof. reflexivity. Qed.

Lemma stocks_setOrderDriver id d st s : stocks (setOrderDriver id d st s) = stocks s.
Proof. reflexivity. Qed.

Lemma runHandler_bind_ok {A} (m : M A) (k : A -> M Status) s s1 a :
  m s = (s1, Ok a) -> runHandler (bind m k) s = runHandler (k a) s1.
Proof. intros H. unfold runHandler. rewrite (bind_ok _ _ _ _ _ H). reflexivity. Qed.

Lemma runHandler_get (k : DB -> M Status) s :
  runHandler (bind get k) s = runHandler (k s) s.
Proof. reflexivity. Qed.

Lemma putOrderDriver_unfold id d s o :
  findOrder id s = Some o ->
  let newState := match d with Some _ => DELIVERING | None => PLACED end in
  putOrderDriver id d s = (s, S400) \/
  putOrderDriver id d s =
    (fst (stockOnEdge (o_state o) newState id (setOrderDriver id d newState s)),
     match snd (stockOnEdge (o_state o) newState id (setOrderDriver id d newState s)) with
     | Ok _ => S200 | Fail _ => S500 end).
Proof.
  intros Hf newState.
  destruct (validateStockForOrder_pure id s o Hf) as [b Hb].
  assert (Hupd :
    runHandler (modify (setOrderDriver id d newState);;;
                stockOnEdge (o_state o) newState id;;; ret S200) s =
    (fst (stockOnEdge (o_state o) newState id (setOrderDriver id d newState s)),
     match snd (stockOnEdge (o_state o) newState id (setOrderDriver id d newState s)) with
     | Ok _ => S200 | Fail _ => S500 end)).
  { unfold runHandler, bind, modify, ret.
    destruct (stockOnEdge (o_state o) newState id (setOrderDriver id d newState s))
      as [s' [[]|e]]; reflexivity. }
  assert (H400 : runHandler (ret S400) s = (s, S400)) by reflexivity.
  unfold putOrderDriver. rewrite runHandler_get. cbv beta. rewrite Hf.
  fold newState.
  destruct (OrderState_eqb newState DELIVERING && negb (OrderState_eqb (o_state o) DELIVERING)).
  - destruct d as [dr|].
    + destruct (has (db_drivers s) dr); [|left; exact H400].
      rewrite (runHandler_bind_ok _ _ _ _ _ Hb).
      destruct b; [right; exact Hupd | left; exact H400].
    + rewrite (runHandler_bind_ok _ _ _ _ _ Hb).
      destruct b; [right; exact Hupd | left; exact H400].
  - destruct d as [dr|].
    + destruct (has (db_drivers s) dr); [right; exact Hupd | left; exact H400].
    + right. exact Hupd.
Qed.

Lemma stockOnEdge_orders current next id s :
  db_orders (fst (stockOnEdge current next id s)) = db_orders s.
Proof.
  destruct (stockOnEdge_cases current next id) as [H1 [H2 H3]].
  destruct (findOrder id s) as [o|] eqn:Hf.
  - destruct (OrderState_eqb next DELIVERING && negb (OrderState_eqb current DELIVERING))
      eqn:E1.
    + assert (He : next = DELIVERING /\ current <> DELIVERING).
      { apply andb_true_iff in E1 as [A B]. apply negb_true_iff in B.
        destruct next, current; simpl in *; split; congruence. }
      rewrite (H1 He).
      destruct (deductStockForOrder_effect id s o Hf) as [Hok | [n [e [_ Hfail]]]];
        [rewrite Hok | rewrite Hfail]; apply applyItems_orders.
    + destruct (OrderState_eqb next RETURNED && negb (OrderState_eqb current RETURNED))
        eqn:E2.
      * assert (He : next = RETURNED /\ current <> RETURNED).
        { apply andb_true_iff in E2 as [A B]. apply negb_true_iff in B.
          destruct next, current; simpl in *; split; congruence. }
        rewrite (H2 He).
        destruct (restoreStockForOrder_effect id s o Hf) as [Hok | [n [e [_ Hfail]]]];
          [rewrite Hok | rewrite Hfail]; apply applyItems_orders.
      * unfold stockOnEdge. rewrite E1, E2. reflexivity.
  - unfold stockOnEdge.
    destruct (OrderState_eqb next DELIVERING && negb (OrderState_eqb current DELIVERING));
      [unfold deductStockForOrder, bind, get; cbv beta; rewrite Hf; reflexivity|].
    destruct (OrderState_eqb next RETURNED && negb (OrderState_eqb current RETURNED));
      [unfold restoreStockForOrder, bind, get; cbv beta; rewrite Hf|]; reflexivity.
Qed.

(** Claim C2: a state write that succeeds changes the stock columns exactly
    on the edges: [PUT /:id/state] deducts every item of the order when the
    new state is DELIVERING and the old one is not, restores every item when
    the new state is RETURNED and the old one is not, and otherwise writes
    only the order row (stocks unchanged); [PUT /:id/driver] (new state
    DELIVERING with a driver, PLACED without) follows the same rule.
    Applying DELIVERING twice in a row, by either route, leaves the stock of
    the second write unchanged, so the deduction happens once. *)
Theorem state_write_stock_edges :
  (forall id st s o s',
     findOrder id s = Some o ->
     putOrderState id st s = (s', S200) ->
     let s1 := setOrderState id st s in
     stocks s1 = stocks s /\
     (st = DELIVERING /\ o_state o <> DELIVERING -> s' = applyItems (-1) (o_items o) s1) /\
     (st = RETURNED /\ o_state o <> RETURNED -> s' = applyItems 1 (o_items o) s1) /\
     (~ (st = DELIVERING /\ o_state o <> DELIVERING) ->
      ~ (st = RETURNED /\ o_state o <> RETURNED) -> s' = s1)) /\
  (forall id d s o s',
     findOrder id s = Some o ->
     putOrderDriver id d s = (s', S200) ->
     let newState := match d with Some _ => DELIVERING | None => PLACED end in
     let s1 := setOrderDriver id d newState s in
     stocks s1 = stocks s /\
     (newState = DELIVERING /\ o_state o <> DELIVERING ->
        s' = applyItems (-1) (o_items o) s1) /\
     (~ (newState = DELIVERING /\ o_state o <> DELIVERING) -> s' = s1)) /\
  (forall id s o s1 s2 r2,
     findOrder id s = Some o ->
     putOrderState id DELIVERING s = (s1, S200) ->
     putOrderState id DELIVERING s1 = (s2, r2) ->
     r2 = S200 /\ stocks s2 = stocks s1) /\
  (forall id d d' s o s1 s2 r2,
     findOrder id s = Some o ->
     putOrderDriver id (Some d) s = (s1, S200) ->
     putOrderDriver id (Some d') s1 = (s2, r2) ->
     stocks s2 = stocks s1).
Proof.
  split; [|split; [|split]].
  - intros id st s o s' Hf Hput s1.
    rewrite (putOrderState_unfold id st s o Hf) in Hput.
    destruct (stockOnEdge (o_state o) st id (setOrderState id st s)) as [s'' [[]|e]] eqn:Hrun;
      simpl in Hput; [|discriminate].
    injection Hput as <-.
    pose proof (findOrder_setOrderState id st s o Hf) as Hf1.
    destruct (edge_effect_ok _ _ _ _ _ _ Hf1 Hrun) as [A [B C]].
    split; [reflexivity|]. simpl in A, B. auto.
  - intros id d s o s' Hf Hput newState s1.
    destruct (putOrderDriver_unfold id d s o Hf) as [Hr | Hput'].
    { rewrite Hr in Hput. discriminate. }
    fold newState in Hput'. rewrite Hput' in Hput.
    destruct (stockOnEdge (o_state o) newState id (setOrderDriver id d newState s))
      as [s'' [[]|e]] eqn:Hrun; simpl in Hput; [|discriminate].
    injection Hput as <-.
    pose proof (findOrder_setOrderDriver id d newState s o Hf) as Hf1.
    destruct (edge_effect_ok _ _ _ _ _ _ Hf1 Hrun) as [A [B C]].
    split; [reflexivity|]. simpl in A. split; [exact A|].
    intros Hn. apply C; [exact Hn|]. unfold newState. destruct d; intuition discriminate.
  - intros id s o s1 s2 r2 Hf Hput1 Hput2.
    rewrite (putOrderState_unfold id DELIVERING s o Hf) in Hput1.
    injection Hput1 as Hs1 _.
    assert (Hf1 : findOrder id s1 =
                  Some (mkOrder (o_id o) DELIVERING (o_driverId o) (o_items o))).
    { unfold findOrder. rewrite <- Hs1, stockOnEdge_orders.
      apply (findOrder_setOrderState id DELIVERING s o Hf). }
    rewrite (putOrderState_unfold id DELIVERING s1 _ Hf1) in Hput2. simpl in Hput2.
    injection Hput2 as <- <-. split; reflexivity.
  - intros id d d' s o s1 s2 r2 Hf Hput1 Hput2.
    destruct (putOrderDriver_unfold id (Some d) s o Hf) as [Hr | Hput1'].
    { rewrite Hr in Hput1. discriminate. }
    rewrite Hput1' in Hput1. injection Hput1 as Hs1 _.
    assert (Hf1 : findOrder id s1 =
                  Some (mkOrder (o_id o) DELIVERING (Some d) (o_items o))).
    { unfold findOrder. rewrite <- Hs1, stockOnEdge_orders.
      apply (findOrder_setOrderDriver id (Some d) DELIVERING s o Hf). }
    destruct (putOrderDriver_unfold id (Some d') s1 _ Hf1) as [Hr | Hput2'].
    + rewrite Hr in Hput2. injection Hput2 as <- _. reflexivity.
    + rewrite Hput2' in Hput2. simpl in Hput2. injection Hput2 as <- _. reflexivity.
Qed.

(** Failure of an edge's stock pass leaves a prefix of the items applied. *)
Lemma edge_effect_fail current next id s o s' e :
  findOrder id s = Some o ->
  stockOnEdge current next id s = (s', Fail e) ->
  exists sign n, n < List.length (o_items o) /\
    s' = applyItems sign (firstn n (o_items o)) s /\
    ((next = DELIVERING /\ current <> DELIVERING /\ sign = (-1)%Z) \/
     (next = RETURNED /\ current <> RETURNED /\ sign = 1%Z)).
Proof.
  intros Hf Hrun. destruct (stockOnEdge_cases current next id) as [H1 [H2 H3]].
  destruct (OrderState_eqb next DELIVERING && negb (OrderState_eqb current DELIVERING))
    eqn:E1.
  - assert (He : next = DELIVERING /\ current <> DELIVERING).
    { apply andb_true_iff in E1 as [A B]. apply negb_true_iff in B.
      destruct next, current; simpl in *; split; congruence. }
    rewrite (H1 He) in Hrun.
    destruct (deductStockForOrder_effect id s o Hf) as [Hok | [n [e' [Hn Hfail]]]];
      rewrite Hrun in *; [discriminate|].
    injection Hfail as -> _. exists (-1)%Z, n. split; [exact Hn|]. split; [reflexivity|].
    left. tauto.
  - destruct (OrderState_eqb next RETURNED && negb (OrderState_eqb current RETURNED))
      eqn:E2.
    + assert (He : next = RETURNED /\ current <> RETURNED).
      { apply andb_true_iff in E2 as [A B]. apply negb_true_iff in B.
        destruct next, current; simpl in *; split; congruence. }
      rewrite (H2 He) in Hrun.
      destruct (restoreStockForOrder_effect id s o Hf) as [Hok | [n [e' [Hn Hfail]]]];
        rewrite Hrun in *; [discriminate|].
      injection Hfail as -> _. exists 1%Z, n. split; [exact Hn|]. split; [reflexivity|].
      right. tauto.
    + unfold stockOnEdge in Hrun. rewrite E1, E2 in Hrun. discriminate.
Qed.

(** Claim C3, as the code does it: a transition is not one transaction.
    When the stock pass of a state write fails (answer 500), the order row
    already holds the new state and the items before the failing one stay
    deducted (or restored); this holds for [PUT /:id/state] and for
    [PUT /:id/driver], whose stock validation runs before it. *)
Theorem state_write_failure_keeps_prefix :
  (forall id st s o s',
     findOrder id s = Some o ->
     putOrderState id st s = (s', S500) ->
     exists sign n, n < List.length (o_items o) /\
       s' = applyItems sign (firstn n (o_items o)) (setOrderState id st s) /\
       ((st = DELIVERING /\ o_state o <> DELIVERING /\ sign = (-1)%Z) \/
        (st = RETURNED /\ o_state o <> RETURNED /\ sign = 1%Z))) /\
  (forall id d s o s',
     findOrder id s = Some o ->
     putOrderDriver id d s = (s', S500) ->
     let newState := match d with Some _ => DELIVERING | None => PLACED end in
     exists n, n < List.length (o_items o) /\
       s' = applyItems (-1) (firstn n (o_items o)) (setOrderDriver id d newState s) /\
       newState = DELIVERING /\ o_state o <> DELIVERING).
Proof.
  split.
  - intros id st s o s' Hf Hput.
    rewrite (putOrderState_unfold id st s o Hf) in Hput.
    destruct (stockOnEdge (o_state o) st id (setOrderState id st s)) as [s'' [[]|e]] eqn:Hrun;
      simpl in Hput; [discriminate|].
    injection Hput as <-.
    exact (edge_effect_fail _ _ _ _ _ _ _ (findOrder_setOrderState id st s o Hf) Hrun).
  - intros id d s o s' Hf Hput newState.
    destruct (putOrderDriver_unfold id d s o Hf) as [Hr | Hput'].
    { rewrite Hr in Hput. discriminate. }
    fold newState in Hput'. rewrite Hput' in Hput.
    destruct (stockOnEdge (o_state o) newState id (setOrderDriver id d newState s))
      as [s'' [[]|e]] eqn:Hrun; simpl in Hput; [discriminate|].
    injection Hput as <-.
    destruct (edge_effect_fail _ _ _ _ _ _ _
                (findOrder_setOrderDriver id d newState s o Hf) Hrun)
      as [sign [n [Hn [Hs [[A [B ->]] | [A [B _]]]]]]].
    + exists n. auto.
    + exfalso. unfold newState in A. destruct d; discriminate.
Qed.

(** Claim C10: deleting an order in state PLACED, RETURNED or COMPLETED
    succeeds without touching any stock column; deleting a DELIVERING order
    that succeeds restores every item of the order (to its resolved variant
    or to [Product.quantity]) before removing the order. *)
Theorem deleteOrder_restores_iff_delivering :
  forall id s o s' r,
    findOrder id s = Some o ->
    deleteOrder id s = (s', r) ->
    (o_state o <> DELIVERING -> r = S200 /\ s' = removeOrder id s /\ stocks s' = stocks s) /\
    (o_state o = DELIVERING -> r = S200 ->
       s' = removeOrder id (applyItems 1 (o_items o) s) /\
       stocks s' = stocks (applyItems 1 (o_items o) s)).
Proof.
  intros id s o s' r Hf Hdel.
  unfold deleteOrder in Hdel. rewrite runHandler_get in Hdel. cbv beta in Hdel.
  rewrite Hf in Hdel. split.
  - intros Hn.
    assert (E : OrderState_eqb (o_state o) DELIVERING = false)
      by (destruct (o_state o); simpl; congruence).
    rewrite E in Hdel. unfold runHandler, bind, ret, modify in Hdel.
    injection Hdel as <- <-. auto.
  - intros Hd Hr. rewrite Hd in Hdel. simpl in Hdel.
    unfold runHandler in Hdel.
    destruct (restoreStockForOrder_effect id s o Hf) as [Hok | [n [e [_ Hfail]]]].
    + rewrite (bind_ok _ _ _ _ _ Hok) in Hdel. unfold bind, modify, ret in Hdel.
      injection Hdel as <- _. auto.
    + rewrite (bind_fail _ _ _ _ _ Hfail) in Hdel. injection Hdel as _ <-. discriminate.
Qed.

End TransitionClaims.

(** ** Option-group routes *)

Module GroupClaims.
Import StockManagementService.
Import OrderRoutes.
Import ProductOptionRoutes.
Import Samples.

(** Claim C6: the order-reference guard of [DELETE /groups/:groupId] looks
    at [orderItem.productVariantId], a column the order routes never fill;
    they record the variant in [optionDetails.variantId].  With the group
    Size, its child group Color and the variant 7 built from their options,
    a DELIVERING order naming variant 7 does not block the deletion: the
    call answers 200 and removes both groups and variant 7, after which the
    order can no longer be deleted (restoring its stock fails, answer 500). *)
Theorem deleteGroup_ignores_optionDetails_references :
  storedVariantId (oi_optionDetails itemC6) = Some 7 /\
  oi_productVariantId itemC6 = None /\
  findVariant 7 dbC6 <> None /\
  let (s', r) := deleteGroup 1 dbC6 in
  r = S200 /\ findVariant 7 s' = None /\ db_groups s' = [] /\
  findOrder 1 s' = findOrder 1 dbC6 /\ snd (deleteOrder 1 s') = S500.
Proof.
  split; [reflexivity|]. split; [reflexivity|]. split; [discriminate|].
  vm_compute. repeat split.
Qed.

(** Claim C7: [PUT /groups/:groupId] rejects only a group named as its own
    parent; it walks no ancestors.  Moving the root group A under its own
    child B is accepted (200) and leaves A and B each the parent of the
    other. *)
Theorem putGroup_accepts_ancestor_cycle :
  option_map g_parentGroupId (findGroup 2 dbC7) = Some (Some 1) /\
  option_map g_parentGroupId (findGroup 1 dbC7) = Some None /\
  let (s', r) := putGroup 1 (Some 2) true (Some 1) dbC7 in
  r = S200 /\
  option_map g_parentGroupId (findGroup 1 s') = Some (Some 2) /\
  option_map g_parentGroupId (findGroup 2 s') = Some (Some 1).
Proof.
  vm_compute. repeat split.
Qed.

End GroupClaims.

(** ** Hierarchical total *)

Module HierarchyClaims.
Import HierarchicalStockService.

(** Claim C9: when the stock tree has a node of level 1, the product total
    is the sum of the stock of the level-1 nodes only. *)
Theorem total_stock_sums_level1_only (tree : list Node)
    (Hlevel1 : exists n, In n tree /\ n_level n = 1) :
  calculateHierarchicalTotalStock tree =
  sumStock (filter (fun n => Nat.eqb (n_level n) 1) tree).
Proof.
  destruct Hlevel1 as [n [Hin Hl]].
  unfold calculateHierarchicalTotalStock.
  destruct tree as [|t ts]; [contradiction|].
  cbv zeta.
  destruct (filter (fun n0 => Nat.eqb (n_level n0) 1) (t :: ts)) as [|m ms] eqn:E;
    [|reflexivity].
  exfalso.
  assert (H : In n (filter (fun n0 => Nat.eqb (n_level n0) 1) (t :: ts))).
  { apply filter_In. split; [exact Hin|]. apply Nat.eqb_eq. exact Hl. }
  rewrite E in H. contradiction.
Qed.

(** A witness of [total_stock_sums_level1_only]: the level-1 group of
    [groupsC9] aggregates its level-2 children (25 + 25); the total is 50,
    whereas summing levels 1 and 2 would give 100. *)
Lemma total_stock_sums_level1_only_witness :
  let tree := buildTreeFromOptionGroups Samples.groupsC9 in
  calculateHierarchicalTotalStock tree = 50%Z /\
  sumStock (tree ++ flat_map n_children tree) = 100%Z.
Proof.
  intros tree. split; [|vm_compute; reflexivity].
  rewrite (total_stock_sums_level1_only tree).
  - vm_compute. reflexivity.
  - eexists. split; [left; reflexivity | reflexivity].
Defined.

End HierarchyClaims.

(** ** Concrete runs of the resolution and transition theorems *)

Module ConcreteRuns.
Import StockManagementService.
Import OrderRoutes.
Import StockEffect.
Import Samples.

Lemma resolveVariantId_exact_then_largest_subset_witness :
  [1; 2] <> [] /\ resolveVariantId 1 [1; 2] dbC1 = (dbC1, Ok (Some 10)).
Proof.
  assert (Hne : [1; 2] <> []) by discriminate.
  split; [exact Hne|].
  pose proof (ResolveClaims.resolveVariantId_exact_then_largest_subset 1 [1; 2] dbC1 Hne)
    as H.
  cbv zeta in H. destruct H as [r [Hr [_ [_ [_ Hex]]]]].
  rewrite Hr. rewrite (Hex 1 2 V1 V2);
    [reflexivity | discriminate | discriminate | reflexivity | reflexivity
    | left; reflexivity | reflexivity].
Defined.

Lemma deduct_bucket_guard_witness :
  findVariant 10 dbC1 = Some V1 /\
  deductVariantStock 10 7 dbC1 = (dbC1, Fail ErrInsufficientStock).
Proof.
  assert (Hf : findVariant 10 dbC1 = Some V1) by reflexivity.
  split; [exact Hf|].
  apply (proj1 (proj1 BucketFacts.deduct_bucket_guard dbC1 10 7%Z V1 Hf)).
  reflexivity.
Defined.

Lemma state_write_stock_edges_witness :
  let s' := fst (putOrderState 1 DELIVERING dbC2) in
  findOrder 1 dbC2 = Some orderC2 /\ putOrderState 1 DELIVERING dbC2 = (s', S200) /\
  s' = applyItems (-1) (o_items orderC2) (setOrderState 1 DELIVERING dbC2).
Proof.
  intros s'.
  assert (Hf : findOrder 1 dbC2 = Some orderC2) by reflexivity.
  assert (Hp : putOrderState 1 DELIVERING dbC2 = (s', S200)) by reflexivity.
  split; [exact Hf|]. split; [exact Hp|].
  destruct (proj1 TransitionClaims.state_write_stock_edges 1 DELIVERING dbC2 orderC2 s' Hf Hp)
    as [_ [HD _]].
  apply HD. split; [reflexivity | discriminate].
Defined.

(** Claim C3, counterexample: the order's second item asks 5 units of a
    product holding 1.  [PUT /:id/state] with DELIVERING answers 500, yet
    the order already holds DELIVERING and product 1 stays deducted (5 to
    4): the transition is half applied. *)
Lemma state_write_half_applied :
  let (s', r) := putOrderState 1 DELIVERING dbC3 in
  r = S500 /\
  option_map o_state (findOrder 1 dbC3) = Some PLACED /\
  option_map o_state (findOrder 1 s') = Some DELIVERING /\
  option_map p_quantity (findProduct 1 dbC3) = Some 5%Z /\
  option_map p_quantity (findProduct 1 s') = Some 4%Z.
Proof.
  vm_compute. repeat split.
Qed.

Lemma state_write_failure_keeps_prefix_witness :
  let s' := fst (putOrderState 1 DELIVERING dbC3) in
  findOrder 1 dbC3 = Some orderC3 /\ putOrderState 1 DELIVERING dbC3 = (s', S500) /\
  exists sign n, n < 2 /\
    s' = applyItems sign (firstn n (o_items orderC3)) (setOrderState 1 DELIVERING dbC3).
Proof.
  intros s'.
  assert (Hf : findOrder 1 dbC3 = Some orderC3) by reflexivity.
  assert (Hp : putOrderState 1 DELIVERING dbC3 = (s', S500)) by reflexivity.
  split; [exact Hf|]. split; [exact Hp|].
  destruct (proj1 TransitionClaims.state_write_failure_keeps_prefix
              1 DELIVERING dbC3 orderC3 s' Hf Hp) as [sign [n [Hn [Hs _]]]].
  exists sign, n. split; [exact Hn | exact Hs].
Defined.

Lemma deleteOrder_restores_iff_delivering_witness :
  findOrder 1 dbC2 = Some orderC2 /\
  let (s', r) := deleteOrder 1 dbC2 in r = S200 /\ stocks s' = stocks dbC2.
Proof.
  assert (Hf : findOrder 1 dbC2 = Some orderC2) by reflexivity.
  split; [exact Hf|].
  destruct (deleteOrder 1 dbC2) as [s' r] eqn:Hd.
  destruct (TransitionClaims.deleteOrder_restores_iff_delivering 1 dbC2 orderC2 s' r Hf Hd)
    as [H _].
  destruct (H ltac:(discriminate)) as [Hr [_ Hs]]. split; assumption.
Defined.

End ConcreteRuns.

(** ** Variant generation *)

Module GenerationFacts.
Import HierarchicalStockService.
Module SMS := StockManagementService.
Import SpecTerms.

Lemma hash_eqb_iff (a b : list nat) : hash_eqb a b = true <-> a = b.
Proof.
  revert b. induction a as [|x a IH]; intros [|y b]; simpl; try (split; congruence).
  rewrite andb_true_iff, Nat.eqb_eq, IH. split.
  - intros [-> ->]. reflexivity.
  - intros H. injection H as -> ->. auto.
Qed.

Lemma byHash_same pid h1 h2 v :
  byHash pid h1 v = true -> byHash pid h2 v = true -> h1 = h2.
Proof.
  unfold byHash. rewrite !andb_true_iff.
  destruct (v_optionHash v) as [h|]; [|intros [_ H]; discriminate].
  intros [_ H1] [_ H2]. apply hash_eqb_iff in H1, H2. congruence.
Qed.

Lemma byHash_updateVariantRow pid h id c v :
  byHash pid h (updateVariantRow id c v) = byHash pid h v.
Proof. unfold updateVariantRow. destruct (Nat.eqb (v_id v) id); reflexivity. Qed.

Lemma vkey_updateVariantRow id c v : vkey (updateVariantRow id c v) = vkey v.
Proof. unfold updateVariantRow. destruct (Nat.eqb (v_id v) id); reflexivity. Qed.

Lemma priceDrifted_refl q : priceDrifted q q = false.
Proof.
  unfold priceDrifted. apply negb_false_iff, Qle_bool_iff.
  unfold Qminus. rewrite Qplus_opp_r. discriminate.
Qed.

Lemma find_app {A} (p : A -> bool) l1 l2 :
  find p (l1 ++ l2) = match find p l1 with Some x => Some x | None => find p l2 end.
Proof.
  induction l1 as [|x l1 IH]; simpl; [reflexivity|]. destruct (p x); auto.
Qed.

Lemma find_map_same {A} (p : A -> bool) (f : A -> A) l :
  (forall x, p (f x) = p x) -> find p (map f l) = option_map f (find p l).
Proof.
  intros Hp. induction l as [|x l IH]; simpl; [reflexivity|].
  rewrite Hp. destruct (p x); auto.
Qed.

Lemma NoDup_map_inj {A B} (f : A -> B) l x y :
  NoDup (map f l) -> In x l -> In y l -> f x = f y -> x = y.
Proof.
  induction l as [|a l IH]; simpl; [tauto|].
  intros Hnd Hx Hy Hf. inversion Hnd as [|b m Hnin Hnd' Heq]; subst.
  destruct Hx as [<- | Hx], Hy as [<- | Hy]; auto.
  - exfalso. apply Hnin. rewrite Hf. apply in_map. exact Hy.
  - exfalso. apply Hnin. rewrite <- Hf. apply in_map. exact Hx.
Qed.

Lemma NoDup_snoc {A} (l : list A) x : NoDup l -> ~ In x l -> NoDup (l ++ [x]).
Proof.
  induction l as [|a l IH]; simpl; intros Hnd Hx.
  - constructor; [tauto | constructor].
  - inversion Hnd; subst. constructor.
    + rewrite in_app_iff. simpl. intuition.
    + apply IH; tauto.
Qed.

Lemma fold_max_bound (l : list Variant) m :
  m <= fold_left (fun m v => Nat.max m (v_id v)) l m /\
  forall v, In v l -> v_id v <= fold_left (fun m v => Nat.max m (v_id v)) l m.
Proof.
  revert m. induction l as [|v l IH]; intros m; simpl; [split; [lia | tauto]|].
  destruct (IH (Nat.max m (v_id v))) as [H1 H2]. split; [lia|].
  intros w [<- | Hw]; [lia | auto].
Qed.

Lemma freshVariantId_fresh s : ~ In (freshVariantId s) (map v_id (db_variants s)).
Proof.
  unfold freshVariantId. rewrite in_map_iff. intros [v [Hv Hin]].
  destruct (fold_max_bound (db_variants s) 0) as [_ H]. specialize (H v Hin). lia.
Qed.

(** The outcomes of one [createOrUpdateVariant]. *)
Lemma createOrUpdateVariant_eq pid c s :
  createOrUpdateVariant pid c s =
  match find (byHash pid (c_optionHash c)) (db_variants s) with
  | Some ex =>
      if needsUpdate ex c then
        if nameTaken pid (c_name c) (Some (v_id ex)) s then (s, Fail ErrUnique)
        else (set_variants s (map (updateVariantRow (v_id ex) c) (db_variants s)),
              Ok (Updated, v_id ex))
      else (s, Ok (Skipped, v_id ex))
  | None =>
      if nameTaken pid (c_name c) None s then (s, Fail ErrUnique)
      else (set_variants s (db_variants s ++ [newVariantRow (freshVariantId s) pid c]),
            Ok (Created, freshVariantId s))
  end.
Proof.
  unfold createOrUpdateVariant, bind, get, ret, throw, modify.
  destruct (find (byHash pid (c_optionHash c)) (db_variants s)) as [ex|].
  - destruct (needsUpdate ex c); [destruct (nameTaken pid (c_name c) (Some (v_id ex)) s)|];
      reflexivity.
  - destruct (nameTaken pid (c_name c) None s); reflexivity.
Qed.

Ltac cou_cases pid c s :=
  rewrite (createOrUpdateVariant_eq pid c s);
  destruct (find (byHash pid (c_optionHash c)) (db_variants s)) as [ex|] eqn:Efind;
  [ destruct (needsUpdate ex c) eqn:Eupd;
    [ destruct (nameTaken pid (c_name c) (Some (v_id ex)) s) | ]
  | destruct (nameTaken pid (c_name c) None s) ].

Lemma cou_tables pid c s :
  let s' := fst (createOrUpdateVariant pid c s) in
  db_products s' = db_products s /\ db_groups s' = db_groups s /\
  db_orders s' = db_orders s /\ db_drivers s' = db_drivers s.
Proof. cbv zeta. cou_cases pid c s; repeat split. Qed.

Lemma cou_frame pid c s :
  exists extra,
    map vkey (db_variants (fst (createOrUpdateVariant pid c s))) =
      map vkey (db_variants s) ++ map vkey extra /\
    forall v, In v extra -> v_stock v = 0%Z /\ v_productId v = pid.
Proof.
  cou_cases pid c s; simpl;
    try (exists []; split; [rewrite app_nil_r; reflexivity | simpl; tauto]).
  - exists []. split; [|simpl; tauto]. rewrite app_nil_r, map_map.
    apply map_ext. apply vkey_updateVariantRow.
  - exists [newVariantRow (freshVariantId s) pid c]. split.
    + rewrite map_app. reflexivity.
    + intros v [<- | []]. split; reflexivity.
Qed.

Lemma cou_nodup pid c s :
  NoDup (map v_id (db_variants s)) ->
  NoDup (map v_id (db_variants (fst (createOrUpdateVariant pid c s)))).
Proof.
  intros Hnd. cou_cases pid c s; simpl; try exact Hnd.
  - rewrite map_map.
    replace (map (fun x => v_id (updateVariantRow (v_id ex) c x)) (db_variants s))
      with (map v_id (db_variants s)); [exact Hnd|].
    apply map_ext. intros v. unfold updateVariantRow.
    destruct (Nat.eqb (v_id v) (v_id ex)); reflexivity.
  - rewrite map_app. apply NoDup_snoc; [exact Hnd | apply freshVariantId_fresh].
Qed.

Lemma cou_fail pid c s s' e :
  createOrUpdateVariant pid c s = (s', Fail e) -> s' = s.
Proof. cou_cases pid c s; intros H; injection H; auto; discriminate. Qed.

(** A successful step settles its own combination. *)
Lemma cou_settles pid c s s' a :
  createOrUpdateVariant pid c s = (s', Ok a) -> settled pid c s'.
Proof.
  cou_cases pid c s; intros H; try discriminate; injection H as <- _; unfold settled; simpl.
  - rewrite find_map_same by (intros; apply byHash_updateVariantRow).
    rewrite Efind. simpl. unfold updateVariantRow. rewrite Nat.eqb_refl.
    eexists. split; [reflexivity|]. simpl. split; [reflexivity|]. split; [reflexivity|].
    apply priceDrifted_refl.
  - exists ex. split; [exact Efind|].
    unfold needsUpdate in Eupd. apply orb_false_iff in Eupd as [Eupd Ep].
    apply orb_false_iff in Eupd as [En Epath].
    apply negb_false_iff, String.eqb_eq in En, Epath. auto.
  - rewrite find_app, Efind. simpl.
    assert (Hb : byHash pid (c_optionHash c) (newVariantRow (freshVariantId s) pid c) = true).
    { unfold byHash, newVariantRow. simpl. rewrite Nat.eqb_refl. simpl.
      apply hash_eqb_iff. reflexivity. }
    rewrite Hb. eexists. split; [reflexivity|]. simpl.
    split; [reflexivity|]. split; [reflexivity|]. apply priceDrifted_refl.
Qed.

(** A step on another hash keeps a settled combination settled. *)
Lemma cou_persist pid c c' s :
  NoDup (map v_id (db_variants s)) -> settled pid c s ->
  c_optionHash c <> c_optionHash c' ->
  settled pid c (fst (createOrUpdateVariant pid c' s)).
Proof.
  intros Hnd [v [Hv Hfields]] Hh.
  cou_cases pid c' s; simpl; try (exists v; split; [exact Hv | exact Hfields]).
  - unfold settled. simpl.
    rewrite find_map_same by (intros; apply byHash_updateVariantRow).
    rewrite Hv. simpl.
    assert (Hne : Nat.eqb (v_id v) (v_id ex) = false).
    { apply Nat.eqb_neq. intros Hid.
      destruct (find_some _ _ Hv) as [Hin Hb].
      destruct (find_some _ _ Efind) as [Hin' Hb'].
      assert (Heq : v = ex) by exact (NoDup_map_inj v_id _ _ _ Hnd Hin Hin' Hid).
      subst ex. exact (Hh (byHash_same _ _ _ _ Hb Hb')). }
    unfold updateVariantRow. rewrite Hne. exists v. split; [reflexivity | exact Hfields].
  - unfold settled. simpl. rewrite find_app, Hv. exists v. split; [reflexivity | exact Hfields].
Qed.

(** A settled combination is skipped without writing. *)
Lemma cou_skip pid c s :
  settled pid c s -> exists id, createOrUpdateVariant pid c s = (s, Ok (Skipped, id)).
Proof.
  intros [v [Hv [Hn [Hp Hd]]]]. rewrite createOrUpdateVariant_eq, Hv.
  assert (E : needsUpdate v c = false).
  { unfold needsUpdate. rewrite Hn, Hp, Hd, !String.eqb_refl. reflexivity. }
  rewrite E. exists (v_id v). reflexivity.
Qed.

Lemma processCombinations_cons pid c cs r s :
  processCombinations pid (c :: cs) r s =
  match createOrUpdateVariant pid c s with
  | (s', Ok (a, id)) => processCombinations pid cs (pushResult r a id) s'
  | (s', Fail _) =>
      processCombinations pid cs
        (mkResults (created r) (updated r) (skipped r) (errors r ++ [c_name c])) s'
  end.
Proof. reflexivity. Qed.

Ltac pc_step pid c s :=
  rewrite processCombinations_cons;
  destruct (createOrUpdateVariant pid c s) as [s' [[a id]|e]] eqn:Estep.

Lemma pc_tables pid cs : forall r s s1 x,
  processCombinations pid cs r s = (s1, x) ->
  db_products s1 = db_products s /\ db_groups s1 = db_groups s /\
  db_orders s1 = db_orders s /\ db_drivers s1 = db_drivers s.
Proof.
  induction cs as [|c cs IH]; intros r s s1 x.
  - simpl. unfold ret. intros H. injection H as <- _. repeat split.
  - pc_step pid c s; intros H; destruct (IH _ _ _ _ H) as [A [B [C D]]];
      pose proof (cou_tables pid c s) as T; rewrite Estep in T; simpl in T;
      destruct T as [A' [B' [C' D']]]; repeat split; congruence.
Qed.

Lemma pc_frame pid cs : forall r s s1 x,
  processCombinations pid cs r s = (s1, x) ->
  exists extra,
    map vkey (db_variants s1) = map vkey (db_variants s) ++ map vkey extra /\
    forall v, In v extra -> v_stock v = 0%Z /\ v_productId v = pid.
Proof.
  induction cs as [|c cs IH]; intros r s s1 x.
  - simpl. unfold ret. intros H. injection H as <- _.
    exists []. split; [rewrite app_nil_r; reflexivity | simpl; tauto].
  - pc_step pid c s; intros H; destruct (IH _ _ _ _ H) as [e2 [He2 Hs2]];
      destruct (cou_frame pid c s) as [e1 [He1 Hs1]]; rewrite Estep in He1; simpl in He1;
      exists (e1 ++ e2); (split;
        [rewrite He2, He1, map_app, app_assoc; reflexivity
        | intros v Hv; apply in_app_iff in Hv as [Hv | Hv]; auto]).
Qed.

Lemma pc_nodup pid cs : forall r s s1 x,
  NoDup (map v_id (db_variants s)) ->
  processCombinations pid cs r s = (s1, x) ->
  NoDup (map v_id (db_variants s1)).
Proof.
  induction cs as [|c cs IH]; intros r s s1 x Hnd.
  - simpl. unfold ret. intros H. injection H as <- _. exact Hnd.
  - pose proof (cou_nodup pid c s Hnd) as Hnd'.
    pc_step pid c s; simpl in Hnd'; intros H; exact (IH _ _ _ _ Hnd' H).
Qed.

Lemma pc_persist pid c cs : forall r s s1 x,
  NoDup (map v_id (db_variants s)) -> settled pid c s ->
  ~ In (c_optionHash c) (map c_optionHash cs) ->
  processCombinations pid cs r s = (s1, x) ->
  settled pid c s1.
Proof.
  induction cs as [|c' cs IH]; intros r s s1 x Hnd Hset Hnin.
  - simpl. unfold ret. intros H. injection H as <- _. exact Hset.
  - assert (Hh : c_optionHash c <> c_optionHash c') by (intros E; apply Hnin; left; auto).
    assert (Hnin' : ~ In (c_optionHash c) (map c_optionHash cs)) by (intros E; apply Hnin; right; auto).
    pose proof (cou_persist pid c c' s Hnd Hset Hh) as Hset'.
    pose proof (cou_nodup pid c' s Hnd) as Hnd'.
    pc_step pid c' s; simpl in Hset', Hnd'; intros H; exact (IH _ _ _ _ Hnd' Hset' Hnin' H).
Qed.

Lemma pc_errors pid cs : forall r s s1 r1,
  processCombinations pid cs r s = (s1, Ok r1) -> exists extra, errors r1 = errors r ++ extra.
Proof.
  induction cs as [|c cs IH]; intros r s s1 r1.
  - simpl. unfold ret. intros H. injection H as _ <-. exists []. rewrite app_nil_r. reflexivity.
  - pc_step pid c s; intros H; destruct (IH _ _ _ _ H) as [extra Hx].
    + exists extra. rewrite Hx. destruct a; reflexivity.
    + exists ([c_name c] ++ extra). rewrite Hx. simpl. rewrite <- app_assoc. reflexivity.
Qed.

(** A pass that reports no error settles every combination it processed. *)
Lemma pc_settles pid cs : forall r s s1 r1,
  NoDup (map v_id (db_variants s)) -> NoDup (map c_optionHash cs) ->
  processCombinations pid cs r s = (s1, Ok r1) -> errors r1 = errors r ->
  forall c, In c cs -> settled pid c s1.
Proof.
  induction cs as [|c cs IH]; intros r s s1 r1 Hnd Hhs H Herr; [simpl; tauto|].
  inversion Hhs as [|h hs Hnin Hhs' Eh]; subst.
  pose proof (cou_nodup pid c s Hnd) as Hnd'.
  revert H. pc_step pid c s; intros H; simpl in Hnd'.
  - assert (Herr' : errors r1 = errors (pushResult r a id)) by (rewrite Herr; destruct a; reflexivity).
    intros c0 [<- | Hin].
    + exact (pc_persist pid c cs _ _ _ _ Hnd' (cou_settles _ _ _ _ _ Estep) Hnin H).
    + exact (IH _ _ _ _ Hnd' Hhs' H Herr' c0 Hin).
  - exfalso. destruct (pc_errors _ _ _ _ _ _ H) as [extra Hx]. simpl in Hx.
    rewrite Herr in Hx. apply (f_equal (@List.length string)) in Hx.
    rewrite !length_app in Hx. simpl in Hx. lia.
Qed.

(** A pass over settled combinations skips them all and writes nothing. *)
Lemma pc_rerun pid cs : forall r s,
  (forall c, In c cs -> settled pid c s) ->
  exists ids,
    processCombinations pid cs r s =
      (s, Ok (mkResults (created r) (updated r) (skipped r ++ ids) (errors r))) /\
    List.length ids = List.length cs.
Proof.
  induction cs as [|c cs IH]; intros r s Hset.
  - exists []. rewrite app_nil_r. destruct r; split; reflexivity.
  - destruct (cou_skip pid c s (Hset c (or_introl eq_refl))) as [id Hid].
    rewrite processCombinations_cons, Hid.
    destruct (IH (pushResult r Skipped id) s (fun c0 H => Hset c0 (or_intror H)))
      as [ids [Hr Hl]].
    exists (id :: ids). rewrite Hr. simpl. rewrite <- app_assoc. split; [reflexivity|].
    rewrite Hl. reflexivity.
Qed.

(** The combinations do not read the [path] column. *)
Lemma filter_map_comm {A} (f : A -> A) (P : A -> bool) l :
  (forall x, P (f x) = P x) -> filter P (map f l) = map f (filter P l).
Proof.
  intros HP. induction l as [|a l IH]; simpl; [reflexivity|].
  rewrite HP. destruct (P a); simpl; rewrite IH; reflexivity.
Qed.

Lemma flat_map_map_comm {A B C} (f : B -> list C) (g : A -> B) l :
  flat_map f (map g l) = flat_map (fun x => f (g x)) l.
Proof. induction l as [|a l IH]; simpl; [reflexivity|]. rewrite IH. reflexivity. Qed.

Lemma existsb_map_comm {A B} (p : B -> bool) (g : A -> B) l :
  existsb p (map g l) = existsb (fun x => p (g x)) l.
Proof. induction l as [|a l IH]; simpl; [reflexivity|]. rewrite IH. reflexivity. Qed.

Lemma groupsAtLevel_erase groups lvl :
  groupsAtLevel (map erasePath groups) lvl = map erasePath (groupsAtLevel groups lvl).
Proof. apply filter_map_comm. reflexivity. Qed.

Lemma createCombinationObject_erase path :
  createCombinationObject (map (fun it => (erasePath (fst it), snd it)) path) =
  createCombinationObject path.
Proof.
  unfold createCombinationObject. rewrite !map_map. reflexivity.
Qed.

Lemma generateCombinationsRecursive_erase groups fuel : forall lvl path par,
  generateCombinationsRecursive (map erasePath groups) fuel lvl
    (map (fun it => (erasePath (fst it), snd it)) path) par =
  generateCombinationsRecursive groups fuel lvl path par.
Proof.
  induction fuel as [|f IH]; intros lvl path par.
  - destruct path; simpl; [reflexivity|].
    rewrite <- (createCombinationObject_erase (p :: path)). reflexivity.
  - cbn [generateCombinationsRecursive].
    rewrite !groupsAtLevel_erase, filter_map_comm by reflexivity.
    rewrite flat_map_map_comm. apply flat_map_ext. intros group.
    cbn [g_options erasePath]. apply flat_map_ext. intros option.
    rewrite existsb_map_comm. cbn [g_id erasePath g_parentGroupId].
    replace (map (fun it => (erasePath (fst it), snd it)) path ++ [(erasePath group, option)])
      with (map (fun it => (erasePath (fst it), snd it)) (path ++ [(group, option)]))
      by (rewrite map_app; reflexivity).
    destruct (existsb _ _).
    + apply IH.
    + rewrite createCombinationObject_erase. reflexivity.
Qed.

Lemma maxLevel_erase groups : maxLevel (map erasePath groups) = maxLevel groups.
Proof.
  unfold maxLevel. generalize 0. induction groups as [|g gs IH]; intros m; simpl;
    [reflexivity | apply IH].
Qed.

Lemma generateAllOptionCombinations_erase groups :
  generateAllOptionCombinations (map erasePath groups) = generateAllOptionCombinations groups.
Proof.
  unfold generateAllOptionCombinations. destruct groups as [|g gs]; [reflexivity|].
  rewrite maxLevel_erase. apply (generateCombinationsRecursive_erase (g :: gs) _ 1 [] None).
Qed.

Lemma productOptionGroups_erase pid s1 s2 :
  map erasePath (db_groups s1) = map erasePath (db_groups s2) ->
  generateAllOptionCombinations (productOptionGroups pid s1) =
  generateAllOptionCombinations (productOptionGroups pid s2).
Proof.
  intros H.
  assert (Hview : forall s, map erasePath (productOptionGroups pid s) =
    map (fun g => mkGroup (g_id g) (g_productId g) (g_name g) (g_level g)
                    (g_parentGroupId g) (g_isParent g) (g_isActive g) (g_path g)
                    (filter opt_isAvailable (g_options g)))
      (filter (fun g => Nat.eqb (g_productId g) pid && g_isActive g)
         (map erasePath (db_groups s)))).
  { intros s. unfold productOptionGroups. rewrite filter_map_comm by reflexivity.
    rewrite !map_map. reflexivity. }
  rewrite <- (generateAllOptionCombinations_erase (productOptionGroups pid s1)),
    <- (generateAllOptionCombinations_erase (productOptionGroups pid s2)), !Hview, H.
  reflexivity.
Qed.

(** [buildGroupPath] does not read the [path] column. *)
Lemma find_map_erase (all : list OptionGroup) pid :
  find (fun x => Nat.eqb (g_id x) pid) (map erasePath all) =
  option_map erasePath (find (fun x => Nat.eqb (g_id x) pid) all).
Proof.
  induction all as [|g gs IH]; simpl; [reflexivity|].
  destruct (Nat.eqb (g_id g) pid); [reflexivity | exact IH].
Qed.

Lemma groupPathLoop_erase fuel : forall all g path,
  groupPathLoop fuel (map erasePath all) (erasePath g) path = groupPathLoop fuel all g path.
Proof.
  induction fuel as [|f IH]; intros all g path; simpl; [reflexivity|].
  destruct (g_parentGroupId g) as [pid|]; [|reflexivity].
  rewrite find_map_erase. destruct (find _ all) as [pg|]; simpl; [|reflexivity].
  apply IH.
Qed.

Lemma buildGroupPath_erase fuel g all :
  buildGroupPath fuel (erasePath g) (map erasePath all) = buildGroupPath fuel g all.
Proof.
  unfold buildGroupPath. change (g_name (erasePath g)) with (g_name g).
  rewrite groupPathLoop_erase. reflexivity.
Qed.

Lemma buildGroupPath_same fuel g1 g2 all1 all2 :
  erasePath g1 = erasePath g2 -> map erasePath all1 = map erasePath all2 ->
  buildGroupPath fuel g1 all1 = buildGroupPath fuel g2 all2.
Proof.
  intros H1 H2. rewrite <- (buildGroupPath_erase _ g1 all1),
    <- (buildGroupPath_erase _ g2 all2), H1, H2. reflexivity.
Qed.

(** [sortByLevel] is a permutation and commutes with maps that keep levels. *)
Lemma insertByLevel_perm g l : Permutation (insertByLevel g l) (g :: l).
Proof.
  induction l as [|h t IH]; simpl; [reflexivity|].
  destruct (Nat.leb (g_level g) (g_level h)); [reflexivity|].
  eapply perm_trans; [apply perm_skip, IH | apply perm_swap].
Qed.

Lemma sortByLevel_perm l : Permutation (sortByLevel l) l.
Proof.
  induction l as [|h t IH]; simpl; [reflexivity|].
  eapply perm_trans; [apply insertByLevel_perm | apply perm_skip, IH].
Qed.

Lemma insertByLevel_map (f : OptionGroup -> OptionGroup) g l :
  (forall x, g_level (f x) = g_level x) ->
  insertByLevel (f g) (map f l) = map f (insertByLevel g l).
Proof.
  intros Hf. induction l as [|h t IH]; simpl; [reflexivity|].
  rewrite !Hf. destruct (Nat.leb (g_level g) (g_level h)); simpl; [reflexivity|].
  rewrite IH. reflexivity.
Qed.

Lemma sortByLevel_map (f : OptionGroup -> OptionGroup) l :
  (forall x, g_level (f x) = g_level x) ->
  sortByLevel (map f l) = map f (sortByLevel l).
Proof.
  intros Hf. unfold sortByLevel. induction l as [|h t IH]; simpl; [reflexivity|].
  rewrite IH. apply insertByLevel_map, Hf.
Qed.

Lemma in_snapshot pid T g :
  In g (sortByLevel (filter (fun g => Nat.eqb (g_productId g) pid) T)) ->
  In g T /\ g_productId g = pid.
Proof.
  intros H. apply (Permutation_in _ (sortByLevel_perm _)), filter_In in H.
  destruct H as [H E]. apply Nat.eqb_eq in E. auto.
Qed.

Lemma has_app_single l x y : SMS.has (l ++ [y]) x = SMS.has l x || Nat.eqb x y.
Proof. unfold SMS.has. rewrite existsb_app. simpl. rewrite orb_false_r. reflexivity. Qed.

Lemma set_groups_self s : set_groups s (db_groups s) = s.
Proof. destruct s. reflexivity. Qed.

(** The writes of [writeGroupPaths]: after the groups [done] have been
    visited, each row of [T] whose id was visited carries the path computed
    for it, and every other row is as it was. *)
Lemma writeGroupPaths_effect all T : forall gs done s s' b,
  NoDup (map g_id T) -> NoDup (map g_id (done ++ gs)) -> incl gs T ->
  db_groups s = map (fun r => if SMS.has (map g_id done) (g_id r)
                              then match buildGroupPath (walkBound all) r all with
                                   | Some p => with_path r p | None => r end
                              else r) T ->
  writeGroupPaths all gs s = (s', Ok b) ->
  s' = set_groups s (db_groups s') /\
  exists ids, db_groups s' =
    map (fun r => if SMS.has ids (g_id r)
                  then match buildGroupPath (walkBound all) r all with
                       | Some p => with_path r p | None => r end
                  else r) T /\
    (b = true -> ids = map g_id (done ++ gs) /\
                 forall g, In g gs -> buildGroupPath (walkBound all) g all <> None).
Proof.
  induction gs as [|g gs IH]; intros done s s' b HT Hnd Hinc Hs Hrun.
  - simpl in Hrun. injection Hrun as <- <-. split; [symmetry; apply set_groups_self|].
    exists (map g_id done). split; [exact Hs|]. intros _. rewrite app_nil_r. simpl. tauto.
  - cbn [writeGroupPaths] in Hrun.
    destruct (buildGroupPath (walkBound all) g all) as [p|] eqn:Ep.
    2:{ unfold ret in Hrun. injection Hrun as <- <-. split; [symmetry; apply set_groups_self|].
        exists (map g_id done). split; [exact Hs|]. discriminate. }
    assert (HgT : In g T) by (apply Hinc; left; reflexivity).
    assert (Hfresh : SMS.has (map g_id done) (g_id g) = false).
    { rewrite map_app in Hnd. apply NoDup_remove_2 in Hnd.
      destruct (SMS.has (map g_id done) (g_id g)) eqn:E; [|reflexivity].
      exfalso. apply Hnd. apply in_or_app. left. unfold SMS.has in E.
      apply existsb_exists in E. destruct E as [x [Hx E]]. apply Nat.eqb_eq in E.
      subst x. exact Hx. }
    set (s0 := fst ((if pathDiffers (g_path g) p
                     then modify (setGroupPath (g_id g) p) else ret tt) s)).
    assert (Hs0 : s0 = set_groups s (db_groups s0) /\
      db_groups s0 =
        map (fun r => if SMS.has (map g_id (done ++ [g])) (g_id r)
                      then match buildGroupPath (walkBound all) r all with
                           | Some p => with_path r p | None => r end
                      else r) T).
    { assert (Hrow : forall r, In r T -> g_id r = g_id g -> r = g)
        by (intros r Hr E; exact (NoDup_map_inj g_id T r g HT Hr HgT E)).
      unfold s0. destruct (pathDiffers (g_path g) p) eqn:Ed;
        unfold modify, ret, setGroupPath; simpl.
      - split; [reflexivity|]. rewrite Hs, map_map. apply map_ext_in. intros r Hr.
        rewrite map_app; cbn [map]; rewrite has_app_single.
        destruct (Nat.eqb (g_id r) (g_id g)) eqn:E.
        + apply Nat.eqb_eq in E. pose proof (Hrow r Hr E). subst r.
          rewrite Hfresh, Ep, Nat.eqb_refl. reflexivity.
        + rewrite orb_false_r. destruct (SMS.has (map g_id done) (g_id r)); [|rewrite E; reflexivity].
          destruct (buildGroupPath (walkBound all) r all); simpl; rewrite E; reflexivity.
      - split; [symmetry; apply set_groups_self|]. rewrite Hs. apply map_ext_in. intros r Hr.
        rewrite map_app; cbn [map]; rewrite has_app_single.
        destruct (Nat.eqb (g_id r) (g_id g)) eqn:E.
        + apply Nat.eqb_eq in E. pose proof (Hrow r Hr E). subst r.
          rewrite Hfresh, Ep, orb_true_r.
          unfold pathDiffers in Ed. destruct (g_path g) as [q|] eqn:Eq; [|discriminate].
          apply negb_false_iff, String.eqb_eq in Ed. subst q.
          destruct g; simpl in *; subst; reflexivity.
        + rewrite orb_false_r. reflexivity. }
    destruct Hs0 as [Hs0s Hs0g].
    assert (Hrun' : writeGroupPaths all gs s0 = (s', Ok b)).
    { rewrite <- Hrun. unfold s0, bind.
      destruct (pathDiffers (g_path g) p); reflexivity. }
    assert (Hnd' : NoDup (map g_id ((done ++ [g]) ++ gs))) by (rewrite <- app_assoc; exact Hnd).
    destruct (IH (done ++ [g]) s0 s' b HT Hnd' (fun x Hx => Hinc x (or_intror Hx)) Hs0g Hrun')
      as [Hss [ids [Hids Hb]]].
    split; [rewrite Hss, Hs0s; destruct s; reflexivity|].
    exists ids. split; [exact Hids|]. intros Hbt. destruct (Hb Hbt) as [Hi Hg].
    split; [rewrite Hi, <- app_assoc; reflexivity|].
    intros x [<- | Hx]; [congruence | exact (Hg x Hx)].
Qed.

Lemma erasePath_fixed all r :
  erasePath (match buildGroupPath (walkBound all) r all with
             | Some p => with_path r p | None => r end) = erasePath r.
Proof. destruct (buildGroupPath (walkBound all) r all); reflexivity. Qed.

(** [updateOptionGroupPaths] writes the [path] column only; when it
    returns, each group of the product carries the path computed from the
    rows it read. *)
Lemma updateOptionGroupPaths_effect pid s s' b :
  NoDup (map g_id (db_groups s)) ->
  updateOptionGroupPaths pid s = (s', Ok b) ->
  s' = set_groups s (db_groups s') /\
  map erasePath (db_groups s') = map erasePath (db_groups s) /\
  (b = true ->
   let all := sortByLevel (filter (fun g => Nat.eqb (g_productId g) pid) (db_groups s)) in
   forall r, In r (db_groups s') -> g_productId r = pid ->
     exists p, buildGroupPath (walkBound all) r all = Some p /\ g_path r = Some p).
Proof.
  intros HT Hrun. unfold updateOptionGroupPaths, bind, get in Hrun.
  set (all := sortByLevel (filter (fun g => Nat.eqb (g_productId g) pid) (db_groups s))) in *.
  assert (Hnd : NoDup (map g_id ([] ++ all))).
  { simpl. apply (Permutation_NoDup (Permutation_map g_id (Permutation_sym (sortByLevel_perm _)))).
    clear -HT. induction (db_groups s) as [|g gs IH]; simpl in *; [constructor|].
    inversion HT as [|x l Hn Hnd]; subst.
    destruct (Nat.eqb (g_productId g) pid); simpl; [|exact (IH Hnd)].
    constructor; [|exact (IH Hnd)]. intros Hin. apply Hn.
    apply in_map_iff in Hin. destruct Hin as [x [Ex Hx]]. apply filter_In in Hx.
    rewrite <- Ex. apply in_map. tauto. }
  assert (Hinc : incl all (db_groups s)) by (intros x Hx; exact (proj1 (in_snapshot _ _ _ Hx))).
  assert (Hs : db_groups s = map (fun r => if SMS.has (map g_id []) (g_id r)
                 then match buildGroupPath (walkBound all) r all with
                      | Some p => with_path r p | None => r end else r) (db_groups s))
    by (simpl; rewrite map_id; reflexivity).
  destruct (writeGroupPaths_effect all (db_groups s) all [] s s' b HT Hnd Hinc Hs Hrun)
    as [Hss [ids [Hids Hb]]].
  split; [exact Hss|]. split.
  { rewrite Hids, map_map. apply map_ext. intros r.
    destruct (SMS.has ids (g_id r)); [apply erasePath_fixed | reflexivity]. }
  intros Hbt all' r Hr Hpid. destruct (Hb Hbt) as [Hi Hg]. subst ids. cbn [app] in Hids.
  rewrite Hids in Hr. apply in_map_iff in Hr. destruct Hr as [r0 [<- Hr0]].
  assert (Hin : In r0 all).
  { apply (Permutation_in _ (Permutation_sym (sortByLevel_perm _))), filter_In.
    split; [exact Hr0|]. apply Nat.eqb_eq.
    destruct (SMS.has (map g_id all) (g_id r0)); [|exact Hpid].
    rewrite <- Hpid. destruct (buildGroupPath (walkBound all) r0 all); reflexivity. }
  assert (Hhas : SMS.has (map g_id all) (g_id r0) = true).
  { unfold SMS.has. apply existsb_exists. exists (g_id r0). split; [apply in_map; exact Hin|].
    apply Nat.eqb_refl. }
  rewrite Hhas. destruct (buildGroupPath (walkBound all) r0 all) as [p|] eqn:Ep.
  - exists p. split; [|reflexivity].
    rewrite <- Ep. apply buildGroupPath_same; reflexivity.
  - exfalso. exact (Hg r0 Hin Ep).
Qed.

(** When every group of the product already carries the path computed for
    it, [updateOptionGroupPaths] writes nothing. *)
Lemma writeGroupPaths_idle all gs s :
  (forall g, In g gs -> exists p, buildGroupPath (walkBound all) g all = Some p /\
                                  g_path g = Some p) ->
  writeGroupPaths all gs s = (s, Ok true).
Proof.
  induction gs as [|g gs IH]; intros H; simpl; [reflexivity|].
  destruct (H g (or_introl eq_refl)) as [p [Ep Eq]]. rewrite Ep, Eq.
  unfold pathDiffers. rewrite String.eqb_refl. simpl.
  apply IH. intros x Hx. exact (H x (or_intror Hx)).
Qed.

Lemma updateOptionGroupPaths_idle pid s :
  (let all := sortByLevel (filter (fun g => Nat.eqb (g_productId g) pid) (db_groups s)) in
   forall r, In r (db_groups s) -> g_productId r = pid ->
     exists p, buildGroupPath (walkBound all) r all = Some p /\ g_path r = Some p) ->
  updateOptionGroupPaths pid s = (s, Ok true).
Proof.
  intros H. unfold updateOptionGroupPaths, bind, get. apply writeGroupPaths_idle.
  intros g Hg. destruct (in_snapshot _ _ _ Hg) as [Hin Hp]. exact (H g Hin Hp).
Qed.

(** The snapshot [updateOptionGroupPaths] reads, up to the [path] column. *)
Lemma snapshot_erase pid T1 T2 :
  map erasePath T1 = map erasePath T2 ->
  map erasePath (sortByLevel (filter (fun g => Nat.eqb (g_productId g) pid) T1)) =
  map erasePath (sortByLevel (filter (fun g => Nat.eqb (g_productId g) pid) T2)).
Proof.
  intros H. rewrite <- !sortByLevel_map by reflexivity.
  rewrite <- !filter_map_comm by reflexivity. rewrite H. reflexivity.
Qed.

(** The bound [walkBound] decides the [while] loop of [buildGroupPath]. *)
Lemma pigeonhole_nat {B} (D : forall x y : B, {x = y} + {x <> y}) (F : nat -> B) :
  forall N base L, (forall i, base <= i < base + N -> In (F i) L) -> List.length L < N ->
  exists i j, base <= i < j /\ j < base + N /\ F i = F j.
Proof.
  induction N as [|N IH]; intros base L HL Hlen; [lia|].
  destruct (in_dec D (F base) (map F (seq (S base) N))) as [Hin|Hnin].
  - apply in_map_iff in Hin. destruct Hin as [j [Ej Hj]]. apply in_seq in Hj.
    exists base, j. split; [lia|]. split; [lia|]. symmetry. exact Ej.
  - assert (Hb : In (F base) L) by (apply HL; lia).
    destruct (IH (S base) (remove D (F base) L)) as [i [j [Hij [Hj E]]]].
    + intros i Hi. apply in_in_remove.
      * intros E. apply Hnin. rewrite <- E. apply in_map, in_seq. lia.
      * apply HL. lia.
    + pose proof (remove_length_lt D L (F base) Hb). lia.
    + exists i, j. split; [lia|]. split; [lia|]. exact E.
Qed.

Lemma groupPathLoop_step f all x p :
  groupPathLoop (S f) all x p =
  match parentRow all x with
  | Some pg => groupPathLoop f all pg (g_name pg :: p)
  | None => Some p
  end.
Proof.
  unfold parentRow. simpl. destruct (g_parentGroupId x); [|reflexivity].
  destruct (find _ all); reflexivity.
Qed.

Lemma groupPathLoop_none all n : forall x p,
  groupPathLoop n all x p = None <-> walkFrom all n x <> None.
Proof.
  induction n as [|f IH]; intros x p; [simpl; split; congruence|].
  rewrite groupPathLoop_step. cbn [walkFrom].
  destruct (parentRow all x); [apply IH | split; congruence].
Qed.

Lemma groupPathLoop_mono all n : forall m x p r,
  groupPathLoop n all x p = Some r -> n <= m -> groupPathLoop m all x p = Some r.
Proof.
  induction n as [|f IH]; intros m x p r H Hle; [discriminate|].
  destruct m as [|m]; [lia|].
  rewrite groupPathLoop_step in H |- *. destruct (parentRow all x); [|exact H].
  apply (IH m _ _ _ H). lia.
Qed.

Lemma walkFrom_add all a : forall b x,
  walkFrom all (a + b) x = match walkFrom all a x with
                           | Some y => walkFrom all b y
                           | None => None
                           end.
Proof.
  induction a as [|a IH]; intros b x; [reflexivity|].
  cbn [walkFrom Nat.add]. destruct (parentRow all x); [apply IH | reflexivity].
Qed.

Lemma walkFrom_none_mono all i n x :
  walkFrom all i x = None -> i <= n -> walkFrom all n x = None.
Proof.
  intros H Hle. replace n with (i + (n - i)) by lia. rewrite walkFrom_add, H. reflexivity.
Qed.

Lemma walkFrom_in all k : forall x y, walkFrom all (S k) x = Some y -> In y all.
Proof.
  induction k as [|k IH]; intros x y H; cbn [walkFrom] in H;
    destruct (parentRow all x) as [p|] eqn:E; try discriminate.
  - injection H as <-. unfold parentRow in E.
    destruct (g_parentGroupId x); [|discriminate].
    apply find_some in E. tauto.
  - exact (IH p y H).
Qed.

Lemma walkFrom_same_parent all k y1 y2 :
  g_parentGroupId y1 = g_parentGroupId y2 -> walkFrom all (S k) y1 = walkFrom all (S k) y2.
Proof. intros E. cbn [walkFrom]. unfold parentRow. rewrite E. reflexivity. Qed.

(** A walk that exits at all exits within [S (length all)] iterations: the
    loop's next row depends on the current row's [parentGroupId] only, and
    a longer walk meets a [parentGroupId] twice and then repeats. *)
Lemma walk_exits_early all : forall m x,
  walkFrom all m x = None -> walkFrom all (S (List.length all)) x = None.
Proof.
  assert (D : forall a b : option nat, {a = b} + {a <> b}) by (decide equality; apply Nat.eq_dec).
  intros m. induction m as [m IH] using (well_founded_induction lt_wf). intros x Hm.
  destruct (walkFrom all (S (List.length all)) x) as [z|] eqn:Ez; [|reflexivity].
  assert (Halive : forall i, i <= S (List.length all) -> exists y, walkFrom all i x = Some y).
  { intros i Hi. destruct (walkFrom all i x) as [y|] eqn:Ey; [eauto|].
    rewrite (walkFrom_none_mono all i _ x Ey Hi) in Ez. discriminate. }
  assert (Hgt : S (List.length all) < m).
  { destruct (Nat.lt_ge_cases (S (List.length all)) m) as [H|H]; [exact H|].
    rewrite (walkFrom_none_mono all m _ x Hm H) in Ez. discriminate. }
  destruct (pigeonhole_nat D
              (fun i => match walkFrom all i x with Some y => g_parentGroupId y | None => None end)
              (S (List.length all)) 1 (map g_parentGroupId all)) as [i [j [Hij [Hj E]]]].
  { intros i Hi. assert (Hi' : i <= S (List.length all)) by lia.
    destruct (Halive i Hi') as [y Ey]. rewrite Ey. apply in_map.
    destruct i as [|i]; [lia|]. exact (walkFrom_in all i x y Ey). }
  { rewrite length_map. lia. }
  assert (Hi' : i <= S (List.length all)) by lia.
  assert (Hj' : j <= S (List.length all)) by lia.
  destruct (Halive i Hi') as [yi Ei]. destruct (Halive j Hj') as [yj Ej].
  rewrite Ei, Ej in E.
  destruct (m - j) as [|k] eqn:Ek; [lia|].
  assert (Hmj : walkFrom all m x = walkFrom all (S k) yj).
  { replace m with (j + S k) by lia. rewrite walkFrom_add, Ej. reflexivity. }
  rewrite <- Ez. apply (IH (i + S k)); [lia|].
  rewrite walkFrom_add, Ei, (walkFrom_same_parent all k yi yj E), <- Hmj. exact Hm.
Qed.

(** With [walkBound] iterations the loop of [buildGroupPath] has either
    exited, with the result any longer run gives, or it never exits. *)
Lemma groupPathLoop_decided all g path :
  (groupPathLoop (walkBound all) all g path = None ->
   forall fuel, groupPathLoop fuel all g path = None) /\
  (forall fuel, walkBound all <= fuel ->
   groupPathLoop fuel all g path = groupPathLoop (walkBound all) all g path).
Proof.
  assert (Hnone : groupPathLoop (walkBound all) all g path = None ->
                  forall fuel, groupPathLoop fuel all g path = None).
  { intros H fuel. apply groupPathLoop_none. intros Hw.
    apply groupPathLoop_none in H. apply H. exact (walk_exits_early all fuel g Hw). }
  split; [exact Hnone|]. intros fuel Hle.
  destruct (groupPathLoop (walkBound all) all g path) as [r|] eqn:E.
  - exact (groupPathLoop_mono all _ fuel g path r E Hle).
  - exact (Hnone eq_refl fuel).
Qed.

(** [generateVariantsForProduct] unfolded. *)
Lemma generateVariantsForProduct_eq pid s :
  generateVariantsForProduct pid s =
  match findProduct pid s with
  | None => (s, Fail ErrNotFound)
  | Some _ =>
      match generateAllOptionCombinations (productOptionGroups pid s) with
      | [] => (s, Ok NoCombinations)
      | c :: cs =>
          match processCombinations pid (c :: cs) (mkResults [] [] [] []) s with
          | (s', Ok r) =>
              match updateOptionGroupPaths pid s' with
              | (s'', Ok finished) => (s'', Ok (if finished then Results r else NeverReturns))
              | (s'', Fail e) => (s'', Fail e)
              end
          | (s', Fail e) => (s', Fail e)
          end
      end
  end.
Proof.
  unfold generateVariantsForProduct, bind, get, ret, throw.
  destruct (findProduct pid s); [|reflexivity].
  destruct (generateAllOptionCombinations (productOptionGroups pid s)); [reflexivity|].
  destruct (processCombinations _ _ _ s) as [s' [r|e]]; [|reflexivity].
  destruct (updateOptionGroupPaths pid s') as [s'' [f|e]]; reflexivity.
Qed.

End GenerationFacts.

Module GenerationClaims.
Import HierarchicalStockService.
Import SpecTerms.
Import GenerationFacts.

(** Claim C8, as the code does it.  A generation run keeps every existing
    variant row with its id, product, stock, hash and options, adds only
    rows of stock 0 that belong to the product, and changes the option
    groups in their [path] column only.  When the variant ids are distinct,
    the group ids are distinct and the combinations' hashes are distinct, a
    run that returns and reports no error leaves a database on which the
    next run creates and updates nothing, reports no error, reports every
    combination as skipped and writes nothing. *)
Theorem generation_rerun_skips_all :
  forall productId s s1 out1,
    NoDup (map v_id (db_variants s)) ->
    NoDup (map g_id (db_groups s)) ->
    NoDup (map c_optionHash (generateAllOptionCombinations (productOptionGroups productId s))) ->
    generateVariantsForProduct productId s = (s1, Ok out1) ->
    (exists extra,
       map vkey (db_variants s1) = map vkey (db_variants s) ++ map vkey extra /\
       forall v, In v extra -> v_stock v = 0%Z /\ v_productId v = productId) /\
    map erasePath (db_groups s1) = map erasePath (db_groups s) /\
    (forall r1, out1 = Results r1 -> errors r1 = [] ->
       exists r2, generateVariantsForProduct productId s1 = (s1, Ok (Results r2)) /\
         created r2 = [] /\ updated r2 = [] /\ errors r2 = [] /\
         List.length (skipped r2) =
           List.length (generateAllOptionCombinations (productOptionGroups productId s1))).
Proof.
  intros pid s s1 out1 Hnd Hgnd Hhs Hgen.
  rewrite generateVariantsForProduct_eq in Hgen.
  destruct (findProduct pid s) as [p|] eqn:Ep; [|discriminate].
  destruct (generateAllOptionCombinations (productOptionGroups pid s)) as [|c cs] eqn:Eg.
  { injection Hgen as <- <-. split; [|split; [reflexivity|]].
    - exists []. split; [rewrite app_nil_r; reflexivity | simpl; tauto].
    - intros r1 H. discriminate. }
  destruct (processCombinations pid (c :: cs) (mkResults [] [] [] []) s) as [s' [r1|e]]
    eqn:Epc; [|discriminate].
  destruct (updateOptionGroupPaths pid s') as [s'' [fin|e]] eqn:Eu; [|discriminate].
  injection Hgen as <- <-.
  destruct (pc_tables _ _ _ _ _ _ Epc) as [Hp [Hg _]].
  assert (Hgnd' : NoDup (map g_id (db_groups s'))) by (rewrite Hg; exact Hgnd).
  destruct (updateOptionGroupPaths_effect pid s' s'' fin Hgnd' Eu) as [Hss [Her Hfin]].
  assert (Hv : db_variants s'' = db_variants s') by (rewrite Hss; reflexivity).
  assert (Hp'' : db_products s'' = db_products s') by (rewrite Hss; reflexivity).
  split.
  { destruct (pc_frame _ _ _ _ _ _ Epc) as [extra [H1 H2]].
    exists extra. rewrite Hv. exact (conj H1 H2). }
  split; [rewrite Her, Hg; reflexivity|].
  intros r0 Hr0 Herr. destruct fin; [|discriminate]. injection Hr0 as <-.
  assert (Hset : forall c0, In c0 (c :: cs) -> settled pid c0 s'').
  { intros c0 Hc0. unfold settled. rewrite Hv.
    exact (pc_settles _ _ _ _ _ _ Hnd Hhs Epc Herr c0 Hc0). }
  assert (Ep'' : findProduct pid s'' = Some p)
    by (unfold findProduct; rewrite Hp'', Hp; exact Ep).
  assert (Eg'' : generateAllOptionCombinations (productOptionGroups pid s'') = c :: cs).
  { rewrite (productOptionGroups_erase pid s'' s); [exact Eg|]. rewrite Her, Hg. reflexivity. }
  assert (Hidle : updateOptionGroupPaths pid s'' = (s'', Ok true)).
  { apply updateOptionGroupPaths_idle. intros all r Hr Hpr.
    destruct (Hfin eq_refl r Hr Hpr) as [q [Eq1 Eq2]]. exists q. split; [|exact Eq2].
    assert (Hall : map erasePath all =
      map erasePath (sortByLevel (filter (fun g => Nat.eqb (g_productId g) pid) (db_groups s'))))
      by (apply snapshot_erase, Her).
    assert (Hw : walkBound all =
      walkBound (sortByLevel (filter (fun g => Nat.eqb (g_productId g) pid) (db_groups s')))).
    { unfold walkBound. rewrite <- (length_map erasePath all), Hall, length_map. reflexivity. }
    rewrite Hw, <- Eq1. apply buildGroupPath_same; [reflexivity | exact Hall]. }
  destruct (pc_rerun pid (c :: cs) (mkResults [] [] [] []) s'' Hset) as [ids [Hrun Hlen]].
  exists (mkResults [] [] ids []).
  rewrite generateVariantsForProduct_eq, Ep'', Eg'', Hrun, Hidle. simpl.
  repeat split. rewrite Hlen. reflexivity.
Qed.

(** Claim C8, counterexample: two root groups each offer an option named
    "Red"; the variant name is unique per product, so the first run creates
    one variant and reports the other combination as an error, and so does
    every later run: the second run does not report every combination as
    skipped. *)
Lemma rerun_reports_name_collision :
  let (s1, out1) := generateVariantsForProduct 100 Samples.dbC8 in
  out1 = Ok (Results (mkResults [1] [] [] ["Red"%string])) /\
  snd (generateVariantsForProduct 100 s1) =
    Ok (Results (mkResults [] [] [1] ["Red"%string])).
Proof.
  vm_compute. split; reflexivity.
Qed.

(** A witness of [generation_rerun_skips_all]: the group of [dbC8b] has two
    options, one already a variant; the first run creates the other. *)
Lemma generation_rerun_skips_all_witness :
  let (s1, out1) := generateVariantsForProduct 100 Samples.dbC8b in
  exists r2, generateVariantsForProduct 100 s1 = (s1, Ok (Results r2)) /\
             List.length (skipped r2) = 2.
Proof.
  destruct (generateVariantsForProduct 100 Samples.dbC8b) as [s1 out1] eqn:Hgen.
  assert (Hnd : NoDup (map v_id (db_variants Samples.dbC8b))) by (repeat constructor; simpl; tauto).
  assert (Hgnd : NoDup (map g_id (db_groups Samples.dbC8b))) by (repeat constructor; simpl; tauto).
  assert (Hhs : NoDup (map c_optionHash
                  (generateAllOptionCombinations (productOptionGroups 100 Samples.dbC8b)))).
  { vm_compute. constructor; [simpl; intuition discriminate | repeat constructor; simpl; tauto]. }
  assert (Hout : out1 = Ok (Results (mkResults [5] [] [4] []))).
  { vm_compute in Hgen. injection Hgen as _ <-. reflexivity. }
  subst out1.
  destruct (generation_rerun_skips_all 100 Samples.dbC8b s1 _ Hnd Hgnd Hhs Hgen)
    as [_ [Hg H]].
  destruct (H _ eq_refl eq_refl) as [r2 [Hr2 [_ [_ [_ Hl]]]]].
  exists r2. split; [exact Hr2|]. rewrite Hl.
  rewrite (productOptionGroups_erase 100 s1 Samples.dbC8b Hg). vm_compute. reflexivity.
Defined.

End GenerationClaims.
(** ** Stock queries of HierarchicalStockService *)

Module StockQueryFacts.
Import StockManagementService.
Import HierarchicalStockService.
Import StockQueries.
Import OrderRoutes.
Import ResolveFacts.
Import QueryTerms.

Lemma fold_stock_shift (l : list Variant) (a : Z) :
  fold_left (fun total v => (total + v_stock v)%Z) l a = (a + sumStocks l)%Z.
Proof.
  unfold sumStocks. revert a. induction l as [|v l IH]; intros a; simpl; [lia|].
  rewrite IH. symmetry. rewrite IH. lia.
Qed.

Lemma sumStocks_cons v l : sumStocks (v :: l) = (v_stock v + sumStocks l)%Z.
Proof. unfold sumStocks at 1. simpl. rewrite fold_stock_shift. lia. Qed.

Lemma sumStocks_nonneg l :
  (forall v, In v l -> (0 <= v_stock v)%Z) -> (0 <= sumStocks l)%Z.
Proof.
  induction l as [|v l IH]; intros H; [unfold sumStocks; simpl; lia|].
  rewrite sumStocks_cons. assert (0 <= v_stock v)%Z by (apply H; left; reflexivity).
  assert (0 <= sumStocks l)%Z by (apply IH; intros w Hw; apply H; right; exact Hw). lia.
Qed.

(** Filtering with a stronger test keeps a smaller total. *)
Lemma sumStocks_filter_mono (p q : Variant -> bool) l :
  (forall v, In v l -> (0 <= v_stock v)%Z) ->
  (forall v, In v l -> p v = true -> q v = true) ->
  (sumStocks (filter p l) <= sumStocks (filter q l))%Z.
Proof.
  induction l as [|v l IH]; intros Hn Hpq; simpl; [lia|].
  assert (Hv : (0 <= v_stock v)%Z) by (apply Hn; left; reflexivity).
  assert (IH' : (sumStocks (filter p l) <= sumStocks (filter q l))%Z)
    by (apply IH; intros w Hw; [apply Hn | apply Hpq]; right; exact Hw).
  assert (Hq0 : (0 <= sumStocks (filter q l))%Z)
    by (apply sumStocks_nonneg; intros w Hw; apply filter_In in Hw; apply Hn; right; tauto).
  destruct (p v) eqn:Ep.
  - rewrite (Hpq v (or_introl eq_refl) Ep). rewrite !sumStocks_cons. lia.
  - destruct (q v); [rewrite sumStocks_cons|]; lia.
Qed.

Lemma containsPath_In path v :
  containsPath path v = true <-> (forall x, In x path -> In x (v_options v)).
Proof.
  unfold containsPath. rewrite forallb_forall. split; intros H x Hx.
  - apply has_In. apply H, Hx.
  - apply has_In. apply H, Hx.
Qed.

Lemma length_filter_mono {A} (p q : A -> bool) (l : list A) :
  (forall x, p x = true -> q x = true) ->
  List.length (filter p l) <= List.length (filter q l).
Proof.
  intros Hpq. induction l as [|x l IH]; simpl; [lia|].
  destruct (p x) eqn:Ep; [rewrite (Hpq x Ep); simpl; lia|].
  destruct (q x); simpl; lia.
Qed.

(** Extra: [getStockSummary] only reads; it counts every variant of the
    product, and an out-of-stock variant (stock 0) is always also a
    low-stock variant (stock at most 10), so
    outOfStockCount <= lowStockCount <= totalVariants. *)
Theorem stockSummary_counts_nested (productId : nat) (s : DB) :
  exists sm, getStockSummary productId s = (s, Ok sm) /\
    totalVariants sm = List.length (variantsOf productId s) /\
    outOfStockCount sm <= lowStockCount sm <= totalVariants sm /\
    incl (outOfStockVariants sm) (lowStockVariants sm).
Proof.
  unfold getStockSummary, bind, get, ret. simpl.
  eexists. split; [reflexivity|]. simpl. split; [reflexivity|]. split; [split|].
  - apply length_filter_mono. intros v Hv. apply Z.eqb_eq in Hv.
    apply Z.leb_le. lia.
  - clear. induction (variantsOf productId s) as [|v l IH]; simpl; [lia|].
    destruct (v_stock v <=? 10)%Z; simpl; lia.
  - intros x Hx. apply in_map_iff in Hx. destruct Hx as [v [<- Hv]].
    apply in_map. apply filter_In in Hv. apply filter_In. split; [tauto|].
    destruct Hv as [_ Hv]. apply Z.eqb_eq in Hv. apply Z.leb_le. lia.
Qed.


(** Extra: [getStockForPath] over an empty path counts every variant, so it
    equals [calculateTotalStock]; and when stocks are not negative, adding
    option ids to the path never raises the stock it reports. *)
Theorem stockForPath_total_and_antitone (variants : list Variant) :
  getStockForPath variants [] = calculateTotalStock variants /\
  ((forall v, In v variants -> (0 <= v_stock v)%Z) ->
   forall path1 path2, incl path1 path2 ->
   (getStockForPath variants path2 <= getStockForPath variants path1)%Z).
Proof.
  split.
  - unfold getStockForPath, calculateTotalStock.
    replace (filter (containsPath []) variants) with variants; [reflexivity|].
    induction variants as [|v vs IH]; simpl; [reflexivity|]. rewrite <- IH. reflexivity.
  - intros Hn path1 path2 Hincl. unfold getStockForPath. fold (sumStocks (filter (containsPath path2) variants)).
    fold (sumStocks (filter (containsPath path1) variants)).
    apply sumStocks_filter_mono; [exact Hn|].
    intros v _ H. apply containsPath_In. intros x Hx.
    apply (proj1 (containsPath_In path2 v) H). apply Hincl, Hx.
Qed.

(** Extra: with stocks that are not negative, the stock
    [getStockAndVariantForPath] reports for a path (exact matches only) is
    at most the stock [getStockForPath] reports for it (every variant
    containing the path). *)
Theorem exact_path_stock_le_path_stock (variants : list Variant) (path : list nat)
    (Hn : forall v, In v variants -> (0 <= v_stock v)%Z) :
  (fst (getStockAndVariantForPath variants path) <= getStockForPath variants path)%Z.
Proof.
  assert (E : fst (getStockAndVariantForPath variants path) =
              sumStocks (filter (exactPath path) variants)).
  { unfold getStockAndVariantForPath.
    destruct (filter (exactPath path) variants) as [|v [|w l]]; simpl.
    - reflexivity.
    - unfold sumStocks. simpl. lia.
    - reflexivity. }
  rewrite E. unfold getStockForPath. fold (sumStocks (filter (containsPath path) variants)).
  apply sumStocks_filter_mono; [exact Hn|].
  intros v _ H. unfold exactPath in H. apply andb_true_iff in H. tauto.
Qed.

(** The options' sort orders along a path, and their base-100 value. *)
Lemma sortOrderSum_value len index path sum :
  len = index + List.length path ->
  sortOrderSum len index path sum = sum + base100 (sortDigits path).
Proof.
  revert index sum. induction path as [|item path IH]; intros index sum Hlen; simpl.
  - lia.
  - rewrite IH by (simpl in Hlen; lia). unfold sortDigits. rewrite length_map.
    replace (len - index - 1) with (List.length path) by (simpl in Hlen; lia). lia.
Qed.

Lemma calculateSortOrder_value path :
  calculateSortOrder path = base100 (sortDigits path).
Proof. unfold calculateSortOrder. rewrite sortOrderSum_value; reflexivity. Qed.

Lemma base100_bound ds : Forall (fun d => d < 100) ds -> base100 ds < 100 ^ List.length ds.
Proof.
  induction ds as [|d ds IH]; intros H; simpl; [lia|].
  inversion H as [|? ? Hd Hds]; subst. specialize (IH Hds).
  assert (d * 100 ^ List.length ds + 100 ^ List.length ds <= 100 * 100 ^ List.length ds) by nia.
  lia.
Qed.

Lemma base100_lex a b :
  List.length a = List.length b -> Forall (fun d => d < 100) a -> Forall (fun d => d < 100) b ->
  lexLt a b -> base100 a < base100 b.
Proof.
  revert b. induction a as [|x a IH]; intros [|y b] Hlen Ha Hb Hlt; simpl in *; try contradiction;
    try discriminate.
  inversion Ha as [|? ? Hx Ha']; subst. inversion Hb as [|? ? Hy Hb']; subst.
  injection Hlen as Hlen. rewrite <- Hlen.
  destruct Hlt as [Hlt | [<- Hlt]].
  - pose proof (base100_bound a Ha').
    assert (x * 100 ^ List.length a + 100 ^ List.length a <= y * 100 ^ List.length a) by nia.
    lia.
  - specialize (IH b Hlen Ha' Hb' Hlt). lia.
Qed.

Lemma lex_trichotomy a b :
  List.length a = List.length b -> lexLt a b \/ a = b \/ lexLt b a.
Proof.
  revert b. induction a as [|x a IH]; intros [|y b] Hlen; simpl in *; try discriminate; auto.
  injection Hlen as Hlen. destruct (Nat.lt_trichotomy x y) as [H | [<- | H]]; auto.
  destruct (IH b Hlen) as [H | [<- | H]]; auto.
Qed.

(** Extra: for option paths of the same length whose options' sort orders
    are all below 100, [calculateSortOrder] orders the paths exactly
    lexicographically by their options' sort orders (the sort orders are
    the base-100 digits of the result). *)
Theorem calculateSortOrder_lexicographic (path1 path2 : list (OptionGroup * ProductOption))
    (Hlen : List.length path1 = List.length path2)
    (H1 : Forall (fun item => opt_sortOrder (snd item) < 100) path1)
    (H2 : Forall (fun item => opt_sortOrder (snd item) < 100) path2) :
  calculateSortOrder path1 < calculateSortOrder path2 <->
  lexLt (sortDigits path1) (sortDigits path2).
Proof.
  rewrite !calculateSortOrder_value.
  assert (L : List.length (sortDigits path1) = List.length (sortDigits path2))
    by (unfold sortDigits; rewrite !length_map; exact Hlen).
  assert (D1 : Forall (fun d => d < 100) (sortDigits path1))
    by (unfold sortDigits; apply Forall_map, H1).
  assert (D2 : Forall (fun d => d < 100) (sortDigits path2))
    by (unfold sortDigits; apply Forall_map, H2).
  split.
  - intros Hlt. destruct (lex_trichotomy _ _ L) as [H | [E | H]]; [exact H| |].
    + rewrite E in Hlt. lia.
    + pose proof (base100_lex _ _ (eq_sym L) D2 D1 H). lia.
  - apply base100_lex; assumption.
Qed.

(** Extra: the loop of [buildGroupPath] never exits from a group whose
    ancestors run into a parent cycle: if every group of a set [S] has a
    parent, found in [allGroups], that is again in [S], then no number of
    iterations finishes the walk from a group of [S]. *)
Theorem buildGroupPath_never_ends_on_cycle (allGroups S : list OptionGroup)
    (Hclosed : forall g, In g S ->
       exists parentId parentGroup,
         g_parentGroupId g = Some parentId /\
         find (fun x => Nat.eqb (g_id x) parentId) allGroups = Some parentGroup /\
         In parentGroup S) :
  forall fuel g, In g S -> buildGroupPath fuel g allGroups = None.
Proof.
  assert (L : forall fuel g path, In g S -> groupPathLoop fuel allGroups g path = None).
  { induction fuel as [|f IH]; intros g path Hg; simpl; [reflexivity|].
    destruct (Hclosed g Hg) as [pid [pg [Hp [Hf Hin]]]].
    rewrite Hp, Hf. apply IH, Hin. }
  intros fuel g Hg. unfold buildGroupPath. rewrite L by exact Hg. reflexivity.
Qed.

Lemma putVariantStock_eq variantId stock s :
  putVariantStock variantId stock s =
  match stock with
  | Some n =>
      if (0 <=? n)%Z then
        match findVariant variantId s with
        | Some _ => if (int4Max <? n)%Z then (s, S500) else (setVariantStock variantId n s, S200)
        | None => (s, S500)
        end
      else (s, S400)
  | None => (s, S400)
  end.
Proof.
  unfold putVariantStock, runHandler, updateVariantStock, bind, get, modify, ret, throw.
  destruct stock as [n|]; [|reflexivity].
  destruct (0 <=? n)%Z; [|reflexivity].
  destruct (findVariant variantId s); [|reflexivity].
  destruct (int4Max <? n)%Z; reflexivity.
Qed.

Lemma findVariant_setVariantStock variantId n s v :
  findVariant variantId s = Some v ->
  findVariant variantId (setVariantStock variantId n s) = Some (with_stock v n).
Proof.
  unfold findVariant, setVariantStock, set_variants. simpl.
  induction (db_variants s) as [|w ws IH]; simpl; [discriminate|].
  destruct (Nat.eqb (v_id w) variantId) eqn:E.
  - intros H. injection H as <-. simpl. rewrite E. reflexivity.
  - intros H. rewrite E. apply IH, H.
Qed.

(** Extra: [PUT /api/products/variants/:variantId/stock] answers 400 for a
    stock that is not a non-negative integer, and 500 for a missing variant
    or a stock above 2147483647 (the int4 [stock] column), writing nothing in
    these cases; otherwise it answers 200, the variant then reads back with
    exactly the new stock, every other variant row is unchanged, and no
    other table is written. *)
Theorem putVariantStock_outcomes (variantId : nat) (stock : option Z) (s s' : DB)
    (st : Status) (Hrun : putVariantStock variantId stock s = (s', st)) :
  (st = S400 /\ s' = s /\ (forall n, stock = Some n -> (n < 0)%Z)) \/
  (st = S500 /\ s' = s /\ exists n, stock = Some n /\ (0 <= n)%Z /\
     (findVariant variantId s = None \/ (int4Max < n)%Z)) \/
  (st = S200 /\ exists n v,
     stock = Some n /\ (0 <= n <= int4Max)%Z /\ findVariant variantId s = Some v /\
     findVariant variantId s' = Some (with_stock v n) /\
     (forall w, v_id w <> variantId -> (In w (db_variants s') <-> In w (db_variants s))) /\
     db_products s' = db_products s /\ db_groups s' = db_groups s /\
     db_orders s' = db_orders s /\ db_drivers s' = db_drivers s).
Proof.
  rewrite putVariantStock_eq in Hrun.
  destruct stock as [n|]; [|left; injection Hrun as <- <-; split; [reflexivity|split; [reflexivity|discriminate]]].
  destruct (0 <=? n)%Z eqn:Hn.
  - apply Z.leb_le in Hn. destruct (findVariant variantId s) as [v|] eqn:Hf.
    2:{ injection Hrun as <- <-. right; left. split; [reflexivity|]. split; [reflexivity|].
        exists n. auto. }
    destruct (int4Max <? n)%Z eqn:Hm.
    { injection Hrun as <- <-. right; left. split; [reflexivity|]. split; [reflexivity|].
      exists n. apply Z.ltb_lt in Hm. auto. }
    apply Z.ltb_ge in Hm.
    + injection Hrun as <- <-. right; right. split; [reflexivity|]. exists n, v.
      split; [reflexivity|]. split; [lia|]. split; [reflexivity|].
      split; [apply findVariant_setVariantStock, Hf|].
      split; [|repeat split].
      intros w Hw. unfold setVariantStock, set_variants. simpl. rewrite in_map_iff. split.
      * intros [u [Hu Hin]]. destruct (Nat.eqb (v_id u) variantId) eqn:E.
        -- subst w. simpl in Hw. apply Nat.eqb_eq in E. contradiction.
        -- subst. exact Hin.
      * intros Hin. exists w. split; [|exact Hin].
        destruct (Nat.eqb (v_id w) variantId) eqn:E; [apply Nat.eqb_eq in E; contradiction|reflexivity].
  - injection Hrun as <- <-. left. split; [reflexivity|]. split; [reflexivity|].
    intros m Hm. injection Hm as <-. apply Z.leb_gt in Hn. exact Hn.
Qed.

(** Extra: [PUT /api/products/variants/:variantId/stock] never leaves a
    variant with negative stock: if every variant's stock is non-negative
    before the call, it is after the call, whatever the request. *)
Theorem putVariantStock_keeps_stock_nonneg (variantId : nat) (stock : option Z) (s : DB)
    (Hs : forall v, In v (db_variants s) -> (0 <= v_stock v)%Z) :
  forall w, In w (db_variants (fst (putVariantStock variantId stock s))) -> (0 <= v_stock w)%Z.
Proof.
  rewrite putVariantStock_eq.
  destruct stock as [n|]; [|exact Hs].
  destruct (0 <=? n)%Z eqn:Hn; [|exact Hs].
  apply Z.leb_le in Hn.
  destruct (findVariant variantId s); [|exact Hs].
  destruct (int4Max <? n)%Z; [exact Hs|]. simpl.
  intros w Hw. unfold setVariantStock, set_variants in Hw. simpl in Hw.
  apply in_map_iff in Hw. destruct Hw as [u [<- Hu]].
  destruct (Nat.eqb (v_id u) variantId); [exact Hn | apply Hs, Hu].
Qed.

End StockQueryFacts.

(** ** Option-group creation and option deletion *)

Module CatalogFacts.
Import StockManagementService.
Import OrderRoutes.
Import ProductOptionRoutes.
Import HierarchicalStockService.
Import StockQueries.
Import CatalogRoutes.
Import ResolveFacts.
Import GenerationFacts.

Lemma createGroup_eq productId body s :
  createGroup productId body s =
  let parentGroupId := gb_parentGroupId body in
  let isParent := gb_isParent body in
  let created :=
    setHasOptions productId
      (set_groups s (db_groups s ++ [newGroupRow (freshGroupId s) productId
                                      (trim (gb_name body)) parentGroupId isParent
                                      (levelNum (levelValue (gb_level body)) isParent)])) in
  if negb (groupBodyValid body) then (s, R S400) else
  match findProduct productId s with
  | None => (s, R S404)
  | Some _ =>
      match parentGroupId with
      | Some p =>
          match findGroup p s with
          | None => (s, R S400)
          | Some parentGroup => if g_isParent parentGroup then (created, R201) else (s, R S400)
          end
      | None => (created, R201)
      end
  end.
Proof.
  unfold createGroup, runCreate. destruct (groupBodyValid body); [|reflexivity].
  unfold bind, get, modify, ret. simpl.
  destruct (findProduct productId s); [|reflexivity].
  destruct (gb_parentGroupId body) as [q|]; [|reflexivity].
  destruct (findGroup q s) as [pg|]; [|reflexivity].
  destruct (g_isParent pg); reflexivity.
Qed.

Lemma fold_max_groups (l : list OptionGroup) m :
  m <= fold_left (fun m g => Nat.max m (g_id g)) l m /\
  forall g, In g l -> g_id g <= fold_left (fun m g => Nat.max m (g_id g)) l m.
Proof.
  revert m. induction l as [|g l IH]; intros m; simpl; [split; [lia | tauto]|].
  destruct (IH (Nat.max m (g_id g))) as [H1 H2]. split; [lia|].
  intros w [<- | Hw]; [lia | auto].
Qed.

Lemma freshGroupId_fresh s : ~ In (freshGroupId s) (map g_id (db_groups s)).
Proof.
  unfold freshGroupId. rewrite in_map_iff. intros [g [Hg Hin]].
  destruct (fold_max_groups (db_groups s) 0) as [_ H]. specialize (H g Hin). lia.
Qed.

Lemma findProduct_setHasOptions productId s p :
  findProduct productId s = Some p ->
  findProduct productId (setHasOptions productId s) =
    Some (mkProduct (p_id p) (p_quantity p) true).
Proof.
  unfold findProduct, setHasOptions, set_products. simpl.
  induction (db_products s) as [|w ws IH]; simpl; [discriminate|].
  destruct (Nat.eqb (p_id w) productId) eqn:E.
  - intros H. injection H as <-. simpl. rewrite E. reflexivity.
  - intros H. rewrite E. apply IH, H.
Qed.

(** Extra: [POST /api/product-options/:productId/groups] answers 400 when
    the body fails [optionGroupValidation] (name of 1 to 100 characters
    after trimming, description of at most 500, selectionType SINGLE or
    MULTIPLE, level an integer from 1 to 5 when given, and the type checks
    of the other fields), then 404 for a missing product, and 400 when the
    given parent group is missing or not marked [isParent], writing nothing
    in these cases.  Otherwise it answers 201: it appends exactly one group,
    with a new id, the trimmed name, the given parent and
    [parseInt(level) || (isParent ? 1 : 2)] as level, sets the product's
    [hasOptions], and writes no variant or order. *)
Theorem createGroup_outcomes (productId : nat) (body : GroupBody) (s s' : DB) (r : Reply)
    (Hrun : createGroup productId body s = (s', r)) :
  (r = R S400 /\ s' = s /\ groupBodyValid body = false) \/
  (r = R S404 /\ s' = s /\ groupBodyValid body = true /\ findProduct productId s = None) \/
  (r = R S400 /\ s' = s /\ groupBodyValid body = true /\
   exists p, gb_parentGroupId body = Some p /\
     (findGroup p s = None \/ exists pg, findGroup p s = Some pg /\ g_isParent pg = false)) \/
  (r = R201 /\ groupBodyValid body = true /\
   (forall p, gb_parentGroupId body = Some p ->
      exists pg, findGroup p s = Some pg /\ g_isParent pg = true) /\
   ~ In (freshGroupId s) (map g_id (db_groups s)) /\
   db_groups s' = db_groups s ++ [newGroupRow (freshGroupId s) productId (trim (gb_name body))
                                   (gb_parentGroupId body) (gb_isParent body)
                                   (levelNum (levelValue (gb_level body)) (gb_isParent body))] /\
   (exists p, findProduct productId s = Some p /\
      findProduct productId s' = Some (mkProduct (p_id p) (p_quantity p) true)) /\
   db_variants s' = db_variants s /\ db_orders s' = db_orders s).
Proof.
  rewrite createGroup_eq in Hrun. cbv zeta in Hrun.
  destruct (groupBodyValid body) eqn:Hv.
  2:{ left. injection Hrun as <- <-. auto. }
  right. cbn [negb] in Hrun.
  destruct body as [name desc sel parentGroupId isParent level oth].
  cbn [gb_name gb_parentGroupId gb_isParent gb_level] in Hrun |- *.
  destruct (findProduct productId s) as [prod|] eqn:Hp;
    [|left; injection Hrun as <- <-; auto].
  right.
  assert (Hok : r = R201 -> s' = setHasOptions productId
      (set_groups s (db_groups s ++ [newGroupRow (freshGroupId s) productId (trim name)
                                      parentGroupId isParent (levelNum (levelValue level) isParent)])) ->
      (forall p, parentGroupId = Some p -> exists pg, findGroup p s = Some pg /\ g_isParent pg = true) ->
      (r = R201 /\ true = true /\
       (forall p, parentGroupId = Some p -> exists pg, findGroup p s = Some pg /\ g_isParent pg = true) /\
       ~ In (freshGroupId s) (map g_id (db_groups s)) /\
       db_groups s' = db_groups s ++ [newGroupRow (freshGroupId s) productId (trim name)
                                       parentGroupId isParent (levelNum (levelValue level) isParent)] /\
       (exists p, Some prod = Some p /\
          findProduct productId s' = Some (mkProduct (p_id p) (p_quantity p) true)) /\
       db_variants s' = db_variants s /\ db_orders s' = db_orders s)).
  { intros -> -> Hpar. split; [reflexivity|]. split; [reflexivity|]. split; [exact Hpar|].
    split; [apply freshGroupId_fresh|]. split; [reflexivity|].
    split; [|split; reflexivity]. exists prod. split; [reflexivity|].
    apply findProduct_setHasOptions. exact Hp. }
  destruct parentGroupId as [p|].
  - destruct (findGroup p s) as [pg|] eqn:Hg.
    + destruct (g_isParent pg) eqn:Hpar.
      * right. injection Hrun as <- <-. apply Hok; [reflexivity|reflexivity|].
        intros p' Hp'. injection Hp' as <-. exists pg. auto.
      * left. injection Hrun as <- <-. split; [reflexivity|]. split; [reflexivity|].
        split; [reflexivity|]. exists p. split; [reflexivity|]. right. exists pg. auto.
    + left. injection Hrun as <- <-. split; [reflexivity|]. split; [reflexivity|].
      split; [reflexivity|]. exists p. auto.
  - right. injection Hrun as <- <-. apply Hok; [reflexivity|reflexivity|].
    intros p' Hp'. discriminate.
Qed.


(** Termination of the parent walk does not depend on the path built so far. *)
Lemma groupPathLoop_none_path fuel all g p1 p2 :
  groupPathLoop fuel all g p1 = None -> groupPathLoop fuel all g p2 = None.
Proof.
  revert g p1 p2. induction fuel as [|f IH]; intros g p1 p2; simpl; [auto|].
  destruct (g_parentGroupId g) as [pid|]; [|discriminate].
  destruct (find (fun x => Nat.eqb (g_id x) pid) all) as [pg|]; [|discriminate].
  apply IH.
Qed.

(** Appending a group with an id no parent link points to leaves every
    existing group's walk unchanged. *)
Lemma groupPathLoop_app fuel all ng g path :
  (forall h pid, In h all -> g_parentGroupId h = Some pid -> In pid (map g_id all)) ->
  ~ In (g_id ng) (map g_id all) -> In g all ->
  groupPathLoop fuel (all ++ [ng]) g path = groupPathLoop fuel all g path.
Proof.
  intros Hfk Hfresh. revert g path. induction fuel as [|f IH]; intros g path Hg; simpl;
    [reflexivity|].
  destruct (g_parentGroupId g) as [pid|] eqn:Hpid; [|reflexivity].
  rewrite find_app.
  destruct (find (fun x => Nat.eqb (g_id x) pid) all) as [pg|] eqn:Hf.
  - apply IH. apply find_some in Hf. tauto.
  - exfalso. specialize (Hfk g pid Hg Hpid). apply in_map_iff in Hfk.
    destruct Hfk as [h [Hh Hin]]. apply find_none with (x := h) in Hf; [|exact Hin].
    rewrite Hh, Nat.eqb_refl in Hf. discriminate.
Qed.

(** Extra: creating an option group never builds a parent cycle.  If every
    parent link of the group table points to an existing group (the foreign
    key) and the parent walk of [buildGroupPath] ends for every group, then
    after a 201 of the create handler both still hold, for the new group
    too. *)
Theorem createGroup_keeps_parent_walks_finite (productId : nat) (body : GroupBody) (s s' : DB)
    (Hfk : forall g pid, In g (db_groups s) -> g_parentGroupId g = Some pid ->
             In pid (map g_id (db_groups s)))
    (Hfin : forall g, In g (db_groups s) ->
              exists fuel, buildGroupPath fuel g (db_groups s) <> None)
    (Hrun : createGroup productId body s = (s', R201)) :
  (forall g pid, In g (db_groups s') -> g_parentGroupId g = Some pid ->
     In pid (map g_id (db_groups s'))) /\
  (forall g, In g (db_groups s') -> exists fuel, buildGroupPath fuel g (db_groups s') <> None).
Proof.
  destruct (createGroup_outcomes _ _ _ _ _ Hrun)
    as [[H _] | [[H _] | [[H _] | [_ [_ [Hpar [Hfresh [Hgroups _]]]]]]]]; try discriminate.
  destruct body as [name desc sel parentGroupId isParent level oth].
  cbn [gb_name gb_parentGroupId gb_isParent gb_level] in Hpar, Hgroups.
  set (ng := newGroupRow (freshGroupId s) productId (trim name) parentGroupId isParent
               (levelNum (levelValue level) isParent)) in *.
  rewrite Hgroups.
  assert (Hid : g_id ng = freshGroupId s) by reflexivity.
  split.
  - intros g pid Hg Hpid. rewrite map_app. apply in_or_app. left.
    apply in_app_or in Hg. destruct Hg as [Hg | [<- | []]].
    + exact (Hfk g pid Hg Hpid).
    + destruct (Hpar pid Hpid) as [pg [Hf _]]. unfold findGroup in Hf.
      apply find_some in Hf. destruct Hf as [Hin Heq]. apply Nat.eqb_eq in Heq.
      rewrite <- Heq. apply in_map, Hin.
  - intros g Hg. apply in_app_or in Hg. destruct Hg as [Hg | [<- | []]].
    + destruct (Hfin g Hg) as [fuel Hne]. exists fuel. unfold buildGroupPath in *.
      rewrite groupPathLoop_app; [exact Hne | exact Hfk | rewrite Hid; exact Hfresh | exact Hg].
    + destruct parentGroupId as [pid|] eqn:Hp.
      * destruct (Hpar pid eq_refl) as [pg [Hf _]].
        assert (Hpg : In pg (db_groups s)) by (apply find_some in Hf; tauto).
        destruct (Hfin pg Hpg) as [fuel Hne]. exists (S fuel).
        unfold buildGroupPath in *. simpl. rewrite find_app. unfold findGroup in Hf. rewrite Hf.
        rewrite groupPathLoop_app; [| exact Hfk | rewrite Hid; exact Hfresh | exact Hpg].
        intros Hnone. apply Hne.
        match type of Hnone with option_map _ ?X = None => destruct X eqn:E; [discriminate|] end.
        rewrite (groupPathLoop_none_path _ _ _ _ [g_name pg] E). reflexivity.
      * exists 1. unfold buildGroupPath. simpl. discriminate.
Qed.

Lemma deleteOption_eq optionId s :
  deleteOption optionId s =
  match findOptionGroup optionId s with
  | None => (s, S404)
  | Some optionGroup =>
      let variantIds :=
        map v_id (filter (fun v => Nat.eqb (v_productId v) (g_productId optionGroup)
                                   && has (v_options v) optionId) (db_variants s)) in
      if (match variantIds with [] => false | _ => true end)
         && referencedByOrders variantIds s
      then (s, S400)
      else (deleteOptionRow optionId
              (match variantIds with [] => s | _ => deleteVariants variantIds s end), S200)
  end.
Proof.
  unfold deleteOption, runHandler, bind, get, modify, ret.
  destruct (findOptionGroup optionId s) as [og|]; [|reflexivity]. simpl.
  match goal with |- context [if ?b then _ else _] => destruct b end; reflexivity.
Qed.

Lemma deleteOptionRow_groups optionId s g :
  In g (db_groups (deleteOptionRow optionId s)) -> ~ In optionId (map opt_id (g_options g)).
Proof.
  simpl. intros Hg. apply in_map_iff in Hg. destruct Hg as [h [<- _]]. simpl.
  rewrite in_map_iff. intros [o [Ho Hin]]. apply filter_In in Hin.
  destruct Hin as [_ Hne]. rewrite Ho, Nat.eqb_refl in Hne. discriminate.
Qed.

Lemma deleteOptionRow_variants optionId s v :
  In v (db_variants (deleteOptionRow optionId s)) ->
  ~ In optionId (v_options v) /\
  exists w, In w (db_variants s) /\ v_id w = v_id v.
Proof.
  simpl. intros Hv. apply in_map_iff in Hv. destruct Hv as [w [<- Hw]]. simpl.
  split; [|exists w; auto].
  intros Hin. apply filter_In in Hin. destruct Hin as [_ Hne].
  rewrite Nat.eqb_refl in Hne. discriminate.
Qed.

Lemma deleteOptionRow_keeps optionId s w :
  In w (db_variants s) -> exists v, In v (db_variants (deleteOptionRow optionId s)) /\ v_id v = v_id w.
Proof.
  intros Hw. simpl. eexists. split; [apply in_map, Hw | reflexivity].
Qed.

(** Extra: when [DELETE /api/product-options/options/:optionId] answers 200,
    the option is gone from every group, no variant row lists it any more,
    every variant of the option's product that used it is deleted (no row
    with its id remains), and the orders are not touched. *)
Theorem deleteOption_removes_option (optionId : nat) (s s' : DB)
    (Hrun : deleteOption optionId s = (s', S200)) :
  exists optionGroup, findOptionGroup optionId s = Some optionGroup /\
    (forall g, In g (db_groups s') -> ~ In optionId (map opt_id (g_options g))) /\
    (forall v, In v (db_variants s') -> ~ In optionId (v_options v)) /\
    (forall u, In u (db_variants s) -> v_productId u = g_productId optionGroup ->
       In optionId (v_options u) -> forall v, In v (db_variants s') -> v_id v <> v_id u) /\
    db_orders s' = db_orders s.
Proof.
  rewrite deleteOption_eq in Hrun.
  destruct (findOptionGroup optionId s) as [og|]; [|discriminate].
  exists og. split; [reflexivity|]. simpl in Hrun.
  remember (map v_id (filter (fun v => Nat.eqb (v_productId v) (g_productId og)
                                      && has (v_options v) optionId) (db_variants s))) as vids
    eqn:Hvids.
  destruct ((match vids with [] => false | _ => true end) && referencedByOrders vids s);
    [discriminate|].
  injection Hrun as <-.
  split; [intros g; apply deleteOptionRow_groups|].
  split; [intros v Hv; apply (deleteOptionRow_variants _ _ _ Hv)|].
  split.
  - intros u Hu Hpu Hou v Hv Heq.
    assert (Hin : In (v_id u) vids).
    { rewrite Hvids. apply in_map. apply filter_In. split; [exact Hu|].
      rewrite Hpu, Nat.eqb_refl. simpl. apply has_In, Hou. }
    destruct (deleteOptionRow_variants _ _ _ Hv) as [_ [w [Hw Hwv]]].
    destruct vids as [|x xs]; [contradiction|].
    unfold deleteVariants, set_variants in Hw. cbn [db_variants] in Hw.
    apply filter_In in Hw. destruct Hw as [_ Hw].
    rewrite Hwv, Heq in Hw. apply has_In in Hin. rewrite Hin in Hw. discriminate.
  - destruct vids; reflexivity.
Qed.

(** Extra: [DELETE /api/product-options/options/:optionId] writes nothing
    unless it answers 200, and it never deletes a variant that an order
    item references through its [productVariantId] column. *)
Theorem deleteOption_keeps_referenced_variants (optionId : nat) (s s' : DB) (st : Status)
    (Hrun : deleteOption optionId s = (s', st)) :
  (st <> S200 -> s' = s) /\
  (forall o it v, In o (db_orders s) -> In it (o_items o) ->
     oi_productVariantId it = Some (v_id v) -> In v (db_variants s) ->
     exists v', In v' (db_variants s') /\ v_id v' = v_id v).
Proof.
  rewrite deleteOption_eq in Hrun.
  destruct (findOptionGroup optionId s) as [og|];
    [|injection Hrun as <- <-; split; [auto | intros; eexists; eauto]].
  simpl in Hrun.
  remember (map v_id (filter (fun v => Nat.eqb (v_productId v) (g_productId og)
                                      && has (v_options v) optionId) (db_variants s))) as vids
    eqn:Hvids.
  destruct ((match vids with [] => false | _ => true end) && referencedByOrders vids s) eqn:Eg;
    [injection Hrun as <- <-; split; [auto | intros; eexists; eauto]|].
  injection Hrun as <- <-. split; [intros H; exfalso; apply H; reflexivity|].
  intros o it v Ho Hit Hpv Hv.
  destruct vids as [|x xs]; [apply deleteOptionRow_keeps, Hv|].
  assert (Href : referencedByOrders (x :: xs) s = false).
  { destruct (referencedByOrders (x :: xs) s); [discriminate|reflexivity]. }
  destruct (has (x :: xs) (v_id v)) eqn:Hh.
  - exfalso. unfold referencedByOrders in Href.
    assert (existsb (fun o => existsb (fun it => match oi_productVariantId it with
                                                 | Some v => has (x :: xs) v
                                                 | None => false end) (o_items o))
              (db_orders s) = true).
    { apply existsb_exists. exists o. split; [exact Ho|].
      apply existsb_exists. exists it. split; [exact Hit|]. rewrite Hpv. exact Hh. }
    congruence.
  - apply deleteOptionRow_keeps. unfold deleteVariants, set_variants. cbn [db_variants].
    apply filter_In. split; [exact Hv|]. rewrite Hh. reflexivity.
Qed.

End CatalogFacts.

(** ** Order creation and order edit *)

Module OrderWriteFacts.
Import StockManagementService.
Import StockEffect.
Import OrderRoutes.
Import CatalogRoutes.
Import OrderWriteRoutes.
Import BucketFacts.
Import EffectFacts.
Import TransitionClaims.
Import GenerationFacts.

Lemma createOrder_eq gen state driverId products s :
  createOrder gen state driverId products s =
  if negb (quantitiesOk products) then (s, R S400)
  else if negb (driverOk driverId s) then (s, R S400)
  else if negb (productsExist products s) then (s, R S400)
  else if negb (stockOk products s) then (s, R S400)
  else
    match createOrderWithRetry gen 1 3
            (fun id => mkOrder id state driverId
                         (map (createdItem (variantsByProduct products s)) products)) s with
    | (s', Ok _) => (s', R201)
    | (s', Fail _) => (s', R S500)
    end.
Proof.
  unfold createOrder, runCreate, bind, get, ret.
  destruct (negb (quantitiesOk products)); [reflexivity|].
  destruct (negb (driverOk driverId s)); [reflexivity|].
  destruct (negb (productsExist products s)); [reflexivity|].
  destruct (negb (stockOk products s)); [reflexivity|].
  destruct (createOrderWithRetry _ _ _ _ s) as [s' [[]|e]]; reflexivity.
Qed.

(** The retry loop either appends one order, under an id no order had, or
    writes nothing. *)
Lemma createOrderWithRetry_effect gen mk :
  forall remaining attempt s s' r,
  createOrderWithRetry gen attempt remaining mk s = (s', r) ->
  match r with
  | Ok _ => exists k, findOrder (o_id (mk (gen k))) s = None /\
                      s' = set_orders s (db_orders s ++ [mk (gen k)])
  | Fail _ => s' = s
  end.
Proof.
  induction remaining as [|n IH]; intros attempt s s' r Hrun; simpl in Hrun.
  - unfold throw in Hrun. injection Hrun as <- <-. reflexivity.
  - unfold insertOrder, bind, get, modify, throw in Hrun.
    destruct (findOrder (o_id (mk (gen attempt))) s) as [o|] eqn:Hf.
    + destruct (Nat.ltb attempt 3).
      * apply (IH _ _ _ _ Hrun).
      * injection Hrun as <- <-. reflexivity.
    + injection Hrun as <- <-. exists attempt. auto.
Qed.

Lemma createOrder_effect gen state driverId products s s' r :
  createOrder gen state driverId products s = (s', r) ->
  s' = s \/
  (r = R201 /\ exists k,
     findOrder (gen k) s = None /\
     s' = set_orders s (db_orders s ++
            [mkOrder (gen k) state driverId
               (map (createdItem (variantsByProduct products s)) products)])).
Proof.
  rewrite createOrder_eq. intros Hrun.
  destruct (negb (quantitiesOk products)); [left; congruence|].
  destruct (negb (driverOk driverId s)); [left; congruence|].
  destruct (negb (productsExist products s)); [left; congruence|].
  destruct (negb (stockOk products s)); [left; congruence|].
  destruct (createOrderWithRetry _ _ _ _ s) as [s1 [u|e]] eqn:E;
    apply createOrderWithRetry_effect in E; injection Hrun as <- <-.
  - right. split; [reflexivity|]. exact E.
  - left. exact E.
Qed.

(** Extra: [POST /api/orders] writes only the orders table: whatever the
    request, including an order created directly in state DELIVERING, no
    product quantity, variant stock or option group is changed. *)
Theorem createOrder_never_touches_stock (gen : nat -> nat) (state : OrderState)
    (driverId : option nat) (products : list OrderLine) (s : DB) :
  db_products (fst (createOrder gen state driverId products s)) = db_products s /\
  db_variants (fst (createOrder gen state driverId products s)) = db_variants s /\
  db_groups (fst (createOrder gen state driverId products s)) = db_groups s.
Proof.
  destruct (createOrder gen state driverId products s) as [s' r] eqn:E. simpl.
  destruct (createOrder_effect _ _ _ _ _ _ _ E) as [-> | [_ [k [_ ->]]]]; auto.
Qed.

Lemma findOrder_appended s o oid :
  findOrder oid s = None ->
  findOrder oid (set_orders s (db_orders s ++ [o])) =
    if Nat.eqb (o_id o) oid then Some o else None.
Proof.
  unfold findOrder, set_orders. simpl. intros H. rewrite find_app, H. simpl.
  destruct (Nat.eqb (o_id o) oid); reflexivity.
Qed.

(** A flat order item (no option details) lives in [Product.quantity]. *)
Lemma restore_flat_item oid pid q s s1 o prod :
  findOrder oid s = Some o -> o_items o = [mkItem pid q ODNull None] ->
  findProduct pid s = Some prod ->
  restoreStockForOrder oid s = (s1, Ok tt) ->
  findProduct pid s1 = Some (with_quantity prod (p_quantity prod + q)).
Proof.
  intros Hf Hitems Hp Hrun.
  destruct (restoreStockForOrder_effect oid s o Hf) as [Hok | [n [e [_ Hfail]]]];
    rewrite Hrun in *; [|discriminate].
  injection Hok as ->. rewrite Hitems. unfold applyItems. simpl.
  unfold applyItem, itemBucket. simpl.
  replace (match q with 0%Z => 0%Z | Z.pos y => Z.pos y | Z.neg y => Z.neg y end) with q
    by (destruct q; reflexivity).
  apply find_addProductQuantity, Hp.
Qed.

(** Extra: the stock of an order created directly in state DELIVERING is
    never taken, but it is given back on return: if [POST /api/orders]
    creates a DELIVERING order with one line of [q] units of a product and
    no option details, and [PUT /api/orders/:id/state] then moves that order
    to RETURNED, the product's quantity ends [q] above where it started. *)
Theorem created_delivering_order_return_adds_stock (gen : nat -> nat) (pid : nat) (q : Z)
    (s s1 s2 : DB) (oid : nat) (prod : Product)
    (Hprod : findProduct pid s = Some prod)
    (Hcreate : createOrder gen DELIVERING None [mkLine pid q []] s = (s1, R201))
    (Hnew : findOrder oid s = None) (Hcreated : findOrder oid s1 <> None)
    (Hret : putOrderState oid RETURNED s1 = (s2, S200)) :
  findProduct pid s2 = Some (with_quantity prod (p_quantity prod + q)).
Proof.
  destruct (createOrder_effect _ _ _ _ _ _ _ Hcreate) as [-> | [_ [k [Hk ->]]]];
    [contradiction|].
  set (o := mkOrder (gen k) DELIVERING None
              (map (createdItem (variantsByProduct [mkLine pid q []] s)) [mkLine pid q []])) in *.
  rewrite (findOrder_appended _ _ _ Hnew) in Hcreated.
  destruct (Nat.eqb (o_id o) oid) eqn:Eid; [|contradiction].
  assert (Hf : findOrder oid (set_orders s (db_orders s ++ [o])) = Some o)
    by (rewrite (findOrder_appended _ _ _ Hnew), Eid; reflexivity).
  rewrite (putOrderState_unfold _ _ _ _ Hf) in Hret.
  destruct (stockOnEdge (o_state o) RETURNED oid
              (setOrderState oid RETURNED (set_orders s (db_orders s ++ [o]))))
    as [s3 [u|e]] eqn:Hedge; simpl in Hret; [|discriminate].
  injection Hret as <-. destruct u.
  simpl in Hedge. unfold stockOnEdge in Hedge. simpl in Hedge.
  apply (restore_flat_item oid pid q _ _ (mkOrder (o_id o) RETURNED (o_driverId o) (o_items o))
           prod (findOrder_setOrderState _ _ _ _ Hf) eq_refl) in Hedge; [exact Hedge|].
  unfold findProduct. simpl. exact Hprod.
Qed.

Lemma editOrder_eq id state driverId products s :
  editOrder id state driverId products s =
  let newState := match state with Some st => st | None => PLACED end in
  if negb (quantitiesOk products) then (s, S400)
  else
    match findOrder id s with
    | None => (s, S404)
    | Some existingOrder =>
        if negb (driverOk driverId s) then (s, S400)
        else if negb (productsExist products s) then (s, S400)
        else
          match stockOnEdge (o_state existingOrder) newState id
                  (replaceOrder id newState driverId products s) with
          | (s', Ok _) => (s', S200)
          | (s', Fail _) => (s', S500)
          end
    end.
Proof.
  unfold editOrder, runHandler, bind, get, modify, ret. simpl.
  destruct (negb (quantitiesOk products)); [reflexivity|].
  destruct (findOrder id s) as [o|]; [|reflexivity].
  destruct (negb (driverOk driverId s)); [reflexivity|].
  destruct (negb (productsExist products s)); [reflexivity|].
  destruct (stockOnEdge _ _ _ _) as [s' [[]|e]]; reflexivity.
Qed.

Lemma findOrder_replaceOrder id st d products s o :
  findOrder id s = Some o ->
  findOrder id (replaceOrder id st d products s) =
    Some (mkOrder (o_id o) st d (map (editedItem s) products)).
Proof.
  unfold findOrder, replaceOrder, set_orders. simpl.
  induction (db_orders s) as [|w ws IH]; simpl; [discriminate|].
  destruct (Nat.eqb (o_id w) id) eqn:E.
  - intros H. injection H as <-. simpl. rewrite E. reflexivity.
  - intros H. rewrite E. apply IH, H.
Qed.

(** Extra: editing a DELIVERING order with [PUT /api/orders/:id] while it
    stays DELIVERING replaces its items but moves no stock: the stock taken
    for the old items at delivery stays taken, and the new items are never
    deducted. *)
Theorem editOrder_delivering_moves_no_stock (id : nat) (driverId : option nat)
    (products : list OrderLine) (s s1 : DB) (o : Order)
    (Hf : findOrder id s = Some o) (Hst : o_state o = DELIVERING)
    (Hrun : editOrder id (Some DELIVERING) driverId products s = (s1, S200)) :
  stocks s1 = stocks s /\
  findOrder id s1 = Some (mkOrder (o_id o) DELIVERING driverId (map (editedItem s) products)).
Proof.
  rewrite editOrder_eq in Hrun. simpl in Hrun. rewrite Hf, Hst in Hrun.
  destruct (negb (quantitiesOk products)); [discriminate|].
  destruct (negb (driverOk driverId s)); [discriminate|].
  destruct (negb (productsExist products s)); [discriminate|].
  unfold stockOnEdge, ret in Hrun. simpl in Hrun. injection Hrun as <-.
  split; [reflexivity|]. apply findOrder_replaceOrder, Hf.
Qed.

(** Extra: after a DELIVERING order is edited (staying DELIVERING) into one
    line of [q] units of a product with no option details, moving it to
    RETURNED gives back [q] units to that product, whatever the order held
    when its stock was taken. *)
Theorem edit_then_return_restores_new_items (id pid : nat) (q : Z) (driverId : option nat)
    (s s1 s2 : DB) (o : Order) (prod : Product)
    (Hf : findOrder id s = Some o) (Hst : o_state o = DELIVERING)
    (Hprod : findProduct pid s = Some prod)
    (Hedit : editOrder id (Some DELIVERING) driverId [mkLine pid q []] s = (s1, S200))
    (Hret : putOrderState id RETURNED s1 = (s2, S200)) :
  findProduct pid s2 = Some (with_quantity prod (p_quantity prod + q)).
Proof.
  rewrite editOrder_eq in Hedit. cbv zeta in Hedit. rewrite Hf, Hst in Hedit.
  destruct (negb (quantitiesOk [mkLine pid q []])); [discriminate|].
  destruct (negb (driverOk driverId s)); [discriminate|].
  destruct (negb (productsExist [mkLine pid q []] s)); [discriminate|].
  unfold stockOnEdge, ret in Hedit. simpl in Hedit. injection Hedit as <-.
  pose proof (findOrder_replaceOrder id DELIVERING driverId [mkLine pid q []] s o Hf) as Hf1.
  rewrite (putOrderState_unfold _ _ _ _ Hf1) in Hret.
  destruct (stockOnEdge _ RETURNED id _) as [s3 [u|e]] eqn:Hedge; simpl in Hret;
    [|discriminate].
  injection Hret as <-. destruct u.
  unfold stockOnEdge in Hedge. simpl in Hedge.
  eapply restore_flat_item; [apply (findOrder_setOrderState _ RETURNED _ _ Hf1) | reflexivity | | exact Hedge].
  unfold findProduct. simpl. exact Hprod.
Qed.

End OrderWriteFacts.

(** ** Concrete runs of the further routes *)

Module ExtraRuns.
Import StockManagementService.
Import OrderRoutes.
Import HierarchicalStockService.
Import StockQueries.
Import CatalogRoutes.
Import OrderWriteRoutes.
Import Samples.
Import ExtraSamples.
Import StockEffect.

Lemma exact_path_stock_le_path_stock_witness :
  (forall v, In v [V1; V2] -> (0 <= v_stock v)%Z) /\
  getStockAndVariantForPath [V1; V2] [1] = (5%Z, Some 20) /\
  getStockForPath [V1; V2] [1] = 10%Z.
Proof.
  assert (Hn : forall v, In v [V1; V2] -> (0 <= v_stock v)%Z)
    by (intros v [<- | [<- | []]]; simpl; lia).
  split; [exact Hn|].
  pose proof (StockQueryFacts.exact_path_stock_le_path_stock [V1; V2] [1] Hn) as H.
  split; reflexivity.
Defined.

Lemma calculateSortOrder_lexicographic_witness :
  List.length pathLow = List.length pathHigh /\
  calculateSortOrder pathLow < calculateSortOrder pathHigh.
Proof.
  assert (Hlen : List.length pathLow = List.length pathHigh) by reflexivity.
  assert (H1 : Forall (fun item => opt_sortOrder (snd item) < 100) pathLow)
    by (repeat constructor; simpl; lia).
  assert (H2 : Forall (fun item => opt_sortOrder (snd item) < 100) pathHigh)
    by (repeat constructor; simpl; lia).
  split; [exact Hlen|].
  apply (StockQueryFacts.calculateSortOrder_lexicographic pathLow pathHigh Hlen H1 H2).
  vm_compute. right. split; [reflexivity|]. left. lia.
Defined.

Lemma buildGroupPath_never_ends_on_cycle_witness :
  buildGroupPath 1000 gCycA groupsCycle = None.
Proof.
  apply (StockQueryFacts.buildGroupPath_never_ends_on_cycle groupsCycle groupsCycle).
  - intros g [<- | [<- | []]].
    + exists 2, gCycB. split; [reflexivity|]. split; [reflexivity|]. right; left; reflexivity.
    + exists 1, gCycA. split; [reflexivity|]. split; [reflexivity|]. left; reflexivity.
  - left; reflexivity.
Defined.

Lemma putVariantStock_outcomes_witness :
  putVariantStock 10 (Some 3%Z) dbC1 = (fst (putVariantStock 10 (Some 3%Z) dbC1), S200) /\
  findVariant 10 (fst (putVariantStock 10 (Some 3%Z) dbC1)) = Some (with_stock V1 3).
Proof.
  assert (Hp : putVariantStock 10 (Some 3%Z) dbC1 =
               (fst (putVariantStock 10 (Some 3%Z) dbC1), S200)) by reflexivity.
  split; [exact Hp|].
  destruct (StockQueryFacts.putVariantStock_outcomes _ _ _ _ _ Hp)
    as [[H _] | [[H _] | [_ [n [v [Hn [_ [Hf [Hf' _]]]]]]]]]; try discriminate.
  injection Hn as <-. assert (Hv : findVariant 10 dbC1 = Some V1) by reflexivity.
  rewrite Hv in Hf. injection Hf as <-. exact Hf'.
Defined.

Lemma putVariantStock_keeps_stock_nonneg_witness :
  forallb (fun v => (0 <=? v_stock v)%Z)
    (db_variants (fst (putVariantStock 20 (Some 0%Z) dbC1))) = true.
Proof.
  apply forallb_forall. intros w Hw. apply Z.leb_le.
  apply (StockQueryFacts.putVariantStock_keeps_stock_nonneg 20 (Some 0%Z) dbC1); [|exact Hw].
  intros v [<- | [<- | []]]; simpl; lia.
Defined.

Lemma createGroup_outcomes_witness :
  createGroup 100 bodyTrim dbC7 = (fst (createGroup 100 bodyTrim dbC7), R201) /\
  db_groups (fst (createGroup 100 bodyTrim dbC7)) =
    [gA; gB; newGroupRow 3 100 "Trim"%string (Some 2) false 2].
Proof.
  assert (Hp : createGroup 100 bodyTrim dbC7 = (fst (createGroup 100 bodyTrim dbC7), R201))
    by reflexivity.
  split; [exact Hp|].
  destruct (CatalogFacts.createGroup_outcomes _ _ _ _ _ Hp)
    as [[H _] | [[H _] | [[H _] | [_ [_ [_ [_ [Hg _]]]]]]]]; try discriminate.
  rewrite Hg. reflexivity.
Defined.


Lemma createGroup_keeps_parent_walks_finite_witness :
  createGroup 100 bodyTrim dbC7 = (fst (createGroup 100 bodyTrim dbC7), R201) /\
  exists fuel, buildGroupPath fuel (newGroupRow 3 100 "Trim"%string (Some 2) false 2)
                 (db_groups (fst (createGroup 100 bodyTrim dbC7)))
               <> None.
Proof.
  assert (Hp : createGroup 100 bodyTrim dbC7 = (fst (createGroup 100 bodyTrim dbC7), R201))
    by reflexivity.
  split; [exact Hp|].
  assert (Hfk : forall g pid, In g (db_groups dbC7) -> g_parentGroupId g = Some pid ->
                 In pid (map g_id (db_groups dbC7))).
  { intros g pid [<- | [<- | []]] Hpar; [discriminate|].
    injection Hpar as <-. left; reflexivity. }
  assert (Hfin0 : forall g, In g (db_groups dbC7) ->
                    exists fuel, buildGroupPath fuel g (db_groups dbC7) <> None).
  { intros g [<- | [<- | []]]; exists 5; vm_compute; discriminate. }
  destruct (CatalogFacts.createGroup_keeps_parent_walks_finite _ _ _ _ Hfk Hfin0 Hp)
    as [_ Hfin].
  apply Hfin. vm_compute. right; right; left; reflexivity.
Defined.

Lemma deleteOption_removes_option_witness :
  deleteOption 21 dbC6 = (fst (deleteOption 21 dbC6), S200) /\
  ~ In 7 (map v_id (db_variants (fst (deleteOption 21 dbC6)))).
Proof.
  assert (Hp : deleteOption 21 dbC6 = (fst (deleteOption 21 dbC6), S200)) by reflexivity.
  split; [exact Hp|].
  destruct (CatalogFacts.deleteOption_removes_option _ _ _ Hp)
    as [og [Hog [_ [_ [Hdel _]]]]].
  assert (Hc : findOptionGroup 21 dbC6 = Some gColor) by reflexivity.
  rewrite Hc in Hog. injection Hog as <-.
  intros Hin. apply in_map_iff in Hin. destruct Hin as [v [Hv Hin]].
  apply (Hdel (mkVariant 7 100 "S Red"%string 4 0 EmptyString None [11; 21])
           (or_introl eq_refl) eq_refl (or_intror (or_introl eq_refl)) v Hin).
  exact Hv.
Defined.

Lemma deleteOption_keeps_referenced_variants_witness :
  deleteOption 21 dbRef = (fst (deleteOption 21 dbRef), S400) /\
  In 7 (map v_id (db_variants (fst (deleteOption 21 dbRef)))).
Proof.
  assert (Hp : deleteOption 21 dbRef = (fst (deleteOption 21 dbRef), S400)) by reflexivity.
  split; [exact Hp|].
  destruct (CatalogFacts.deleteOption_keeps_referenced_variants _ _ _ _ Hp) as [_ Hkeep].
  destruct (Hkeep (mkOrder 1 DELIVERING None [mkItem 100 1 ODNull (Some 7)])
              (mkItem 100 1 ODNull (Some 7))
              (mkVariant 7 100 "S Red"%string 4 0 EmptyString None [11; 21])
              (or_introl eq_refl) (or_introl eq_refl) eq_refl (or_introl eq_refl))
    as [v' [Hin Hid]].
  simpl in Hid. apply in_map_iff. exists v'. split; [exact Hid | exact Hin].
Defined.

Lemma created_delivering_order_return_adds_stock_witness :
  let s1 := fst (createOrder genOrd DELIVERING None [mkLine 1 3 []] dbOrd) in
  createOrder genOrd DELIVERING None [mkLine 1 3 []] dbOrd = (s1, R201) /\
  putOrderState 2 RETURNED s1 = (fst (putOrderState 2 RETURNED s1), S200) /\
  findProduct 1 (fst (putOrderState 2 RETURNED s1)) = Some (with_quantity P1 8).
Proof.
  intros s1.
  assert (Hc : createOrder genOrd DELIVERING None [mkLine 1 3 []] dbOrd = (s1, R201))
    by reflexivity.
  assert (Hr : putOrderState 2 RETURNED s1 = (fst (putOrderState 2 RETURNED s1), S200))
    by reflexivity.
  split; [exact Hc|]. split; [exact Hr|].
  apply (OrderWriteFacts.created_delivering_order_return_adds_stock genOrd 1 3 dbOrd s1 _ 2 P1
           eq_refl Hc eq_refl).
  - intros H. vm_compute in H. discriminate H.
  - exact Hr.
Defined.

Lemma editOrder_delivering_moves_no_stock_witness :
  editOrder 1 (Some DELIVERING) None [mkLine 1 4 []] dbOrd =
    (fst (editOrder 1 (Some DELIVERING) None [mkLine 1 4 []] dbOrd), S200) /\
  stocks (fst (editOrder 1 (Some DELIVERING) None [mkLine 1 4 []] dbOrd)) = stocks dbOrd.
Proof.
  assert (Hp : editOrder 1 (Some DELIVERING) None [mkLine 1 4 []] dbOrd =
               (fst (editOrder 1 (Some DELIVERING) None [mkLine 1 4 []] dbOrd), S200))
    by reflexivity.
  split; [exact Hp|].
  apply (OrderWriteFacts.editOrder_delivering_moves_no_stock 1 None _ dbOrd _ orderOrd
           eq_refl eq_refl Hp).
Defined.

Lemma edit_then_return_restores_new_items_witness :
  let s1 := fst (editOrder 1 (Some DELIVERING) None [mkLine 1 4 []] dbOrd) in
  editOrder 1 (Some DELIVERING) None [mkLine 1 4 []] dbOrd = (s1, S200) /\
  putOrderState 1 RETURNED s1 = (fst (putOrderState 1 RETURNED s1), S200) /\
  findProduct 1 (fst (putOrderState 1 RETURNED s1)) = Some (with_quantity P1 9).
Proof.
  intros s1.
  assert (He : editOrder 1 (Some DELIVERING) None [mkLine 1 4 []] dbOrd = (s1, S200))
    by reflexivity.
  assert (Hr : putOrderState 1 RETURNED s1 = (fst (putOrderState 1 RETURNED s1), S200))
    by reflexivity.
  split; [exact He|]. split; [exact Hr|].
  apply (OrderWriteFacts.edit_then_return_restores_new_items 1 1 4 None dbOrd s1 _ orderOrd P1
           eq_refl eq_refl eq_refl He Hr).
Defined.

End ExtraRuns.
